(** * youtube-video-summary: transcript pipeline, cache, service and router

    A shallow embedding of the Go sources

      - [pkg/youtube/youtube.go]: package youtube (modules [youtube], the
        types, and [Client], the functions);
      - [internal/transcript/repository.go]: packages repository
        (MemoryRepository, module [repository]), service (module [service])
        and router (module [router]).

    Go strings are byte sequences and are modelled by [string] (a sequence
    of 8-bit [ascii]); [len] is [String.length].  [float64] is the binary64
    primitive float of the kernel, so concrete runs round as the Go program
    does.  [int] is a 64-bit two's complement integer carried by [Z].
    Functions of the Go standard library whose behaviour is not part of this
    repository ([strconv.ParseFloat], [strings.TrimSpace], [xml.Decode],
    [url.Parse]) are fields of the class [GoLib]; the network and the
    request context are a [World]. *)

From Stdlib Require Import ZArith List String Ascii Bool Lia.
From Stdlib Require Import Floats.PrimFloat Floats.FloatOps Floats.SpecFloat.
From Stdlib Require Floats.FloatAxioms.
From Stdlib Require Import Numbers.DecimalString Numbers.DecimalN.
From stdpp Require Import gmap strings.

Local Open Scope Z_scope.

(** [simpl] computes [+:+] on a string that starts with a byte. *)
Arguments String.append !s1 s2 : simpl nomatch.

(** ** Go base types *)

Abbreviation float64 := PrimFloat.float.

Definition int_min : Z := - 2 ^ 63.
Definition int_max : Z := 2 ^ 63 - 1.

(** Wrap-around of [int] arithmetic (two's complement, 64 bits). *)
Definition wrap_int (z : Z) : Z := (z + 2 ^ 63) mod 2 ^ 64 - 2 ^ 63.

Definition int_mul (a b : Z) : Z := wrap_int (a * b).
Definition int_add (a b : Z) : Z := wrap_int (a + b).

(** [int(f)]: the fractional part is discarded.  When the truncated value
    does not fit (or [f] is NaN or infinite) the Go specification leaves the
    result to the implementation; amd64 yields the minimal integer. *)
Definition float_to_int (f : float64) : Z :=
  match Prim2SF f with
  | S754_zero _ => 0
  | S754_finite sgn m e =>
      let v := if 0 <=? e then Z.shiftl (Zpos m) e else Z.shiftr (Zpos m) (- e) in
      let v := if sgn then - v else v in
      if (int_min <=? v) && (v <=? int_max) then v else int_min
  | S754_infinity _ | S754_nan => int_min
  end.

(** [float64(n)]: the nearest binary64 value, ties to even. *)
Definition int_to_float (n : Z) : float64 :=
  SF2Prim (binary_normalize prec emax n 0 false).

(** ** Binary64 numbers

    The specification side of a [float64] is [Prim2SF]: a sign, a mantissa
    and an exponent.  The definitions below measure such a number. *)

Module binary64.

(** The value of a finite binary64 number in units of [2^-1074], the
    smallest positive number of the format; 0 for the other numbers. *)
Definition units (x : spec_float) : Z :=
  match x with
  | S754_finite false m e => Zpos m * 2 ^ (e + 1074)
  | S754_finite true m e => - (Zpos m * 2 ^ (e + 1074))
  | _ => 0
  end.

(** Zero of either sign, or finite and positive. *)
Definition nonneg (x : spec_float) : bool :=
  match x with
  | S754_zero _ | S754_finite false _ _ => true
  | _ => false
  end.

(** [float_to_int] on the specification side of a number. *)
Definition trunc (x : spec_float) : Z :=
  match x with
  | S754_zero _ => 0
  | S754_finite sgn m e =>
      let v := if 0 <=? e then Z.shiftl (Zpos m) e else Z.shiftr (Zpos m) (- e) in
      let v := if sgn then - v else v in
      if (int_min <=? v) && (v <=? int_max) then v else int_min
  | S754_infinity _ | S754_nan => int_min
  end.

(** [x] is a number of the format, not negative, of value [T] units. *)
Definition holds (x : spec_float) (T : Z) : Prop :=
  valid_binary prec emax x = true /\ nonneg x = true /\ units x = T.

(** The number 1 counted in units: [2^1074] of them. *)
Definition one : Z := 2 ^ 1074.

End binary64.

(** ** Errors *)

Inductive error : Type :=
  | ErrNew (msg : string)                      (* errors.New / errors.Errorf *)
  | ErrNum (fn arg : string)                   (* *strconv.NumError *)
  | ErrInvalidTimeFormat (timeStr : string)    (* fmt.Errorf("invalid time format: %s") *)
  | ErrStatusCode (code : Z)                   (* errors.Errorf("unexpected status code: %d") *)
  | ErrTransport (msg : string)                (* an error of net/http *)
  | ErrDecode (msg : string)                   (* an error of encoding/json or encoding/xml *)
  | ErrContext                                 (* ctx.Err() *)
  | ErrWrap (cause : error) (msg : string)     (* errors.Wrap(cause, msg) *)
  | ErrTranscriptNotFound                      (* repository.ErrTranscriptNotFound *)
  | ErrInvalidTranscript                       (* repository.ErrInvalidTranscript *)
  | ErrNoTranscript                            (* service.ErrNoTranscript *)
  | ErrFailedToGet                             (* service.ErrFailedToGet *)
  | ErrFailedToFormat                          (* service.ErrFailedToFormat *)
  | ErrInvalidURL                              (* service.ErrInvalidURL *)
  | ErrorfW (sentinel cause : error).          (* fmt.Errorf("%w: %v", sentinel, cause) *)

Inductive result (A : Type) : Type :=
  | Ok (a : A)
  | Err (e : error).
Arguments Ok {A} a.
Arguments Err {A} e.

Definition is_Ok {A} (r : result A) : bool :=
  match r with Ok _ => true | Err _ => false end.

(** ** package strings (the functions used, on bytes) *)

Module strings.

Fixpoint HasPrefix (s prefix : string) : bool :=
  match prefix with
  | EmptyString => true
  | String p ps =>
      match s with
      | EmptyString => false
      | String c cs => Ascii.eqb c p && HasPrefix cs ps
      end
  end.

(** [len(s) >= len(suffix) && s[len(s)-len(suffix):] == suffix] *)
Definition HasSuffix (s suffix : string) : bool :=
  (String.length suffix <=? String.length s)%nat
  && String.eqb (substring (String.length s - String.length suffix)
                           (String.length suffix) s) suffix.

Definition TrimSuffix (s suffix : string) : string :=
  if HasSuffix s suffix
  then substring 0 (String.length s - String.length suffix) s
  else s.

Definition TrimPrefix (s prefix : string) : string :=
  if HasPrefix s prefix
  then substring (String.length prefix) (String.length s - String.length prefix) s
  else s.

(** [strings.Split(s, sep)] for a separator of one byte, the only use in
    the program ([":"]).  The result always has at least one field. *)
Fixpoint Split (s : string) (sep : ascii) : list string :=
  match s with
  | EmptyString => [EmptyString]
  | String c rest =>
      if Ascii.eqb c sep then EmptyString :: Split rest sep
      else match Split rest sep with
           | field :: fields => String c field :: fields
           | [] => [String c EmptyString]
           end
  end.

(** ASCII letters are lowered; the program applies [ToLower] to a host
    name that is then compared with ASCII-only domain names. *)
Definition lower_byte (c : ascii) : ascii :=
  let n := nat_of_ascii c in
  if ((65 <=? n) && (n <=? 90))%nat then ascii_of_nat (n + 32) else c.

Fixpoint ToLower (s : string) : string :=
  match s with
  | EmptyString => EmptyString
  | String c rest => String (lower_byte c) (ToLower rest)
  end.

End strings.

(** ** package fmt: the verbs used by the program ([%s], [%d], [%02d])

    Other verbs and flags are outside the model; [verb] marks them in the
    output. *)

Module fmt.

Inductive arg : Type :=
  | I (n : Z)
  | S (s : string).

Definition decimal (n : Z) : string :=
  NilZero.string_of_uint (N.to_uint (Z.to_N n)).

Fixpoint repeat_byte (c : ascii) (n : nat) : string :=
  match n with
  | O => EmptyString
  | Datatypes.S n' => String c (repeat_byte c n')
  end.

Definition pad_left (c : ascii) (width : nat) (s : string) : string :=
  repeat_byte c (width - String.length s) +:+ s.

(** [%d] with an optional [0] flag and width.  With the [0] flag the width
    becomes the minimal number of digits, one less when a sign is
    printed. *)
Definition fmt_d (zero : bool) (width : nat) (n : Z) : string :=
  let digits := decimal (Z.abs n) in
  if zero then
    if n <? 0 then "-" +:+ pad_left "0" (width - 1) digits
    else pad_left "0" width digits
  else
    pad_left " " width (if n <? 0 then "-" +:+ digits else digits).

Definition fmt_s (width : nat) (s : string) : string :=
  pad_left " " width s.

Definition is_digit (c : ascii) : bool :=
  let n := nat_of_ascii c in ((48 <=? n) && (n <=? 57))%nat.

Definition digit_val (c : ascii) : nat := nat_of_ascii c - 48.

(** Scanner state: literal text, or inside a verb after [%] (flags then
    width). *)
Inductive scan : Type :=
  | Lit
  | Flags (zero : bool)
  | Width (zero : bool) (width : nat).

Definition verb (zero : bool) (width : nat) (c : ascii) (args : list arg)
  : string * list arg :=
  match args with
  | I n :: args' =>
      if Ascii.eqb c "d" then (fmt_d zero width n, args')
      else ("%!" +:+ String c "(int)", args')
  | S s :: args' =>
      if Ascii.eqb c "s" then (fmt_s width s, args')
      else ("%!" +:+ String c "(string)", args')
  | [] => ("%!" +:+ String c "(MISSING)", [])
  end.

Fixpoint run (st : scan) (format : string) (args : list arg) : string :=
  match format with
  | EmptyString =>
      match st with Lit => EmptyString | _ => "%!(NOVERB)" end
  | String c rest =>
      match st with
      | Lit =>
          if Ascii.eqb c "%" then run (Flags false) rest args
          else String c (run Lit rest args)
      | Flags zero =>
          if Ascii.eqb c "0" then run (Flags true) rest args
          else if is_digit c then run (Width zero (digit_val c)) rest args
          else if Ascii.eqb c "%" then String c (run Lit rest args)
          else let '(out, args') := verb zero 0 c args in
               out +:+ run Lit rest args'
      | Width zero w =>
          if is_digit c then run (Width zero (10 * w + digit_val c)) rest args
          else let '(out, args') := verb zero w c args in
               out +:+ run Lit rest args'
      end
  end.

Definition Sprintf (format : string) (args : list arg) : string :=
  run Lit format args.

End fmt.

(** ** Data model (the types of package youtube) *)

(** Heap locations: the targets of Go pointers. *)
Definition loc : Type := positive.

Module youtube.

Record TranscriptSegment : Type := {
  Text : string;
  StartTime : float64;
  Duration : float64;
}.

(** [struct Transcript].  It is only ever reached through a pointer and is
    never copied by the program, so the backing array of [Segments] is kept
    inside the object. *)
Record Transcript : Type := {
  Segments : list TranscriptSegment;
}.

(** A [[]string] slice header: pointer to the backing array ([None] for the
    nil slice) and length. *)
Record string_slice : Type := {
  sl_array : option loc;
  sl_len : nat;
}.

Definition nil_slice : string_slice := {| sl_array := None; sl_len := 0 |}.

(** [struct TranscriptResponse] of package youtube: [Raw] is a pointer
    ([None] is nil), [Formatted] a slice header. *)
Record TranscriptResponse : Type := {
  Title : string;
  Raw : option loc;
  Formatted : string_slice;
}.

Record CaptionTrack : Type := {
  BaseURL : string;
  VssID : string;
  LanguageCode : string;
}.

(** [struct playerResponse], flattened to the two fields that are read:
    [VideoDetails.Title] and
    [Captions.PlayerCaptionsTracklistRenderer.CaptionTracks]. *)
Record playerResponse : Type := {
  VideoDetails_Title : string;
  CaptionTracks : list CaptionTrack;
}.

End youtube.
Import youtube.

(** ** Standard-library functions taken as parameters *)

(** The decoded form of a timed-text document (struct [ttmlTranscript]). *)
Record ttmlParagraph : Type := {
  Begin : string;
  End_ : string;
  PText : string;
}.

Record ttmlTranscript : Type := {
  Paragraphs : list ttmlParagraph;
}.

(** The part of [*url.URL] that the program reads. *)
Record URL : Type := {
  Host : string;
}.

Class GoLib : Type := {
  (** [strconv.ParseFloat(s, 64)]; [None] when the error is not nil. *)
  ParseFloat : string -> option float64;
  (** [strings.TrimSpace]. *)
  TrimSpace : string -> string;
  (** [xml.NewDecoder(body).Decode(&ttml)]; [None] when the error is not nil. *)
  xml_Decode : string -> option ttmlTranscript;
  (** [url.Parse]; [None] when the error is not nil. *)
  url_Parse : string -> option URL;
}.


(** ** Memory, logical time and the outside world *)

Inductive event : Type :=
  | EvCacheGet (videoID : string)     (* a call of Repository.Get *)
  | EvCacheSave (videoID : string)    (* a call of Repository.Save *)
  | EvPost (videoID : string)         (* stage 1: POST to the player endpoint *)
  | EvGet (url : string).             (* stage 2: GET of the caption document *)

Record state : Type := {
  responses : gmap loc TranscriptResponse;   (* allocated TranscriptResponse structs *)
  transcripts : gmap loc Transcript;         (* allocated Transcript structs *)
  arrays : gmap loc (list string);           (* backing arrays of []string *)
  next : loc;                                (* allocation pointer *)
  cache : gmap string (option loc);          (* MemoryRepository.cache *)
  now : nat;                                 (* logical instant *)
  trace : list event;                        (* calls made so far, oldest first *)
}.

Definition initial : state :=
  {| responses := ∅; transcripts := ∅; arrays := ∅; next := 1%positive;
     cache := ∅; now := 0%nat; trace := [] |}.

(** An HTTP exchange as seen by the client. *)
Inductive http_reply (B : Type) : Type :=
  | NetFail (msg : string)                   (* the round trip failed *)
  | Reply (status : Z) (body : option B).    (* [None]: the body cannot be read *)
Arguments NetFail {B} msg.
Arguments Reply {B} status body.

(** The world outside the process: the cancellation state of the request
    context at each logical instant, and the provider's answers.  The body
    of a player reply is given by the [playerResponse] that
    [json.NewDecoder(resp.Body).Decode] produces from it ([None] when it
    does not decode); the body of a caption reply by its bytes. *)
Record World : Type := {
  ctx_done : nat -> bool;
  player : nat -> string -> http_reply playerResponse;
  fetch : nat -> string -> http_reply string;
}.

(** State and failure monad.  [None] is a run-time panic; the only source
    is a read through a location that was never allocated. *)
Definition M (A : Type) : Type := state -> option (A * state).

Definition ret {A} (a : A) : M A := fun σ => Some (a, σ).

Definition bind {A B} (c : M A) (k : A -> M B) : M B :=
  fun σ => match c σ with
           | Some (a, σ') => k a σ'
           | None => None
           end.

Notation "'let*' x := c 'in' k" := (bind c (fun x => k))
  (at level 10, x name, c at level 100, k at level 200).

Definition log (e : event) : M unit :=
  fun σ => Some (tt, {| responses := responses σ; transcripts := transcripts σ;
                        arrays := arrays σ; next := next σ; cache := cache σ;
                        now := now σ; trace := trace σ ++ [e] |}).

(** A blocking operation takes one logical instant. *)
Definition tick : M unit :=
  fun σ => Some (tt, {| responses := responses σ; transcripts := transcripts σ;
                        arrays := arrays σ; next := next σ; cache := cache σ;
                        now := Datatypes.S (now σ); trace := trace σ |}).

Definition clock : M nat := fun σ => Some (now σ, σ).

Definition new_response (v : TranscriptResponse) : M loc :=
  fun σ => Some (next σ,
                 {| responses := <[next σ := v]> (responses σ);
                    transcripts := transcripts σ; arrays := arrays σ;
                    next := Pos.succ (next σ); cache := cache σ;
                    now := now σ; trace := trace σ |}).

Definition new_transcript (v : Transcript) : M loc :=
  fun σ => Some (next σ,
                 {| responses := responses σ;
                    transcripts := <[next σ := v]> (transcripts σ);
                    arrays := arrays σ;
                    next := Pos.succ (next σ); cache := cache σ;
                    now := now σ; trace := trace σ |}).

Definition new_array (v : list string) : M loc :=
  fun σ => Some (next σ,
                 {| responses := responses σ; transcripts := transcripts σ;
                    arrays := <[next σ := v]> (arrays σ);
                    next := Pos.succ (next σ); cache := cache σ;
                    now := now σ; trace := trace σ |}).

(** [*p] for [p : *TranscriptResponse] and [p : *Transcript]. *)
Definition load_response (p : loc) : M TranscriptResponse :=
  fun σ => match responses σ !! p with
           | Some v => Some (v, σ)
           | None => None
           end.

Definition load_transcript (p : loc) : M Transcript :=
  fun σ => match transcripts σ !! p with
           | Some v => Some (v, σ)
           | None => None
           end.

Definition load_array (p : loc) : M (list string) :=
  fun σ => match arrays σ !! p with
           | Some v => Some (v, σ)
           | None => None
           end.

(** Assignments through a pointer, as a caller of the package may write
    them: [*p = v], [p.Segments = ...] or [p.Segments[i] = ...], and
    [s[i] = x] on a slice. *)
Definition store_response (p : loc) (v : TranscriptResponse) : M unit :=
  fun σ => match responses σ !! p with
           | Some _ =>
               Some (tt, {| responses := <[p := v]> (responses σ);
                            transcripts := transcripts σ; arrays := arrays σ;
                            next := next σ; cache := cache σ;
                            now := now σ; trace := trace σ |})
           | None => None
           end.

Definition store_transcript (p : loc) (v : Transcript) : M unit :=
  fun σ => match transcripts σ !! p with
           | Some _ =>
               Some (tt, {| responses := responses σ;
                            transcripts := <[p := v]> (transcripts σ);
                            arrays := arrays σ;
                            next := next σ; cache := cache σ;
                            now := now σ; trace := trace σ |})
           | None => None
           end.

Definition store_array (p : loc) (v : list string) : M unit :=
  fun σ => match arrays σ !! p with
           | Some _ =>
               Some (tt, {| responses := responses σ; transcripts := transcripts σ;
                            arrays := <[p := v]> (arrays σ);
                            next := next σ; cache := cache σ;
                            now := now σ; trace := trace σ |})
           | None => None
           end.

Definition cache_lookup (videoID : string) : M (option (option loc)) :=
  fun σ => Some (cache σ !! videoID, σ).

Definition cache_store (videoID : string) (p : option loc) : M unit :=
  fun σ => Some (tt, {| responses := responses σ; transcripts := transcripts σ;
                        arrays := arrays σ; next := next σ;
                        cache := <[videoID := p]> (cache σ);
                        now := now σ; trace := trace σ |}).

Definition cache_reset : M unit :=
  fun σ => Some (tt, {| responses := responses σ; transcripts := transcripts σ;
                        arrays := arrays σ; next := next σ; cache := ∅;
                        now := now σ; trace := trace σ |}).

(** ** package youtube: the methods of [*Client] and the helpers *)

Module Client.
Section Client.
Context `{GoLib}.
Variable W : World.

(** [strconv.ParseFloat(field, 64)] with its error. *)
Definition parse_field (field : string) : result float64 :=
  match ParseFloat field with
  | Some v => Ok v
  | None => Err (ErrNum "ParseFloat" field)
  end.

(** [parseTime]: seconds with a trailing ["s"], or [H:MM:SS].  The sum is
    rounded after each operation, as on amd64 (no fused multiply-add). *)
Definition parseTime (timeStr : string) : result float64 :=
  if strings.HasSuffix timeStr "s" then
    parse_field (strings.TrimSuffix timeStr "s")
  else
    match strings.Split timeStr ":" with
    | [p0; p1; p2] =>
        match parse_field p0 with
        | Err e => Err e
        | Ok hours =>
            match parse_field p1 with
            | Err e => Err e
            | Ok minutes =>
                match parse_field p2 with
                | Err e => Err e
                | Ok seconds => Ok (hours * 3600 + minutes * 60 + seconds)%float
                end
            end
        end
    | _ => Err (ErrInvalidTimeFormat timeStr)
    end.

(** One iteration of the loop of [parseTTMLTranscript]; [continue] leaves
    [segments] as it is. *)
Definition paragraph_step (segments : list TranscriptSegment) (p : ttmlParagraph)
  : list TranscriptSegment :=
  match parseTime (Begin p) with
  | Err _ => segments
  | Ok startTime =>
      match parseTime (End_ p) with
      | Err _ => segments
      | Ok endTime =>
          let segment := {| Text := TrimSpace (PText p);
                            StartTime := startTime;
                            Duration := (endTime - startTime)%float |} in
          if negb (String.eqb (Text segment) "") then segments ++ [segment]
          else segments
      end
  end.

Definition parseTTMLTranscript (body : string) : result (list TranscriptSegment) :=
  match xml_Decode body with
  | None => Err (ErrWrap (ErrDecode "xml") "failed to decode TTML XML")
  | Some ttml => Ok (fold_left paragraph_step (Paragraphs ttml) [])
  end.

(** The three local variables of [formatTimeText]. *)
Definition hours_of (startTime : float64) : Z :=
  float_to_int (startTime / 3600)%float.

Definition minutes_of (startTime : float64) : Z :=
  let hours := hours_of startTime in
  float_to_int ((startTime - int_to_float (int_mul hours 3600)) / 60)%float.

Definition seconds_of (startTime : float64) : Z :=
  let hours := hours_of startTime in
  let minutes := minutes_of startTime in
  float_to_int (startTime
                - int_to_float (int_add (int_mul hours 3600) (int_mul minutes 60)))%float.

Definition formatTimeText (startTime : float64) (text : string) : string :=
  let hours := hours_of startTime in
  let minutes := minutes_of startTime in
  let seconds := seconds_of startTime in
  if 0 <? hours then
    fmt.Sprintf "(%02d:%02d:%02d) %s" [fmt.I hours; fmt.I minutes; fmt.I seconds; fmt.S text]
  else
    fmt.Sprintf "(%02d:%02d) %s" [fmt.I minutes; fmt.I seconds; fmt.S text].

(** The loop variables of [FormatTranscript]. *)
Record grouping : Type := {
  formatted : list string;
  currentStart : float64;
  groupText : string;          (* the strings.Builder *)
}.

Definition group_step (intervalSeconds : float64) (g : grouping)
    (segment : TranscriptSegment) : grouping :=
  let g :=
    if (intervalSeconds <=? StartTime segment - currentStart g)%float
       && (0 <? String.length (groupText g))%nat
    then {| formatted := formatted g ++ [formatTimeText (currentStart g) (groupText g)];
            currentStart := StartTime segment;
            groupText := "" |}
    else g in
  let text := if (0 <? String.length (groupText g))%nat
              then groupText g +:+ " " else groupText g in
  {| formatted := formatted g;
     currentStart := currentStart g;
     groupText := text +:+ Text segment |}.

(** The flush after the loop: [if groupText.Len() > 0 { ... }]. *)
Definition finish (g : grouping) : list string :=
  if (0 <? String.length (groupText g))%nat
  then formatted g ++ [formatTimeText (currentStart g) (groupText g)]
  else formatted g.

(** [FormatTranscript]; the pointer argument is given by the value it
    points to ([None] for nil).  The nil slice and the empty list are the
    same result; the error is always nil. *)
Definition FormatTranscript (transcript : option Transcript)
    (intervalSeconds : float64) : list string * option error :=
  match transcript with
  | None => ([], None)
  | Some t =>
      match Segments t with
      | [] => ([], None)
      | first :: _ =>
          let g := fold_left (group_step intervalSeconds) (Segments t)
                     {| formatted := []; currentStart := StartTime first;
                        groupText := "" |} in
          (finish g, None)
      end
  end.

(** The selection loop of [GetTranscript]: [captionURL] after the [for]. *)
Fixpoint english_url (captionTracks : list CaptionTrack) : string :=
  match captionTracks with
  | [] => ""
  | track :: rest =>
      if strings.HasPrefix (VssID track) ".en" || String.eqb (LanguageCode track) "en"
      then BaseURL track
      else english_url rest
  end.

(** [captionURL] after the fallback [if captionURL == ""]; the caller has
    checked that the list is not empty. *)
Definition select_caption_url (captionTracks : list CaptionTrack) : string :=
  let captionURL := english_url captionTracks in
  if String.eqb captionURL "" then
    match captionTracks with
    | first :: _ => BaseURL first
    | [] => ""
    end
  else captionURL.

(** Stage 1.  The request is bound to the context: when the context is
    done the round trip fails. *)
Definition getPlayerResponse (videoID : string) : M (result playerResponse) :=
  let* _ := log (EvPost videoID) in
  let* t := clock in
  let* _ := tick in
  if ctx_done W t then ret (Err (ErrWrap ErrContext "failed to perform request"))
  else
    match player W t videoID with
    | NetFail msg => ret (Err (ErrWrap (ErrTransport msg) "failed to perform request"))
    | Reply status body =>
        if negb (status =? 200) then ret (Err (ErrStatusCode status))
        else
          match body with
          | None => ret (Err (ErrWrap (ErrDecode "json") "failed to decode player response"))
          | Some playerResp => ret (Ok playerResp)
          end
    end.

(** [GetTranscript]: stage 1, track selection, stage 2 ([httpClient.Get],
    which takes no context), parsing.  The result points to a fresh
    [TranscriptResponse] whose [Raw] points to a fresh [Transcript]. *)
Definition GetTranscript (videoID : string) : M (result loc) :=
  let* r := getPlayerResponse videoID in
  match r with
  | Err e => ret (Err (ErrWrap e "failed to get player response"))
  | Ok playerResp =>
      let title := VideoDetails_Title playerResp in
      let captionTracks := CaptionTracks playerResp in
      if (List.length captionTracks =? 0)%nat then
        ret (Err (ErrNew "no caption tracks available"))
      else
        let captionURL := select_caption_url captionTracks in
        let ttmlURL := fmt.Sprintf "%s&fmt=ttml" [fmt.S captionURL] in
        let* _ := log (EvGet ttmlURL) in
        let* t := clock in
        let* _ := tick in
        match fetch W t ttmlURL with
        | NetFail msg => ret (Err (ErrWrap (ErrTransport msg) "failed to fetch transcript"))
        | Reply status body =>
            if negb (status =? 200) then ret (Err (ErrStatusCode status))
            else
              match body with
              | None => ret (Err (ErrWrap (ErrTransport "read") "failed to read TTML response"))
              | Some bodyBytes =>
                  match parseTTMLTranscript bodyBytes with
                  | Err e => ret (Err (ErrWrap e "failed to parse TTML transcript"))
                  | Ok segments =>
                      let* raw := new_transcript {| Segments := segments |} in
                      let* resp := new_response {| Title := title; Raw := Some raw;
                                                   Formatted := nil_slice |} in
                      ret (Ok resp)
                  end
              end
        end
  end.

(** [GetFormattedTranscript]: the response of [GetTranscript] with its
    [Formatted] field set to the groups of its own segments.  The interval
    is passed on as it is. *)
Definition GetFormattedTranscript (videoID : string) (intervalSeconds : float64)
  : M (result loc) :=
  let* r := GetTranscript videoID in
  match r with
  | Err err => ret (Err err)
  | Ok transcriptResp =>
      let* resp := load_response transcriptResp in
      let* raw := match Raw resp with
                  | None => ret None
                  | Some p => let* t := load_transcript p in ret (Some t)
                  end in
      match FormatTranscript raw intervalSeconds with
      | (_, Some err) => ret (Err err)
      | (groups, None) =>
          let* slice := match groups with
                        | [] => ret nil_slice
                        | _ => let* a := new_array groups in
                               ret {| sl_array := Some a; sl_len := List.length groups |}
                        end in
          let* _ := store_response transcriptResp
                      {| Title := Title resp; Raw := Raw resp; Formatted := slice |} in
          ret (Ok transcriptResp)
      end
  end.

End Client.
End Client.

(** ** package repository: MemoryRepository

    The read/write lock has no counterpart here: a run of the model is one
    goroutine. *)

Module repository.
Section MemoryRepository.
Variable W : World.

(** [select { case <-ctx.Done(): ... default: ... }] *)
Definition ctx_is_done : M bool :=
  let* t := clock in ret (ctx_done W t).

Definition Get (videoID : string) : M (result loc) :=
  let* _ := log (EvCacheGet videoID) in
  if String.eqb videoID "" then ret (Err (ErrNew "video ID cannot be empty"))
  else
    let* done := ctx_is_done in
    if done then ret (Err ErrContext)
    else
      let* entry := cache_lookup videoID in
      match entry with
      | None => ret (Err ErrTranscriptNotFound)
      | Some None => ret (Err ErrInvalidTranscript)
      | Some (Some transcript) =>
          (* transcriptCopy := *transcript; return &transcriptCopy *)
          let* v := load_response transcript in
          let* transcriptCopy := new_response v in
          ret (Ok transcriptCopy)
      end.

Definition Save (videoID : string) (transcript : option loc) : M (option error) :=
  let* _ := log (EvCacheSave videoID) in
  if String.eqb videoID "" then ret (Some (ErrNew "video ID cannot be empty"))
  else
    match transcript with
    | None => ret (Some ErrInvalidTranscript)
    | Some p =>
        let* done := ctx_is_done in
        if done then ret (Some ErrContext)
        else
          (* transcriptCopy := *transcript; r.cache[videoID] = &transcriptCopy *)
          let* v := load_response p in
          let* transcriptCopy := new_response v in
          let* _ := cache_store videoID (Some transcriptCopy) in
          ret None
    end.

Definition Clear : M (option error) :=
  let* done := ctx_is_done in
  if done then ret (Some ErrContext)
  else let* _ := cache_reset in ret None.

Definition Size : M nat :=
  fun σ => Some (size (cache σ), σ).

End MemoryRepository.
End repository.

(** ** package service *)

Module service.

Record TranscriptRequest : Type := {
  VideoURL : string;
  VideoID : string;
  IntervalSeconds : float64;
}.

(** [service.TranscriptResponse], returned by value; [Formatted] is the
    slice built by [FormatTranscript] (nil is the empty list). *)
Record TranscriptResponse : Type := {
  Title : string;
  Raw : option loc;
  Formatted : list string;
}.

(** *** ExtractVideoId: the pattern
    [(?:\/|%3D|v=|vi=)([a-zA-Z0-9_-]{11})(?:[%#?&\/]|$)] *)

Inductive regex : Type :=
  | Lit (s : string)                 (* a literal string *)
  | Class (member : ascii -> bool)   (* a character class *)
  | Alt (r1 r2 : regex)              (* r1|r2, r1 preferred *)
  | Seq (r1 r2 : regex)              (* r1 r2 *)
  | Rep (n : nat) (r : regex)        (* r{n} *)
  | Group (r : regex)                (* the capturing group (r) *)
  | EndText.                         (* $ *)

(** Backtracking matcher: [matches r s cap k] matches [r] at the head of
    [s] and hands the rest of the input and the capture to [k]; the first
    success in preference order is the result, as in leftmost-first
    matching. *)
Fixpoint strip (lit s : string) : option string :=
  match lit with
  | EmptyString => Some s
  | String a lit' =>
      match s with
      | EmptyString => None
      | String c s' => if Ascii.eqb c a then strip lit' s' else None
      end
  end.

Fixpoint matches {R : Type} (r : regex) (s : string) (cap : option string)
    (k : string -> option string -> option R) : option R :=
  match r with
  | Lit lit =>
      match strip lit s with
      | Some rest => k rest cap
      | None => None
      end
  | Class member =>
      match s with
      | String c rest => if member c then k rest cap else None
      | EmptyString => None
      end
  | Alt r1 r2 =>
      match matches r1 s cap k with
      | Some res => Some res
      | None => matches r2 s cap k
      end
  | Seq r1 r2 => matches r1 s cap (fun rest cap' => matches r2 rest cap' k)
  | Rep n r1 =>
      (fix rep (n : nat) (s : string) (cap : option string)
           (k : string -> option string -> option R) : option R :=
         match n with
         | O => k s cap
         | Datatypes.S n' => matches r1 s cap (fun rest cap' => rep n' rest cap' k)
         end) n s cap k
  | Group r1 =>
      matches r1 s cap
        (fun rest _ =>
           k rest (Some (substring 0 (String.length s - String.length rest) s)))
  | EndText =>
      match s with
      | EmptyString => k s cap
      | String _ _ => None
      end
  end.

(** [regex.FindStringSubmatch(str)], reduced to the text of group 1:
    the match starting leftmost wins.  [None] when there is no match,
    [Some None] when the match does not set the group. *)
Fixpoint FindStringSubmatch (r : regex) (str : string) : option (option string) :=
  match matches r str None (fun _ cap => Some cap) with
  | Some cap => Some cap
  | None =>
      match str with
      | EmptyString => None
      | String _ rest => FindStringSubmatch r rest
      end
  end.

Definition in_range (lo hi c : ascii) : bool :=
  ((nat_of_ascii lo <=? nat_of_ascii c) && (nat_of_ascii c <=? nat_of_ascii hi))%nat.

(** [[a-zA-Z0-9_-]] *)
Definition id_byte (c : ascii) : bool :=
  in_range "a" "z" c || in_range "A" "Z" c || in_range "0" "9" c
  || Ascii.eqb c "_" || Ascii.eqb c "-".

(** [[%#?&\/]] *)
Definition stop_byte (c : ascii) : bool :=
  Ascii.eqb c "%" || Ascii.eqb c "#" || Ascii.eqb c "?" || Ascii.eqb c "&"
  || Ascii.eqb c "/".

Definition pattern : regex :=
  Seq (Alt (Lit "/") (Alt (Lit "%3D") (Alt (Lit "v=") (Lit "vi="))))
      (Seq (Group (Rep 11 (Class id_byte)))
           (Alt (Class stop_byte) EndText)).

Definition ExtractVideoId (str : string) : string :=
  if (String.length str =? 11)%nat then str
  else
    match FindStringSubmatch pattern str with
    | Some (Some id) => id          (* len(matches) > 1: matches[1] *)
    | _ => ""
    end.

Definition validDomains : list string :=
  ["youtube.com"; "youtu.be"; "m.youtube.com"].

Section Transcript.
Context `{GoLib}.
Variable W : World.

Definition IsValidUrl (urlStr : string) : bool :=
  match url_Parse urlStr with
  | None => false
  | Some parsedURL =>
      let host := strings.ToLower (Host parsedURL) in
      let host := strings.TrimPrefix host "www." in
      existsb (fun domain => String.eqb host domain) validDomains
  end.

(** The cache-miss branch of [GetTranscripts]: fetch, validate, cache. *)
Definition fetch_and_cache (videoID : string) : M (result loc) :=
  let* r := Client.GetTranscript W videoID in
  match r with
  | Err err => ret (Err (ErrorfW ErrFailedToGet err))
  | Ok youtubeResp =>
      let* resp := load_response youtubeResp in
      match youtube.Raw resp with
      | None => ret (Err ErrNoTranscript)
      | Some raw =>
          let* t := load_transcript raw in
          if (List.length (Segments t) =? 0)%nat then ret (Err ErrNoTranscript)
          else
            (* the error of Save is logged and otherwise ignored *)
            let* _ := repository.Save W videoID (Some youtubeResp) in
            ret (Ok youtubeResp)
      end
  end.

Definition GetTranscripts (req : TranscriptRequest) : M (result TranscriptResponse) :=
  let interval := if (IntervalSeconds req <=? 0)%float then 10%float
                  else IntervalSeconds req in
  if String.eqb (VideoURL req) "" || negb (IsValidUrl (VideoURL req)) then
    ret (Err ErrInvalidURL)
  else
    let videoID := if String.eqb (VideoID req) "" then ExtractVideoId (VideoURL req)
                   else VideoID req in
    if String.eqb videoID "" then ret (Err ErrInvalidURL)
    else
      let* cached := repository.Get W videoID in
      let* got := match cached with
                  | Ok youtubeResp => ret (Ok youtubeResp)
                  | Err _ => fetch_and_cache videoID
                  end in
      match got with
      | Err err => ret (Err err)
      | Ok youtubeResp =>
          let* yr := load_response youtubeResp in
          let* raw := match youtube.Raw yr with
                      | None => ret None
                      | Some p => let* t := load_transcript p in ret (Some t)
                      end in
          match Client.FormatTranscript raw interval with
          | (_, Some err) => ret (Err (ErrorfW ErrFailedToFormat err))
          | (formatted, None) =>
              ret (Ok {| Title := youtube.Title yr; Raw := youtube.Raw yr;
                         Formatted := formatted |})
          end
      end.

End Transcript.
End service.

(** ** package router *)

Module router.

(** The parts of [*http.Request] that the handler reads; a query
    parameter that is absent reads as [""]. *)
Record Request : Type := {
  Method : string;
  videoUrl : string;
  interval : string;
}.

(** What [json.Encoder.Encode] writes. *)
Inductive body : Type :=
  | ErrorResponse (Error Message : string)
  | Transcript (title : string) (raw : option (list TranscriptSegment))
               (formatted : list string).

(** [http.ResponseWriter]: the status line is fixed by the first
    [WriteHeader]. *)
Record ResponseWriter : Type := {
  status : option Z;
  written : list body;
}.

Definition fresh_writer : ResponseWriter := {| status := None; written := [] |}.

Definition WriteHeader (statusCode : Z) (w : ResponseWriter) : ResponseWriter :=
  match status w with
  | Some _ => w
  | None => {| status := Some statusCode; written := written w |}
  end.

Definition Write (b : body) (w : ResponseWriter) : ResponseWriter :=
  {| status := match status w with Some c => Some c | None => Some 200 end;
     written := written w ++ [b] |}.

Definition StatusText (code : Z) : string :=
  if code =? 400 then "Bad Request"
  else if code =? 404 then "Not Found"
  else if code =? 405 then "Method Not Allowed"
  else if code =? 500 then "Internal Server Error"
  else "".

Definition writeJSONError (w : ResponseWriter) (errMsg : string) (statusCode : Z)
  : ResponseWriter :=
  Write (ErrorResponse (StatusText statusCode) errMsg) (WriteHeader statusCode w).

(** encoding/json refuses NaN and the infinities. *)
Definition encodable (segments : list TranscriptSegment) : bool :=
  forallb (fun seg => is_finite (StartTime seg) && is_finite (Duration seg)) segments.

Section Router.
Context `{GoLib}.
Variable W : World.

(** [svcReq]: the interval is 0 when the parameter does not parse. *)
Definition service_request (req : Request) : service.TranscriptRequest :=
  let interval := match ParseFloat (interval req) with
                  | Some v => v
                  | None => 0%float
                  end in
  {| service.VideoURL := videoUrl req; service.VideoID := "";
     service.IntervalSeconds := interval |}.

Definition handleGetTranscripts (w : ResponseWriter) (req : Request) : M ResponseWriter :=
  if negb (String.eqb (Method req) "GET") then
    ret (writeJSONError w "Method not allowed" 405)
  else
    let videoURL := videoUrl req in
    if String.eqb videoURL "" then
      ret (writeJSONError w "Missing videoUrl parameter" 400)
    else
      let svcReq := service_request req in
      let* r := service.GetTranscripts W svcReq in
      match r with
      | Err ErrInvalidURL => ret (writeJSONError w "Invalid YouTube video URL" 400)
      | Err _ => ret (writeJSONError w "Internal server error" 500)
      | Ok resp =>
          match service.Raw resp, service.Formatted resp with
          | None, [] => ret (writeJSONError w "No transcript available" 404)
          | raw, formatted =>
              let w := WriteHeader 200 w in
              let* segments := match raw with
                               | None => ret None
                               | Some p => let* t := load_transcript p in
                                           ret (Some (Segments t))
                               end in
              if encodable (default [] segments) then
                ret (Write (Transcript (service.Title resp) segments formatted) w)
              else
                ret (writeJSONError w "Failed to encode response" 500)
          end
      end.

End Router.
End router.

(** ** A concrete library for running the model

    The general theorems below hold for every [GoLib].  This instance is
    used to run examples.  It agrees with the Go functions on plain ASCII
    inputs: decimal literals without exponent whose digits fit 53 bits,
    text whose white space is ASCII, timed-text documents in one fixed
    layout, URLs without user information, port or escapes.  On other
    inputs [ParseFloat], [xml_Decode] and [url_Parse] answer [None]. *)

Module plain.

Fixpoint digits (s : string) (acc : Z) : option Z :=
  match s with
  | EmptyString => Some acc
  | String c rest =>
      if fmt.is_digit c then digits rest (10 * acc + Z.of_nat (fmt.digit_val c))
      else None
  end.

(** [[+-]digits[.digits]] with at least one digit; the literal is
    converted exactly when its digits fit 53 bits, by one correctly
    rounded division. *)
Definition unsigned_float (s : string) : option float64 :=
  match strings.Split s "." with
  | [ip] =>
      match digits ip 0 with
      | Some m => if (ip =? "")%string || (2 ^ 53 <=? m) then None
                  else Some (int_to_float m)
      | None => None
      end
  | [ip; fp] =>
      match digits (ip +:+ fp) 0 with
      | Some m =>
          if ((ip +:+ fp) =? "")%string || (2 ^ 53 <=? m)
             || (22 <? String.length fp)%nat
          then None
          else Some (int_to_float m / int_to_float (10 ^ Z.of_nat (String.length fp)))%float
      | None => None
      end
  | _ => None
  end.

Definition ParseFloat (s : string) : option float64 :=
  match s with
  | String "-" rest => option_map PrimFloat.opp (unsigned_float rest)
  | String "+" rest => unsigned_float rest
  | _ => unsigned_float s
  end.

Definition is_space (c : ascii) : bool :=
  let n := nat_of_ascii c in ((9 <=? n) && (n <=? 13) || (n =? 32))%nat.

Fixpoint trim_left (s : string) : string :=
  match s with
  | String c rest => if is_space c then trim_left rest else s
  | EmptyString => EmptyString
  end.

Fixpoint trim_right (s : string) : string :=
  match s with
  | EmptyString => EmptyString
  | String c rest =>
      match trim_right rest with
      | EmptyString => if is_space c then EmptyString else String c EmptyString
      | rest' => String c rest'
      end
  end.

Definition TrimSpace (s : string) : string := trim_right (trim_left s).

(** [cut c s]: the text before the first [c] and the text after it. *)
Fixpoint cut (c : ascii) (s : string) : option (string * string) :=
  match s with
  | EmptyString => None
  | String a rest =>
      if Ascii.eqb a c then Some (EmptyString, rest)
      else match cut c rest with
           | Some (before, after) => Some (String a before, after)
           | None => None
           end
  end.

(** Paragraphs in the layout [<p begin='B' end='E'>text</p>], up to the
    closing tags. *)
Fixpoint paragraphs (fuel : nat) (s : string) : option (list ttmlParagraph) :=
  match fuel with
  | O => None
  | Datatypes.S fuel' =>
      match service.strip "</div></body></tt>" s with
      | Some EmptyString => Some []
      | Some _ => None
      | None =>
          match service.strip "<p begin='" s with
          | None => None
          | Some s1 =>
              match cut "'" s1 with
              | None => None
              | Some (b, s2) =>
                  match service.strip " end='" s2 with
                  | None => None
                  | Some s3 =>
                      match cut "'" s3 with
                      | None => None
                      | Some (e, s4) =>
                          match service.strip ">" s4 with
                          | None => None
                          | Some s5 =>
                              match cut "<" s5 with
                              | None => None
                              | Some (text, s6) =>
                                  match service.strip "/p>" s6 with
                                  | None => None
                                  | Some s7 =>
                                      match paragraphs fuel' s7 with
                                      | None => None
                                      | Some ps =>
                                          Some ({| Begin := b; End_ := e; PText := text |} :: ps)
                                      end
                                  end
                              end
                          end
                      end
                  end
              end
          end
      end
  end.

Definition xml_Decode (doc : string) : option ttmlTranscript :=
  match service.strip "<tt><body><div>" doc with
  | None => None
  | Some rest =>
      match paragraphs (Datatypes.S (String.length rest)) rest with
      | Some ps => Some {| Paragraphs := ps |}
      | None => None
      end
  end.

Definition before (c : ascii) (s : string) : string :=
  match cut c s with
  | Some (b, _) => b
  | None => s
  end.

Definition is_alpha (c : ascii) : bool :=
  service.in_range "a" "z" c || service.in_range "A" "Z" c.

Fixpoint no_colon (s : string) : bool :=
  match s with
  | EmptyString => true
  | String c rest => negb (Ascii.eqb c ":") && no_colon rest
  end.

(** [getScheme]: the scheme and what follows its colon.  [None] is the
    error "missing protocol scheme", [Some None] is "no scheme". *)
Fixpoint scheme_from (first : bool) (s : string) : option (option (string * string)) :=
  match s with
  | EmptyString => Some None
  | String c rest =>
      if is_alpha c
         || (negb first
             && (fmt.is_digit c || Ascii.eqb c "+" || Ascii.eqb c "-" || Ascii.eqb c "."))
      then
        match scheme_from false rest with
        | Some (Some (scheme, path)) => Some (Some (String c scheme, path))
        | other => other
        end
      else if Ascii.eqb c ":" then
        if first then None else Some (Some (EmptyString, rest))
      else Some None
  end.

Definition getScheme (rawURL : string) : option (string * string) :=
  match scheme_from true rawURL with
  | None => None
  | Some None => Some (EmptyString, rawURL)
  | Some (Some (scheme, path)) => Some (scheme, path)
  end.

(** Bytes of a host name that needs no further parsing. *)
Definition host_byte (c : ascii) : bool :=
  is_alpha c || fmt.is_digit c || Ascii.eqb c "-" || Ascii.eqb c ".".

Definition is_ctl (c : ascii) : bool :=
  let n := nat_of_ascii c in ((n <? 32) || (n =? 127))%nat.

(** [url.Parse] on strings without control bytes and without [%]: the
    fragment and the query are cut off, the scheme is split off, and an
    authority exists only when the rest starts with [//].  The authority
    is taken as host when it is made of letters, digits, [-] and [.];
    user information, ports, brackets and escapes are not covered
    ([None]). *)
Definition url_Parse (rawURL : string) : option URL :=
  if existsb (fun c => is_ctl c || Ascii.eqb c "%") (list_ascii_of_string rawURL)
  then None
  else
    let u := before "#" rawURL in
    match getScheme u with
    | None => None
    | Some (scheme, rest) =>
        let rest := before "?" rest in
        if negb (strings.HasPrefix rest "/") then
          if negb (String.eqb scheme "") then Some {| Host := "" |}
          else if no_colon (before "/" rest) then Some {| Host := "" |}
          else None
        else if (negb (String.eqb scheme "") || negb (strings.HasPrefix rest "///"))
                && strings.HasPrefix rest "//" then
          let authority := before "/" (substring 2 (String.length rest - 2) rest) in
          if forallb host_byte (list_ascii_of_string authority)
          then Some {| Host := authority |}
          else None
        else Some {| Host := "" |}
    end.

Definition lib : GoLib :=
  Build_GoLib ParseFloat TrimSpace xml_Decode url_Parse.

End plain.

(** ** The specification's reading of the components

    Definitions written after the words of the specification, to be
    compared with the functions above. *)

Module reference.

(** [s] has no byte [c]. *)
Fixpoint no_byte (c : ascii) (s : string) : bool :=
  match s with
  | EmptyString => true
  | String a rest => negb (Ascii.eqb a c) && no_byte c rest
  end.

(** A digit. *)
Definition digit (n : Z) : ascii := ascii_of_nat (48 + Z.to_nat n).

(** A field of exactly two decimal digits. *)
Definition two_digits (n : Z) : string :=
  String (digit (n / 10)) (String (digit (n mod 10)) EmptyString).

(** The outputs that have the shape [(HH:MM:SS) ] or [(MM:SS) ] with
    two-digit fields. *)
Definition is_field (a b : ascii) : bool := fmt.is_digit a && fmt.is_digit b.

Definition is_HH_MM_SS (s : string) : bool :=
  match s with
  | String "(" (String h1 (String h2 (String ":" (String m1 (String m2
      (String ":" (String s1 (String s2 (String ")" (String " " EmptyString)))))))))) =>
      is_field h1 h2 && is_field m1 m2 && is_field s1 s2
  | _ => false
  end.

Definition is_MM_SS (s : string) : bool :=
  match s with
  | String "(" (String m1 (String m2 (String ":" (String s1 (String s2
      (String ")" (String " " EmptyString))))))) =>
      is_field m1 m2 && is_field s1 s2
  | _ => false
  end.

(** Track selection: the first English track, otherwise the first track. *)
Definition is_english (track : CaptionTrack) : bool :=
  strings.HasPrefix (VssID track) ".en" || String.eqb (LanguageCode track) "en".

Definition selectTrack (tracks : list CaptionTrack) : option CaptionTrack :=
  match List.find is_english tracks with
  | Some track => Some track
  | None => List.head tracks
  end.

(** The markers that may precede a video identifier. *)
Definition markers : list string := ["/"; "%3D"; "v="; "vi="].

(** The alphabet of an identifier: alphanumerics, hyphen and underscore;
    and what may follow an identifier: one of [% # ? & /]. *)
Definition id_chars : string :=
  "abcdefghijklmnopqrstuvwxyzABCDEFGHIJKLMNOPQRSTUVWXYZ0123456789-_".

Definition is_id_char (c : ascii) : bool :=
  existsb (Ascii.eqb c) (list_ascii_of_string id_chars).

Definition stop_chars : string := "%#?&/".

Definition is_stop_char (c : ascii) : bool :=
  existsb (Ascii.eqb c) (list_ascii_of_string stop_chars).


(** A marker, a token and what must follow it, at the head of [s]. *)
Definition head_token (s id : string) : Prop :=
  exists marker rest,
    s = marker +:+ id +:+ rest
    /\ In marker markers
    /\ String.length id = 11%nat
    /\ forallb is_id_char (list_ascii_of_string id) = true
    /\ (rest = EmptyString
        \/ exists c rest', rest = String c rest' /\ is_stop_char c = true).




(** The pattern after its marker, and the continuation that returns
    group 1. *)
Definition id_then_stop : service.regex :=
  service.Seq (service.Group (service.Rep 11 (service.Class service.id_byte)))
              (service.Alt (service.Class service.stop_byte) service.EndText).

Definition group1 (_ : string) (cap : option string) : option (option string) := Some cap.

(** A bare video identifier. *)
Definition is_video_id (s : string) : bool :=
  (String.length s =? 11)%nat && forallb service.id_byte (list_ascii_of_string s).

(** The statuses that the HTTP boundary of the specification names. *)
Definition named_statuses : list Z := [200; 400; 404; 500].

Section Reference.
Context `{GoLib}.

(** The segment of a paragraph: both attributes parse and the trimmed text
    is not empty. *)
Definition segment_of (p : ttmlParagraph) : option TranscriptSegment :=
  match Client.parseTime (Begin p), Client.parseTime (End_ p) with
  | Ok b, Ok e =>
      let text := TrimSpace (PText p) in
      if String.eqb text "" then None
      else Some {| Text := text; StartTime := b; Duration := (e - b)%float |}
  | _, _ => None
  end.

Definition parse (paragraphs : list ttmlParagraph) : list TranscriptSegment :=
  omap segment_of paragraphs.

(** What [url.Parse] is known to do on a string without [/]: there is no
    authority part, so the host of the result is empty. *)
Definition authority_needs_slash : Prop :=
  forall s u, no_byte "/" s = true -> url_Parse s = Some u -> Host u = EmptyString.

End Reference.

(** The grouper: the pending group is its anchor and the texts appended so
    far; a flush formats the anchor and joins the texts with single
    spaces. *)
Definition flush (anchor : float64) (pending : list string) : string :=
  Client.formatTimeText anchor (String.concat " " pending).

Fixpoint group (intervalSeconds anchor : float64) (pending : list string)
    (segments : list TranscriptSegment) : list string :=
  match segments with
  | [] =>
      match pending with
      | [] => []
      | _ => [flush anchor pending]
      end
  | segment :: rest =>
      match pending with
      | _ :: _ =>
          if (intervalSeconds <=? StartTime segment - anchor)%float
          then flush anchor pending
                 :: group intervalSeconds (StartTime segment) [Text segment] rest
          else group intervalSeconds anchor (pending ++ [Text segment]) rest
      | [] => group intervalSeconds anchor [Text segment] rest
      end
  end.

Definition grouper (segments : list TranscriptSegment) (intervalSeconds : float64)
  : list string :=
  match segments with
  | [] => []
  | first :: _ => group intervalSeconds (StartTime first) [] segments
  end.

End reference.

(** ** package middleware: the CORS wrapper *)

Module middleware.

(** The response as the middleware sees it: the header map and the writer
    of the handler. *)
Record Response : Type := {
  header : gmap string string;
  rw : router.ResponseWriter;
}.

Definition fresh_response : Response :=
  {| header := ∅; rw := router.fresh_writer |}.

(** [w.Header().Set(key, value)] *)
Definition Header_Set (key value : string) (w : Response) : Response :=
  {| header := <[key := value]> (header w); rw := rw w |}.

(** [w.WriteHeader(statusCode)] *)
Definition WriteHeader (statusCode : Z) (w : Response) : Response :=
  {| header := header w; rw := router.WriteHeader statusCode (rw w) |}.

(** An [http.Handler]. *)
Definition Handler : Type := Response -> router.Request -> M Response.

Section Middleware.
(** [os.Getenv] *)
Variable Getenv : string -> string.

Definition cors (next : Handler) : Handler :=
  fun w r =>
    let w := if String.eqb (Getenv "DISABLE_CORS") "true" then
               Header_Set "Access-Control-Allow-Headers" "Content-Type"
                 (Header_Set "Access-Control-Allow-Methods" "GET, POST, OPTIONS"
                    (Header_Set "Access-Control-Allow-Origin" "*" w))
             else w in
    if String.eqb (router.Method r) "OPTIONS" then ret (WriteHeader 200 w)
    else next w r.

End Middleware.

(** [json.NewEncoder(w).Encode(v)] when it succeeds. *)
Definition Write (b : router.body) (w : Response) : Response :=
  {| header := header w; rw := router.Write b (rw w) |}.

(** [Router.writeJSONError] and [Router.handleGetTranscripts] on the
    response with its header map: the statements of the source, with every
    [w.Header().Set] in its place. *)
Definition writeJSONError (w : Response) (errMsg : string) (statusCode : Z) : Response :=
  let w := Header_Set "Content-Type" "application/json" w in
  let w := WriteHeader statusCode w in
  Write (router.ErrorResponse (router.StatusText statusCode) errMsg) w.

Definition handleGetTranscripts `{GoLib} (W : World) : Handler :=
  fun w req =>
    if negb (String.eqb (router.Method req) "GET") then
      ret (writeJSONError w "Method not allowed" 405)
    else
      let videoURL := router.videoUrl req in
      if String.eqb videoURL "" then
        ret (writeJSONError w "Missing videoUrl parameter" 400)
      else
        let svcReq := router.service_request req in
        let* r := service.GetTranscripts W svcReq in
        match r with
        | Err ErrInvalidURL => ret (writeJSONError w "Invalid YouTube video URL" 400)
        | Err _ => ret (writeJSONError w "Internal server error" 500)
        | Ok resp =>
            match service.Raw resp, service.Formatted resp with
            | None, [] => ret (writeJSONError w "No transcript available" 404)
            | raw, formatted =>
                let w := Header_Set "Content-Type" "application/json" w in
                let w := WriteHeader 200 w in
                let* segments := match raw with
                                 | None => ret None
                                 | Some p => let* t := load_transcript p in
                                             ret (Some (Segments t))
                                 end in
                if router.encodable (default [] segments) then
                  ret (Write (router.Transcript (service.Title resp) segments formatted) w)
                else
                  ret (writeJSONError w "Failed to encode response" 500)
            end
        end.

End middleware.

(** ** The local variables of [GetTranscripts] *)

Module locals.

(** [videoID]: the field of the request, or else the identifier found in
    its URL. *)
Definition videoID (req : service.TranscriptRequest) : string :=
  if String.eqb (service.VideoID req) "" then service.ExtractVideoId (service.VideoURL req)
  else service.VideoID req.

(** [interval]: 10 when the field of the request is not positive. *)
Definition interval (req : service.TranscriptRequest) : float64 :=
  if (service.IntervalSeconds req <=? 0)%float then 10%float
  else service.IntervalSeconds req.

End locals.

(** ** Well-formed states *)

Module wf.

(** Every allocated response lies below the allocation pointer. *)
Definition heap_ok (σ : state) : Prop :=
  forall p v, responses σ !! p = Some v -> (p < next σ)%positive.

(** Every cache entry is a pointer to an allocated response. *)
Definition cache_ok (σ : state) : Prop :=
  forall videoID entry, cache σ !! videoID = Some entry ->
    exists p v, entry = Some p /\ responses σ !! p = Some v.

Definition ok (σ : state) : Prop := heap_ok σ /\ cache_ok σ.

(** Every allocated transcript lies below the allocation pointer. *)
Definition transcripts_ok (σ : state) : Prop :=
  forall p t, transcripts σ !! p = Some t -> (p < next σ)%positive.

(** What the service stores: a pointer to a response whose [Raw] points to
    a transcript with at least one segment and no empty text. *)
Definition entry_ok (σ : state) (entry : option loc) : Prop :=
  exists p v raw t,
    entry = Some p /\ responses σ !! p = Some v /\ Raw v = Some raw
    /\ transcripts σ !! raw = Some t /\ Segments t <> []
    /\ Forall (fun seg => Text seg <> EmptyString) (Segments t).

(** The states that the service leaves behind. *)
Definition served (σ : state) : Prop :=
  heap_ok σ /\ transcripts_ok σ
  /\ forall videoID entry, cache σ !! videoID = Some entry -> entry_ok σ entry.

(** [σ1] has every struct of [σ], unchanged. *)
Definition extends (σ σ1 : state) : Prop :=
  (next σ <= next σ1)%positive
  /\ (forall p v, responses σ !! p = Some v -> responses σ1 !! p = Some v)
  /\ (forall p t, transcripts σ !! p = Some t -> transcripts σ1 !! p = Some t).

End wf.

(** ** A caller of the repository *)

Module caller.

(** What a reader of a response sees through its pointers. *)
Record snapshot : Type := {
  title : string;
  segments : option (list TranscriptSegment);
  formatted : option (list string);
}.

Definition view (p : loc) : M snapshot :=
  let* v := load_response p in
  let* segs := match Raw v with
               | None => ret None
               | Some raw => let* t := load_transcript raw in ret (Some (Segments t))
               end in
  let* strs := match sl_array (Formatted v) with
               | None => ret None
               | Some a => let* xs := load_array a in
                           ret (Some (firstn (sl_len (Formatted v)) xs))
               end in
  ret {| title := Title v; segments := segs; formatted := strs |}.

(** [Save(id, t)], then the caller writes through its own [t]:
    [t.Title = ...], [t.Raw.Segments[0].Text = "changed"] and
    [t.Formatted[0] = "changed"], then [Get(id)].  The result is what [t]
    showed at the time of the save, and what the response returned by
    [Get] shows. *)
Definition put_mutate_get (W : World) (videoID : string)
  : M (snapshot * result snapshot) :=
  let* raw := new_transcript
                {| Segments := [ {| Text := "hello"; StartTime := 0; Duration := 1 |} ] |} in
  let* arr := new_array ["(00:00) hello"] in
  let* t := new_response {| Title := "title"; Raw := Some raw;
                            Formatted := {| sl_array := Some arr; sl_len := 1 |} |} in
  let* saved := view t in
  let* _ := repository.Save W videoID (Some t) in
  let* _ := store_response t {| Title := "changed"; Raw := Some raw;
                                Formatted := {| sl_array := Some arr; sl_len := 1 |} |} in
  let* _ := store_transcript raw
              {| Segments := [ {| Text := "changed"; StartTime := 0; Duration := 1 |} ] |} in
  let* _ := store_array arr ["changed"] in
  let* got := repository.Get W videoID in
  match got with
  | Ok p => let* seen := view p in ret (saved, Ok seen)
  | Err e => ret (saved, Err e)
  end.

End caller.

(** ** Sample inputs *)

Module sample.

(** Three paragraphs; the second has a begin attribute that is not a
    number. *)
Definition doc : string :=
  "<tt><body><div><p begin='00:00:01.000' end='00:00:04.000'> first </p><p begin='x' end='5s'>second</p><p begin='4.5s' end='9s'>third</p></div></body></tt>".

Definition paragraphs : list ttmlParagraph :=
  [ {| Begin := "00:00:01.000"; End_ := "00:00:04.000"; PText := " first " |};
    {| Begin := "x"; End_ := "5s"; PText := "second" |};
    {| Begin := "4.5s"; End_ := "9s"; PText := "third" |} ].

(** Segments that start at 0, 4, 9 and 15 seconds. *)
Definition segments : list TranscriptSegment :=
  [ {| Text := "a"; StartTime := 0; Duration := 4 |};
    {| Text := "b"; StartTime := 4; Duration := 5 |};
    {| Text := "c"; StartTime := 9; Duration := 6 |};
    {| Text := "d"; StartTime := 15; Duration := 2 |} ].

(** A Spanish track followed by an English track whose base URL is
    empty. *)
Definition tracks_empty_english : list CaptionTrack :=
  [ {| BaseURL := "https://c/es"; VssID := ".es"; LanguageCode := "es" |};
    {| BaseURL := ""; VssID := ".en"; LanguageCode := "en" |} ].

Definition es_track : CaptionTrack :=
  {| BaseURL := "https://c/es"; VssID := ".es"; LanguageCode := "es" |}.

Definition en_track : CaptionTrack :=
  {| BaseURL := "https://c/en"; VssID := "a.en"; LanguageCode := "en" |}.

(** A world in which the context is never done and the network is down. *)
Definition quiet : World :=
  {| ctx_done := fun _ => false;
     player := fun _ _ => NetFail "down";
     fetch := fun _ _ => NetFail "down" |}.

Definition provider_reply : http_reply playerResponse :=
  Reply 200 (Some {| VideoDetails_Title := "T"; CaptionTracks := [es_track; en_track] |}).

(** The provider answers; the context is never done. *)
Definition live : World :=
  {| ctx_done := fun _ => false;
     player := fun _ _ => provider_reply;
     fetch := fun _ _ => Reply 200 (Some doc) |}.

(** The provider answers; the context is done from instant 1 on, that is
    after stage 1 (instant 0) and before stage 2. *)
Definition cancelled_after_stage1 : World :=
  {| ctx_done := fun t => (1 <=? t)%nat;
     player := fun _ _ => provider_reply;
     fetch := fun _ _ => Reply 200 (Some doc) |}.

(** The provider answers with a caption document without paragraphs. *)
Definition no_content : World :=
  {| ctx_done := fun _ => false;
     player := fun _ _ => provider_reply;
     fetch := fun _ _ => Reply 200 (Some "<tt><body><div></div></body></tt>") |}.

Definition get_request : router.Request :=
  {| router.Method := "GET"; router.videoUrl := "https://youtu.be/dQw4w9WgXcQ";
     router.interval := "" |}.

Definition post_request : router.Request :=
  {| router.Method := "POST"; router.videoUrl := "https://youtu.be/dQw4w9WgXcQ";
     router.interval := "" |}.



Definition options_request : router.Request :=
  {| router.Method := "OPTIONS"; router.videoUrl := ""; router.interval := "" |}.

(** A response without transcript, and the initial state after its
    allocation. *)
Definition response : TranscriptResponse :=
  {| Title := "T"; Raw := None; Formatted := nil_slice |}.

Definition stored : state :=
  {| responses := {[ 1%positive := response ]}; transcripts := ∅; arrays := ∅;
     next := 2%positive; cache := ∅; now := 0%nat; trace := [] |}.

(** A second response with another title, and the initial state after
    the allocation of both. *)
Definition response2 : TranscriptResponse :=
  {| Title := "U"; Raw := None; Formatted := nil_slice |}.

Definition stored_two : state :=
  {| responses := <[2%positive := response2]> {[ 1%positive := response ]};
     transcripts := ∅; arrays := ∅;
     next := 3%positive; cache := ∅; now := 0%nat; trace := [] |}.

(** The request of the service for [get_request], and the state after the
    service has answered it once from the initial state. *)
Definition request : service.TranscriptRequest :=
  {| service.VideoURL := "https://youtu.be/dQw4w9WgXcQ"; service.VideoID := "";
     service.IntervalSeconds := 0 |}.

Definition warm : state :=
  match @service.GetTranscripts plain.lib live request initial with
  | Some (_, σ) => σ
  | None => initial
  end.

(** The context is done from instant 2 on: after both stages of the
    fetch and before the save. *)
Definition cancelled_before_save : World :=
  {| ctx_done := fun t => (2 <=? t)%nat;
     player := fun _ _ => provider_reply;
     fetch := fun _ _ => Reply 200 (Some doc) |}.

(** [strconv.ParseFloat] also reads the infinities; a library that reads
    ["Inf"], and a provider whose caption document has such a time. *)
Definition ParseFloat (s : string) : option float64 :=
  if String.eqb s "Inf" then Some infinity else plain.ParseFloat s.

Definition lib : GoLib :=
  Build_GoLib ParseFloat plain.TrimSpace plain.xml_Decode plain.url_Parse.

Definition endless : World :=
  {| ctx_done := fun _ => false;
     player := fun _ _ => provider_reply;
     fetch := fun _ _ =>
       Reply 200 (Some "<tt><body><div><p begin='Infs' end='5s'>x</p></div></body></tt>") |}.

(** What the handler answers to [get_request] on the world [live], and
    the same answer behind the CORS wrapper with [DISABLE_CORS=true]. *)
Definition answer : router.ResponseWriter :=
  {| router.status := Some 200;
     router.written :=
       [router.Transcript "T"
          (Some [ {| Text := "first"; StartTime := 1; Duration := 3 |};
                  {| Text := "third"; StartTime := 4.5; Duration := 4.5 |} ])
          ["(00:01) first third"]] |}.

Definition cors_answer : middleware.Response :=
  {| middleware.header :=
       <["Content-Type" := "application/json"]>
         (<["Access-Control-Allow-Headers" := "Content-Type"]>
            (<["Access-Control-Allow-Methods" := "GET, POST, OPTIONS"]>
               (<["Access-Control-Allow-Origin" := "*"]> ∅)));
     middleware.rw := answer |}.

(** The environment of a process started with [DISABLE_CORS=true], and of
    one started without it. *)
Definition env_cors (name : string) : string :=
  if String.eqb name "DISABLE_CORS" then "true" else "".

Definition env_empty (name : string) : string := "".

End sample.

(** * Theorems *)

(** ** Strings *)

Lemma append_nil_r (s : string) : s +:+ EmptyString = s.
Proof. induction s as [|c s IH]; simpl; [reflexivity | now rewrite IH]. Qed.

Lemma append_assoc (a b c : string) : (a +:+ b) +:+ c = a +:+ (b +:+ c).
Proof. induction a as [|x a IH]; simpl; [reflexivity | now rewrite IH]. Qed.

Lemma length_append (a b : string) :
  String.length (a +:+ b) = (String.length a + String.length b)%nat.
Proof. induction a as [|x a IH]; simpl; [reflexivity | now rewrite IH]. Qed.

Lemma substring_tail (r t : string) :
  substring (String.length r) (String.length t) (r +:+ t) = t.
Proof.
  induction r as [|c r IH]; simpl.
  - induction t as [|c t IH]; simpl; [reflexivity | now rewrite IH].
  - exact IH.
Qed.

Lemma substring_head (r t : string) :
  substring 0 (String.length r) (r +:+ t) = r.
Proof.
  induction r as [|c r IH]; simpl.
  - now destruct t.
  - now rewrite IH.
Qed.

Lemma HasSuffix_append (r t : string) : strings.HasSuffix (r +:+ t) t = true.
Proof.
  unfold strings.HasSuffix. rewrite length_append.
  replace (String.length r + String.length t - String.length t)%nat
    with (String.length r) by lia.
  rewrite substring_tail, String.eqb_refl, andb_true_r.
  apply Nat.leb_le. lia.
Qed.

Lemma TrimSuffix_append (r t : string) : strings.TrimSuffix (r +:+ t) t = r.
Proof.
  unfold strings.TrimSuffix. rewrite HasSuffix_append, length_append.
  replace (String.length r + String.length t - String.length t)%nat
    with (String.length r) by lia.
  apply substring_head.
Qed.

(** [Split] and [String.concat] are inverse on fields without separator. *)
Lemma Split_cons (sep : ascii) (s : string) :
  exists field fields, strings.Split s sep = field :: fields.
Proof.
  destruct s as [|c s]; simpl; [eauto|].
  destruct (Ascii.eqb c sep); [eauto|].
  destruct (strings.Split s sep); eauto.
Qed.

Lemma concat_cons (sep x : string) (y : string) (l : list string) :
  String.concat sep (x :: y :: l) = x +:+ sep +:+ String.concat sep (y :: l).
Proof. reflexivity. Qed.

Lemma Split_join (sep : ascii) (s : string) :
  String.concat (String sep EmptyString) (strings.Split s sep) = s
  /\ Forall (fun f => reference.no_byte sep f = true) (strings.Split s sep).
Proof.
  induction s as [|c s [IHj IHf]]; simpl.
  - split; [reflexivity | repeat constructor].
  - destruct (Ascii.eqb c sep) eqn:E.
    + apply Ascii.eqb_eq in E. subst c.
      destruct (Split_cons sep s) as (f & fs & Hs). rewrite Hs in *.
      split.
      * rewrite concat_cons, IHj. reflexivity.
      * constructor; [reflexivity | assumption].
    + destruct (strings.Split s sep) as [|f fs] eqn:Hs.
      * destruct (Split_cons sep s) as (f & fs & Hs'). congruence.
      * split.
        -- destruct fs as [|g fs]; simpl in *; congruence.
        -- inversion IHf; subst. constructor; [|assumption].
           simpl. now rewrite E.
Qed.

Lemma Split_no_sep (sep : ascii) (f : string) :
  reference.no_byte sep f = true -> strings.Split f sep = [f].
Proof.
  induction f as [|c f IH]; simpl; [reflexivity|].
  intros [Hc Hf]%andb_prop. apply negb_true_iff in Hc. rewrite Hc, (IH Hf).
  reflexivity.
Qed.

Lemma Split_append (sep : ascii) (f rest : string) :
  reference.no_byte sep f = true ->
  strings.Split (f +:+ String sep rest) sep = f :: strings.Split rest sep.
Proof.
  induction f as [|c f IH]; simpl.
  - intros _. now rewrite Ascii.eqb_refl.
  - intros [Hc Hf]%andb_prop. apply negb_true_iff in Hc. rewrite Hc, (IH Hf).
    reflexivity.
Qed.

(** Three fields exactly. *)
Lemma Split_three (s a b c : string) :
  strings.Split s ":" = [a; b; c] <->
  s = a +:+ ":" +:+ b +:+ ":" +:+ c
  /\ reference.no_byte ":" a = true /\ reference.no_byte ":" b = true
  /\ reference.no_byte ":" c = true.
Proof.
  split.
  - intros Hs. destruct (Split_join ":" s) as [Hj Hf]. rewrite Hs in Hj, Hf.
    inversion Hf as [|? ? Ha Hf1]; subst. inversion Hf1 as [|? ? Hb Hf2]; subst.
    inversion Hf2 as [|? ? Hc _]; subst.
    split; [reflexivity | auto].
  - intros (-> & Ha & Hb & Hc).
    change (a +:+ ":" +:+ b +:+ ":" +:+ c)
      with (a +:+ String ":" (b +:+ String ":" c)).
    rewrite (Split_append ":" a _ Ha), (Split_append ":" b _ Hb), (Split_no_sep ":" c Hc).
    reflexivity.
Qed.

(** ** Time codec *)

Section TimeCodec.
Context `{GoLib}.

Lemma parse_field_Ok (field : string) (v : float64) :
  Client.parse_field field = Ok v <-> ParseFloat field = Some v.
Proof.
  unfold Client.parse_field. destruct (ParseFloat field); split; congruence.
Qed.

Lemma parseTime_suffix (r : string) :
  Client.parseTime (r +:+ "s") = Client.parse_field r.
Proof.
  unfold Client.parseTime. now rewrite HasSuffix_append, TrimSuffix_append.
Qed.

Lemma parseTime_colon (timeStr : string) (v : float64) :
  strings.HasSuffix timeStr "s" = false ->
  (Client.parseTime timeStr = Ok v <->
   exists a b c h m x,
     timeStr = a +:+ ":" +:+ b +:+ ":" +:+ c
     /\ reference.no_byte ":" a = true /\ reference.no_byte ":" b = true
     /\ reference.no_byte ":" c = true
     /\ ParseFloat a = Some h /\ ParseFloat b = Some m /\ ParseFloat c = Some x
     /\ v = (h * 3600 + m * 60 + x)%float).
Proof.
  intros Hs. unfold Client.parseTime. rewrite Hs. split.
  - destruct (strings.Split timeStr ":") as [|a [|b [|c [|d l]]]] eqn:E; try discriminate.
    apply Split_three in E. destruct E as (-> & Ha & Hb & Hc).
    destruct (Client.parse_field a) as [h|] eqn:Eh; [|discriminate].
    destruct (Client.parse_field b) as [m|] eqn:Em; [|discriminate].
    destruct (Client.parse_field c) as [x|] eqn:Ex; [|discriminate].
    intros [= <-]. apply parse_field_Ok in Eh, Em, Ex.
    exists a, b, c, h, m, x. auto 10.
  - intros (a & b & c & h & m & x & E & Ha & Hb & Hc & Eh & Em & Ex & ->).
    assert (Hsp : strings.Split timeStr ":" = [a; b; c]) by (apply Split_three; auto).
    rewrite Hsp. apply parse_field_Ok in Eh, Em, Ex. now rewrite Eh, Em, Ex.
Qed.

(** C6: [parseTime].  An input that ends in the unit marker ["s"] is parsed
    as the number before the marker, and fails when that is not numeric.
    Any other input succeeds exactly when it is three colon-separated
    numeric fields [h:m:s], and the value is then [h*3600 + m*60 + s]; any
    other field count, or a field that is not numeric, is an error. *)
Theorem parseTime_spec :
  (forall r, Client.parseTime (r +:+ "s")
             = match ParseFloat r with
               | Some v => Ok v
               | None => Err (ErrNum "ParseFloat" r)
               end)
  /\ (forall timeStr, strings.HasSuffix timeStr "s" = false ->
        (forall v, Client.parseTime timeStr = Ok v <->
           exists a b c h m x,
             timeStr = a +:+ ":" +:+ b +:+ ":" +:+ c
             /\ reference.no_byte ":" a = true /\ reference.no_byte ":" b = true
             /\ reference.no_byte ":" c = true
             /\ ParseFloat a = Some h /\ ParseFloat b = Some m /\ ParseFloat c = Some x
             /\ v = (h * 3600 + m * 60 + x)%float)
        /\ (forall fields, strings.Split timeStr ":" = fields ->
              List.length fields <> 3%nat -> is_Ok (Client.parseTime timeStr) = false)
        /\ (forall a b c, strings.Split timeStr ":" = [a; b; c] ->
              ParseFloat a = None \/ ParseFloat b = None \/ ParseFloat c = None ->
              is_Ok (Client.parseTime timeStr) = false)).
Proof.
  split; [intros r; apply parseTime_suffix|].
  intros timeStr Hs. split; [intros v; now apply parseTime_colon|]. split.
  - intros fields Hf Hn. unfold Client.parseTime. rewrite Hs, Hf.
    destruct fields as [|a [|b [|c [|d l]]]]; simpl in *; congruence.
  - intros a b c E Hnone. unfold Client.parseTime, Client.parse_field.
    rewrite Hs, E.
    destruct Hnone as [-> | [-> | ->]]; [reflexivity | |].
    + now destruct (ParseFloat a).
    + now destruct (ParseFloat a), (ParseFloat b).
Qed.

End TimeCodec.

(** A run of [parseTime_spec] on ["1:02:03.5"] with the plain library. *)
Lemma parseTime_spec_witness :
  @Client.parseTime plain.lib "1:02:03.5" = Ok 3723.5%float.
Proof.
  apply (proj2 (proj1 (proj2 (@parseTime_spec plain.lib) "1:02:03.5" eq_refl)
                      3723.5%float)).
  exists "1", "02", "03.5", 1%float, 2%float, 3.5%float.
  repeat split; vm_compute; reflexivity.
Defined.


(** ** Timed-text parser *)

Section Parser.
Context `{GoLib}.

Lemma paragraph_step_segment (segments : list TranscriptSegment) (p : ttmlParagraph) :
  Client.paragraph_step segments p
  = segments ++ match reference.segment_of p with Some seg => [seg] | None => [] end.
Proof.
  unfold Client.paragraph_step, reference.segment_of.
  destruct (Client.parseTime (Begin p)) as [b|]; [|now rewrite app_nil_r].
  destruct (Client.parseTime (End_ p)) as [e|]; [|now rewrite app_nil_r].
  simpl. destruct (String.eqb (TrimSpace (PText p)) ""); simpl;
    [now rewrite app_nil_r | reflexivity].
Qed.

Lemma fold_paragraph_step (ps : list ttmlParagraph) (segments : list TranscriptSegment) :
  fold_left Client.paragraph_step ps segments = segments ++ reference.parse ps.
Proof.
  revert segments. induction ps as [|p ps IH]; intros segments; simpl.
  - now rewrite app_nil_r.
  - rewrite IH, paragraph_step_segment. unfold reference.parse. simpl.
    destruct (reference.segment_of p); simpl; rewrite <- app_assoc; reflexivity.
Qed.

Lemma parse_app (l1 l2 : list ttmlParagraph) :
  reference.parse (l1 ++ l2) = reference.parse l1 ++ reference.parse l2.
Proof.
  apply omap_app.
Qed.

Lemma parse_length_all (l : list ttmlParagraph) :
  Forall (fun p => is_Some (reference.segment_of p)) l ->
  List.length (reference.parse l) = List.length l.
Proof.
  unfold reference.parse. induction 1 as [|p l [seg Hp] _ IH]; [reflexivity|].
  change (p :: l) with ([p] ++ l). rewrite omap_app, length_app, IH.
  simpl. now rewrite Hp.
Qed.

Lemma segment_of_bad_begin (p : ttmlParagraph) :
  is_Ok (Client.parseTime (Begin p)) = false -> reference.segment_of p = None.
Proof.
  unfold reference.segment_of. now destruct (Client.parseTime (Begin p)).
Qed.

(** C5: the timed-text parser.  For a document that decodes, the result is,
    in document order, one segment for each paragraph whose [begin] and
    [end] parse and whose trimmed text is not empty, with that text, the
    parsed begin as start and end minus begin as duration; the other
    paragraphs are skipped and the parse does not fail.  When exactly one
    paragraph has a begin that does not parse and the others are usable,
    the result has one segment less than the document has paragraphs (two
    for three), in the original order. *)
Theorem parseTTMLTranscript_spec (body : string) (ttml : ttmlTranscript) :
  xml_Decode body = Some ttml ->
  Client.parseTTMLTranscript body = Ok (reference.parse (Paragraphs ttml))
  /\ (forall p seg, reference.segment_of p = Some seg <->
        exists b e, Client.parseTime (Begin p) = Ok b
                    /\ Client.parseTime (End_ p) = Ok e
                    /\ TrimSpace (PText p) <> EmptyString
                    /\ seg = {| Text := TrimSpace (PText p); StartTime := b;
                                Duration := (e - b)%float |})
  /\ (forall before bad after,
        Paragraphs ttml = before ++ bad :: after ->
        is_Ok (Client.parseTime (Begin bad)) = false ->
        Forall (fun p => is_Some (reference.segment_of p)) (before ++ after) ->
        exists segments,
          Client.parseTTMLTranscript body = Ok segments
          /\ segments = reference.parse before ++ reference.parse after
          /\ List.length segments = (List.length before + List.length after)%nat).
Proof.
  intros Hd.
  assert (Hp : Client.parseTTMLTranscript body = Ok (reference.parse (Paragraphs ttml))).
  { unfold Client.parseTTMLTranscript. rewrite Hd. f_equal. apply fold_paragraph_step. }
  split; [exact Hp|]. split.
  - intros p seg. unfold reference.segment_of. split.
    + destruct (Client.parseTime (Begin p)) as [b|]; [|discriminate].
      destruct (Client.parseTime (End_ p)) as [e|]; [|discriminate].
      simpl. destruct (String.eqb_spec (TrimSpace (PText p)) ""); [discriminate|].
      intros [= <-]. eauto 6.
    + intros (b & e & -> & -> & Ht & ->). simpl.
      now destruct (String.eqb_spec (TrimSpace (PText p)) "").
  - intros before bad after Hps Hbad Hall.
    exists (reference.parse before ++ reference.parse after).
    split; [|split; [reflexivity|]].
    + rewrite Hp, Hps, parse_app. f_equal. f_equal.
      unfold reference.parse at 1. simpl.
      now rewrite (segment_of_bad_begin bad Hbad).
    + rewrite <- parse_app, parse_length_all, length_app; auto.
Qed.

End Parser.

(** A run of [parseTTMLTranscript_spec] on the sample document: the second
    of three paragraphs is dropped. *)
Lemma parseTTMLTranscript_spec_witness :
  @Client.parseTTMLTranscript plain.lib sample.doc
  = Ok [ {| Text := "first"; StartTime := 1; Duration := 3 |};
         {| Text := "third"; StartTime := 4.5; Duration := 4.5 |} ].
Proof.
  assert (Hd : @xml_Decode plain.lib sample.doc
               = Some {| Paragraphs := sample.paragraphs |})
    by (vm_compute; reflexivity).
  destruct (@parseTTMLTranscript_spec plain.lib _ _ Hd) as (_ & _ & Hthree).
  destruct (Hthree [ {| Begin := "00:00:01.000"; End_ := "00:00:04.000";
                        PText := " first " |} ]
                   {| Begin := "x"; End_ := "5s"; PText := "second" |}
                   [ {| Begin := "4.5s"; End_ := "9s"; PText := "third" |} ]
                   eq_refl)
    as (segments & Hs & -> & _).
  - vm_compute; reflexivity.
  - repeat constructor; vm_compute; eauto.
  - exact Hs.
Defined.

(** ** Interval grouper *)

Lemma concat_snoc (sep : string) (pending : list string) (x text : string) :
  String.concat sep ((x :: pending) ++ [text])
  = String.concat sep (x :: pending) +:+ sep +:+ text.
Proof.
  revert x. induction pending as [|y pending IH]; intros x.
  - reflexivity.
  - change ((x :: y :: pending) ++ [text]) with (x :: y :: (pending ++ [text])).
    rewrite (concat_cons sep x y (pending ++ [text])).
    change (y :: pending ++ [text]) with ((y :: pending) ++ [text]).
    rewrite IH, (concat_cons sep x y pending), !append_assoc.
    reflexivity.
Qed.

Lemma length_concat_pos (sep x : string) (pending : list string) :
  x <> EmptyString -> (0 <? String.length (String.concat sep (x :: pending)))%nat = true.
Proof.
  intros Hx. destruct x as [|c x]; [congruence|].
  destruct pending; reflexivity.
Qed.

Lemma group_step_first (intervalSeconds : float64) (g : Client.grouping)
    (seg : TranscriptSegment) :
  Client.groupText g = EmptyString ->
  Client.group_step intervalSeconds g seg
  = {| Client.formatted := Client.formatted g;
       Client.currentStart := Client.currentStart g;
       Client.groupText := Text seg |}.
Proof.
  intros Hg. unfold Client.group_step. rewrite Hg. simpl.
  rewrite andb_false_r, Hg. reflexivity.
Qed.

Lemma group_step_flush (intervalSeconds : float64) (g : Client.grouping)
    (seg : TranscriptSegment) :
  (0 <? String.length (Client.groupText g))%nat = true ->
  (intervalSeconds <=? StartTime seg - Client.currentStart g)%float = true ->
  Client.group_step intervalSeconds g seg
  = {| Client.formatted :=
         Client.formatted g
           ++ [Client.formatTimeText (Client.currentStart g) (Client.groupText g)];
       Client.currentStart := StartTime seg;
       Client.groupText := Text seg |}.
Proof.
  intros Hg Hi. unfold Client.group_step. rewrite Hg, Hi. reflexivity.
Qed.

Lemma group_step_append (intervalSeconds : float64) (g : Client.grouping)
    (seg : TranscriptSegment) :
  (0 <? String.length (Client.groupText g))%nat = true ->
  (intervalSeconds <=? StartTime seg - Client.currentStart g)%float = false ->
  Client.group_step intervalSeconds g seg
  = {| Client.formatted := Client.formatted g;
       Client.currentStart := Client.currentStart g;
       Client.groupText := Client.groupText g +:+ " " +:+ Text seg |}.
Proof.
  intros Hg Hi. unfold Client.group_step. rewrite Hg, Hi. simpl. rewrite Hg.
  now rewrite append_assoc.
Qed.

Lemma fold_group_step (intervalSeconds : float64) (segments : list TranscriptSegment) :
  Forall (fun seg => Text seg <> EmptyString) segments ->
  forall (g : Client.grouping) (pending : list string),
    Client.groupText g = String.concat " " pending ->
    Forall (fun text => text <> EmptyString) pending ->
    Client.finish (fold_left (Client.group_step intervalSeconds) segments g)
    = Client.formatted g
        ++ reference.group intervalSeconds (Client.currentStart g) pending segments.
Proof.
  induction 1 as [|seg rest Hseg _ IH]; intros g pending Hg Hpending.
  - unfold Client.finish. simpl. rewrite Hg. destruct Hpending as [|x pending Hx _].
    + simpl. now rewrite app_nil_r.
    + now rewrite (length_concat_pos " " x pending Hx).
  - simpl fold_left. destruct Hpending as [|x pending Hx Hrest].
    + rewrite (group_step_first _ _ _ Hg).
      rewrite (IH _ [Text seg]); [reflexivity | reflexivity | now constructor].
    + pose proof (length_concat_pos " " x pending Hx) as Hlen. rewrite <- Hg in Hlen.
      simpl reference.group.
      destruct (intervalSeconds <=? StartTime seg - Client.currentStart g)%float eqn:Hi.
      * rewrite (group_step_flush _ _ _ Hlen Hi).
        rewrite (IH _ [Text seg]); [| reflexivity | now constructor].
        simpl. rewrite <- app_assoc. unfold reference.flush. rewrite Hg.
        reflexivity.
      * rewrite (group_step_append _ _ _ Hlen Hi).
        rewrite (IH _ ((x :: pending) ++ [Text seg])).
        -- reflexivity.
        -- simpl Client.groupText. now rewrite concat_snoc, Hg.
        -- apply Forall_app. split; [now constructor | now constructor].
Qed.

(** The parser only emits segments with a text, so its output meets the
    premise of the grouper theorem. *)
Lemma parse_texts `{GoLib} (ps : list ttmlParagraph) :
  Forall (fun seg => Text seg <> EmptyString) (reference.parse ps).
Proof.
  unfold reference.parse. induction ps as [|p ps IH]; [constructor|].
  change (p :: ps) with ([p] ++ ps). rewrite omap_app. apply Forall_app. split; [|exact IH].
  simpl. unfold reference.segment_of.
  destruct (Client.parseTime (Begin p)); [|constructor].
  destruct (Client.parseTime (End_ p)); [|constructor].
  simpl. destruct (String.eqb_spec (TrimSpace (PText p)) ""); repeat constructor.
  assumption.
Qed.

(** C4: the grouper is the reference algorithm.  On segments (each with a
    text, as the data model has them) and any interval, [FormatTranscript]
    returns what the reference grouper returns, with no error; segments
    that start at 0, 4, 9 and 15 with interval 10 give two groups, the
    first anchored at 0 with the first three texts, the second anchored at
    15 with the fourth; no segments give no groups and no error. *)
Theorem FormatTranscript_grouper :
  (forall segments intervalSeconds,
     Forall (fun seg => Text seg <> EmptyString) segments ->
     Client.FormatTranscript (Some {| Segments := segments |}) intervalSeconds
     = (reference.grouper segments intervalSeconds, None))
  /\ Client.FormatTranscript (Some {| Segments := sample.segments |}) 10
     = (["(00:00) a b c"; "(00:15) d"], None)
  /\ (forall intervalSeconds,
        Client.FormatTranscript (Some {| Segments := [] |}) intervalSeconds = ([], None)
        /\ Client.FormatTranscript None intervalSeconds = ([], None)).
Proof.
  split; [|split; [vm_compute; reflexivity | intros; split; reflexivity]].
  intros segments intervalSeconds Hall.
  unfold Client.FormatTranscript, reference.grouper. simpl Segments.
  destruct segments as [|first rest]; [reflexivity|].
  f_equal.
  apply (fold_group_step intervalSeconds (first :: rest) Hall
           {| Client.formatted := []; Client.currentStart := StartTime first;
              Client.groupText := "" |} []); [reflexivity | constructor].
Qed.

(** A run of [FormatTranscript_grouper] on the sample segments. *)
Lemma FormatTranscript_grouper_witness :
  Client.FormatTranscript (Some {| Segments := sample.segments |}) 10
  = (reference.grouper sample.segments 10, None)
  /\ reference.grouper sample.segments 10 = ["(00:00) a b c"; "(00:15) d"].
Proof.
  split.
  - apply (proj1 FormatTranscript_grouper sample.segments 10%float).
    repeat constructor; discriminate.
  - vm_compute; reflexivity.
Defined.

(** ** Binary64 arithmetic *)

Lemma float_to_int_trunc (f : float64) : float_to_int f = binary64.trunc (Prim2SF f).
Proof. reflexivity. Qed.

Lemma digits2_size (p : positive) : digits2_pos p = Pos.size p.
Proof. induction p as [p IH | p IH |]; simpl; now rewrite ?IH. Qed.

Lemma digits_bounds (p : positive) :
  2 ^ (Zpos (digits2_pos p) - 1) <= Zpos p < 2 ^ Zpos (digits2_pos p).
Proof.
  rewrite digits2_size. split.
  - pose proof (Pos.size_le p) as Hle.
    assert (H2 : 2 ^ Zpos (Pos.size p) <= 2 * Zpos p).
    { change 2 with (Zpos 2) at 1. rewrite <- Pos2Z.inj_pow. 
      change (2 * Zpos p) with (Zpos (p~0)). now apply Pos2Z.pos_le_pos. }
    replace (Zpos (Pos.size p)) with (Z.succ (Zpos (Pos.size p) - 1)) in H2 by lia.
    rewrite Z.pow_succ_r in H2 by lia. lia.
  - pose proof (Pos.size_gt p) as Hgt.
    change 2 with (Zpos 2). rewrite <- Pos2Z.inj_pow. now apply Pos2Z.pos_lt_pos.
Qed.

Lemma Zdigits2_le (q D : Z) : 0 <= D -> 0 <= q < 2 ^ D -> Zdigits2 q <= D.
Proof.
  intros HD [Hq0 Hq]. destruct q as [|p|p]; simpl; [assumption | | lia].
  pose proof (digits_bounds p) as [Hlo _].
  destruct (Z_le_gt_dec (Zpos (digits2_pos p)) D) as [|Hgt]; [assumption|].
  exfalso. assert (2 ^ D <= 2 ^ (Zpos (digits2_pos p) - 1)) by (apply Z.pow_le_mono_r; lia).
  lia.
Qed.

Lemma Zdigits2_ge (q D : Z) : 0 <= D -> 2 ^ D <= q -> D < Zdigits2 q.
Proof.
  intros HD Hq. assert (0 < 2 ^ D) by (apply Z.pow_pos_nonneg; lia).
  destruct q as [|p|p]; simpl; try lia.
  pose proof (digits_bounds p) as [_ Hhi].
  destruct (Z_lt_le_dec D (Zpos (digits2_pos p))) as [|Hle]; [assumption|].
  exfalso. assert (2 ^ Zpos (digits2_pos p) <= 2 ^ D) by (apply Z.pow_le_mono_r; lia).
  lia.
Qed.

(** A valid finite number: at most 53 digits, an exponent from -1074 to
    971, and 53 digits unless the exponent is -1074. *)
Lemma valid_finite (s : bool) (m : positive) (e : Z) :
  valid_binary prec emax (S754_finite s m e) = true ->
  -1074 <= e <= 971 /\ Zpos (digits2_pos m) <= 53
  /\ (Zpos (digits2_pos m) = 53 \/ e = -1074).
Proof.
  unfold valid_binary, bounded, canonical_mantissa, fexp, SpecFloat.emin, prec, emax.
  intros [Hc He]%andb_prop. apply Z.eqb_eq in Hc. apply Z.leb_le in He. lia.
Qed.

Lemma pow2_pos (e : Z) : 0 <= e -> 0 < 2 ^ e.
Proof. intros. apply Z.pow_pos_nonneg; lia. Qed.

(** The order of valid numbers that are not negative is the order of
    their values. *)
Lemma SFcompare_units (x y : spec_float) :
  valid_binary prec emax x = true -> valid_binary prec emax y = true ->
  binary64.nonneg x = true -> binary64.nonneg y = true ->
  SFcompare x y = Some (binary64.units x ?= binary64.units y).
Proof.
  intros Hx Hy Nx Ny.
  destruct x as [sx | sx | | sx mx ex]; try discriminate;
    destruct y as [sy | sy | | sy my ey]; try discriminate;
    cbv beta iota delta [SFcompare binary64.units].
  - reflexivity.
  - destruct sy; [discriminate|]. 
    apply valid_finite in Hy as (He & _). 
    assert (0 < 2 ^ (ey + 1074)) by (apply pow2_pos; lia). 
    symmetry. f_equal. apply Z.compare_lt_iff. nia.
  - destruct sx; [discriminate|].
    apply valid_finite in Hx as (He & _).
    assert (0 < 2 ^ (ex + 1074)) by (apply pow2_pos; lia).
    symmetry. f_equal. apply Z.compare_gt_iff. nia.
  - destruct sx; [discriminate|]. destruct sy; [discriminate|].
    apply valid_finite in Hx as (Hex & Hdx & Hnx).
    apply valid_finite in Hy as (Hey & Hdy & Hny).
    pose proof (digits_bounds mx) as [Hxl Hxh].
    pose proof (digits_bounds my) as [Hyl Hyh].
    f_equal. destruct (Z.compare_spec ex ey) as [-> | Hlt | Hgt].
    + rewrite Pos.compare_cont_spec. cbn [Pos.switch_Eq].
      assert (0 < 2 ^ (ey + 1074)) by (apply pow2_pos; lia).
      destruct (Pos.compare_spec mx my) as [-> | Hm | Hm]; cbn [Pos.switch_Eq]; symmetry;
        [apply Z.compare_eq_iff | apply Z.compare_lt_iff | apply Z.compare_gt_iff];
        [reflexivity | |]; apply Pos2Z.pos_lt_pos in Hm; nia.
    + symmetry. apply Z.compare_lt_iff.
      assert (Hd : Zpos (digits2_pos my) = 53) by lia. rewrite Hd in Hyl.
      assert (Hmx : Zpos mx < 2 ^ 53).
      { eapply Z.lt_le_trans; [exact Hxh|]. apply Z.pow_le_mono_r; lia. }
      replace (ey + 1074) with ((ex + 1074) + (ey - ex)) by lia.
      rewrite (Z.pow_add_r 2 (ex + 1074) (ey - ex)) by lia.
      assert (0 < 2 ^ (ex + 1074)) by (apply pow2_pos; lia).
      assert (Hp : 2 ^ 1 <= 2 ^ (ey - ex)) by (apply Z.pow_le_mono_r; lia).
      change (2 ^ 1) with 2 in Hp.
      change (2 ^ 53) with (2 ^ 52 * 2) in Hmx. change (53 - 1) with 52 in Hyl.
      assert (Hq : Z.pos mx < Z.pos my * 2 ^ (ey - ex)) by nia.
      rewrite (Z.mul_comm (2 ^ (ex + 1074))), Z.mul_assoc.
      apply Z.mul_lt_mono_pos_r; assumption.
    + symmetry. apply Z.compare_gt_iff.
      assert (Hd : Zpos (digits2_pos mx) = 53) by lia. rewrite Hd in Hxl.
      assert (Hmy : Zpos my < 2 ^ 53).
      { eapply Z.lt_le_trans; [exact Hyh|]. apply Z.pow_le_mono_r; lia. }
      replace (ex + 1074) with ((ey + 1074) + (ex - ey)) by lia.
      rewrite (Z.pow_add_r 2 (ey + 1074) (ex - ey)) by lia.
      assert (0 < 2 ^ (ey + 1074)) by (apply pow2_pos; lia).
      assert (Hp : 2 ^ 1 <= 2 ^ (ex - ey)) by (apply Z.pow_le_mono_r; lia).
      change (2 ^ 1) with 2 in Hp.
      change (2 ^ 53) with (2 ^ 52 * 2) in Hmy. change (53 - 1) with 52 in Hxl.
      assert (Hq : Z.pos my < Z.pos mx * 2 ^ (ex - ey)) by nia.
      rewrite (Z.mul_comm (2 ^ (ey + 1074))), Z.mul_assoc.
      apply Z.mul_lt_mono_pos_r; assumption.
Qed.

Lemma digits_unique (p : positive) (d : Z) :
  2 ^ (d - 1) <= Zpos p < 2 ^ d -> Zpos (digits2_pos p) = d.
Proof.
  intros [Hlo Hhi].
  assert (Hd : 0 < d).
  { destruct (Z_lt_le_dec 0 d) as [|Hle]; [assumption|]. exfalso.
    destruct (Z.eq_dec d 0) as [-> | Hne]; [simpl in Hhi; lia|].
    rewrite Z.pow_neg_r in Hhi by lia. lia. }
  pose proof (Zdigits2_le (Zpos p) d) as Hle. simpl in Hle.
  pose proof (Zdigits2_ge (Zpos p) (d - 1)) as Hge. simpl in Hge.
  lia.
Qed.

Lemma digits_mul_pow2 (p p' : positive) (k : Z) :
  0 <= k -> Zpos p' = Zpos p * 2 ^ k ->
  Zpos (digits2_pos p') = Zpos (digits2_pos p) + k.
Proof.
  intros Hk Hp. apply digits_unique. rewrite Hp.
  pose proof (digits_bounds p) as [Hlo Hhi].
  assert (0 < 2 ^ k) by (apply pow2_pos; assumption).
  replace (Zpos (digits2_pos p) + k - 1) with (Zpos (digits2_pos p) - 1 + k) by lia.
  rewrite !Z.pow_add_r by lia. split.
  - apply Z.mul_le_mono_nonneg_r; lia.
  - apply Z.mul_lt_mono_pos_r; lia.
Qed.

Lemma iter_xO (p : positive) (k : positive) :
  Zpos (Pos.iter xO p k) = Zpos p * 2 ^ Zpos k.
Proof.
  change (Pos.iter xO p k) with (shift_pos k p).
  rewrite shift_pos_correct, Zpower_pos_nat, Zpower_nat_Z, positive_nat_Z. lia.
Qed.

(** ** Shifts to the right *)

Lemma shr_1_spec (m : Z) (r s : bool) :
  0 <= m ->
  shr_1 {| shr_m := m; shr_r := r; shr_s := s |}
  = {| shr_m := m / 2; shr_r := Z.odd m; shr_s := r || s |}.
Proof.
  intros Hm. rewrite <- Z.div2_div.
  destruct m as [|[p|p|]|]; try reflexivity. lia.
Qed.

Lemma iter_pos_nat {A : Type} (f : A -> A) (p : positive) (x : A) :
  SpecFloat.iter_pos f p x = Nat.iter (Pos.to_nat p) f x.
Proof.
  revert x. induction p as [p IH | p IH |]; intros x; simpl SpecFloat.iter_pos.
  - rewrite !IH, Pos2Nat.inj_xI.
    replace (S (2 * Pos.to_nat p)) with (Pos.to_nat p + (Pos.to_nat p + 1))%nat by lia.
    rewrite !Nat.iter_add. reflexivity.
  - rewrite !IH, Pos2Nat.inj_xO.
    replace (2 * Pos.to_nat p)%nat with (Pos.to_nat p + Pos.to_nat p)%nat by lia.
    rewrite Nat.iter_add. reflexivity.
  - reflexivity.
Qed.

(** Shifting out zeros loses nothing. *)
Lemma shr_exact_nat (n : nat) (m : Z) :
  0 <= m -> (2 ^ Z.of_nat n | m) ->
  Nat.iter n shr_1 {| shr_m := m; shr_r := false; shr_s := false |}
  = {| shr_m := m / 2 ^ Z.of_nat n; shr_r := false; shr_s := false |}.
Proof.
  intros Hm. induction n as [|n IH]; intros Hdiv.
  - simpl. now rewrite Z.div_1_r.
  - rewrite Nat2Z.inj_succ, Z.pow_succ_r in * by lia.
    destruct Hdiv as [k Hk].
    assert (Hpos : 0 < 2 ^ Z.of_nat n) by (apply pow2_pos; lia).
    simpl Nat.iter. rewrite IH by (exists (k * 2); lia).
    assert (Hq : m / 2 ^ Z.of_nat n = k * 2).
    { subst m. replace (k * (2 * 2 ^ Z.of_nat n)) with (k * 2 * 2 ^ Z.of_nat n) by lia.
      apply Z.div_mul. lia. }
    rewrite shr_1_spec by (rewrite Hq; nia).
    rewrite Hq, Z.odd_mul, Bool.andb_false_r, Z.div_mul by lia.
    f_equal. subst m. symmetry. rewrite Z.mul_comm. 
    replace (2 * 2 ^ Z.of_nat n * k) with (k * (2 * 2 ^ Z.of_nat n)) by lia.
    apply Z.div_mul. lia.
Qed.

Lemma shr_exact (k : positive) (m : Z) :
  0 <= m -> (2 ^ Zpos k | m) ->
  SpecFloat.iter_pos shr_1 k {| shr_m := m; shr_r := false; shr_s := false |}
  = {| shr_m := m / 2 ^ Zpos k; shr_r := false; shr_s := false |}.
Proof.
  intros Hm Hdiv. rewrite iter_pos_nat. rewrite <- (positive_nat_Z k) in *.
  now apply shr_exact_nat.
Qed.

(** ** Results that need no rounding *)

Lemma round_aux_exact (p : positive) (e n : Z) :
  0 <= n -> fexp prec emax (Zpos (digits2_pos p) + e) = e + n ->
  (2 ^ n | Zpos p) -> e + n <= 971 ->
  exists p', Zpos p = Zpos p' * 2 ^ n
    /\ binary_round_aux prec emax false (Zpos p) e loc_Exact = S754_finite false p' (e + n)
    /\ valid_binary prec emax (S754_finite false p' (e + n)) = true.
Proof.
  intros Hn Hf [k Hk] He.
  assert (Hpow : 0 < 2 ^ n) by (apply pow2_pos; assumption).
  assert (Hkpos : 0 < k) by nia.
  destruct k as [|p'|]; try lia. exists p'. split; [assumption|].
  assert (Hd : Zpos (digits2_pos p) = Zpos (digits2_pos p') + n)
    by (apply digits_mul_pow2; assumption).
  assert (Hf' : fexp prec emax (Zpos (digits2_pos p') + (e + n)) = e + n).
  { rewrite <- Hf. f_equal. lia. }
  assert (Hvalid : valid_binary prec emax (S754_finite false p' (e + n)) = true).
  { unfold valid_binary, bounded, canonical_mantissa. rewrite Hf', Z.eqb_refl.
    apply Z.leb_le. unfold emax, prec. lia. }
  split; [|exact Hvalid].
  unfold binary_round_aux, shr_fexp. cbn [Zdigits2 shr_record_of_loc].
  rewrite Hf. replace (e + n - e) with n by lia.
  assert (Hshr : shr {| shr_m := Zpos p; shr_r := false; shr_s := false |} e n
                 = ({| shr_m := Zpos p'; shr_r := false; shr_s := false |}, e + n)).
  { destruct n as [|q|q]; try lia.
    - simpl. rewrite Z.add_0_r. f_equal. f_equal. rewrite Hk. simpl. lia.
    - unfold shr. rewrite shr_exact by (try lia; exists (Zpos p'); assumption).
      rewrite Hk, Z.div_mul by lia. reflexivity. }
  rewrite Hshr. cbn [shr_m loc_of_shr_record round_nearest_even Zdigits2 shr_record_of_loc].
  rewrite Hf'. replace (e + n - (e + n)) with 0 by lia. cbn [shr shr_m].
  replace (e + n <=? emax - prec) with true; [reflexivity|].
  symmetry. apply Z.leb_le. unfold emax, prec. lia.
Qed.

(** An integer multiple of a power of two that has at most 53 significant
    bits is represented as it is. *)
Lemma binary_round_exact (p : positive) (e j D : Z) :
  Zpos p = D * 2 ^ j -> 0 <= j -> D < 2 ^ 53 ->
  -1074 <= e -> e + j <= 971 ->
  exists m' e', binary_round prec emax false p e = S754_finite false m' e'
    /\ valid_binary prec emax (S754_finite false m' e') = true
    /\ Zpos m' * 2 ^ (e' + 1074) = Zpos p * 2 ^ (e + 1074).
Proof.
  intros Hp Hj HD He Hej.
  assert (Hpow : 0 < 2 ^ j) by (apply pow2_pos; assumption).
  assert (HD0 : 0 < D) by nia.
  pose proof (digits_bounds p) as [Hlo Hhi].
  set (d := Zpos (digits2_pos p)) in *.
  assert (Hd : d <= 53 + j).
  { apply (Zdigits2_le (Zpos p)); [lia|]. split; [lia|].
    rewrite Hp, Z.pow_add_r by lia. apply Z.mul_lt_mono_pos_r; assumption. }
  unfold binary_round. fold d.
  set (f := fexp prec emax (d + e)).
  assert (Hfv : f = Z.max (d + e - 53) (-1074)) by reflexivity.
  destruct (Z_lt_le_dec f e) as [Hlt | Hge].
  - unfold shl_align. destruct (f - e) as [|k|k] eqn:Ek; try lia.
    assert (Hk : Zpos k = e - f) by lia.
    pose proof (iter_xO p k) as Hshift. rewrite Hk in Hshift.
    set (p1 := Pos.iter xO p k) in *.
    assert (Hd1 : Zpos (digits2_pos p1) = d + (e - f))
      by (apply digits_mul_pow2; [lia | assumption]).
    destruct (round_aux_exact p1 f 0) as (p' & Hp' & Hr & Hv).
    + lia.
    + rewrite Hd1, Z.add_0_r. fold f. unfold f. f_equal. lia.
    + exists (Zpos p1). simpl. lia.
    + lia.
    + rewrite Z.add_0_r in Hr, Hv. simpl in Hp'. rewrite Z.mul_1_r in Hp'.
      injection Hp' as <-. exists p1, f. split; [assumption|]. split; [assumption|].
      rewrite Hshift, <- Z.mul_assoc, <- Z.pow_add_r by lia. do 2 f_equal. lia.
  - unfold shl_align. destruct (f - e) as [|k|k] eqn:Ek; try lia.
    + assert (f = e) by lia. subst f.
      destruct (round_aux_exact p e 0) as (p' & Hp' & Hr & Hv).
      * lia.
      * fold d. lia.
      * exists (Zpos p). simpl. lia.
      * lia.
      * rewrite Z.add_0_r in Hr, Hv. simpl in Hp'. rewrite Z.mul_1_r in Hp'.
        injection Hp' as <-. exists p, e. auto.
    + assert (Hk : Zpos k = f - e) by lia.
      destruct (round_aux_exact p e (Zpos k)) as (p' & Hp' & Hr & Hv).
      * lia.
      * fold d. fold f. lia.
      * exists (D * 2 ^ (j - Zpos k)). rewrite Hp, <- Z.mul_assoc, <- Z.pow_add_r by lia.
        do 2 f_equal. lia.
      * lia.
      * exists p', (e + Zpos k). split; [assumption|]. split; [assumption|].
        rewrite Hp'. rewrite <- Z.mul_assoc, <- Z.pow_add_r by lia. do 2 f_equal. lia.
Qed.

(** ** Conversions and subtraction *)

Lemma one_pos : 0 < binary64.one.
Proof. apply pow2_pos. lia. Qed.

Lemma holds_zero (s : bool) : binary64.holds (S754_zero s) 0.
Proof. repeat split. Qed.

Lemma holds_nonneg (x : spec_float) (T : Z) : binary64.holds x T -> 0 <= T.
Proof.
  intros (Hv & Hn & <-). destruct x as [| | |[] m e]; try discriminate; simpl; lia.
Qed.

(** [float64(k)] is exact for an integer of at most 53 bits. *)
Lemma int_to_float_units (k : Z) :
  0 <= k < 2 ^ 53 ->
  binary64.holds (Prim2SF (int_to_float k)) (k * binary64.one).
Proof.
  intros [Hk0 Hk]. unfold int_to_float.
  destruct k as [|p|p]; [| |lia].
  - simpl binary_normalize. rewrite FloatAxioms.Prim2SF_SF2Prim by reflexivity.
    apply holds_zero.
  - unfold binary_normalize.
    assert (Hp : Zpos p = Zpos p * 2 ^ 0) by (simpl; lia).
    destruct (binary_round_exact p 0 0 (Zpos p) Hp) as (m' & e' & Hr & Hv & Hu);
      try lia.
    rewrite Hr, FloatAxioms.Prim2SF_SF2Prim by assumption.
    repeat split; [assumption|]. simpl binary64.units. rewrite Hu. reflexivity.
Qed.

Lemma shl_align_fst (m : positive) (e e' : Z) :
  e' <= e -> Zpos (fst (shl_align m e e')) = Zpos m * 2 ^ (e - e').
Proof.
  intros He. unfold shl_align. destruct (e' - e) as [|k|k] eqn:Ek; try lia.
  - replace (e - e') with 0 by lia. simpl. lia.
  - simpl fst. rewrite iter_xO. do 2 f_equal. lia.
Qed.

(** Subtracting a whole number from a larger number below [2^53] is
    exact. *)
Lemma sub_units (x y : spec_float) (T k : Z) :
  binary64.holds x T -> binary64.holds y (k * binary64.one) ->
  k * binary64.one <= T < 2 ^ 53 * binary64.one ->
  binary64.holds (SFsub prec emax x y) (T - k * binary64.one).
Proof.
  intros Hx Hy [Hle Hlt].
  pose proof (holds_nonneg _ _ Hy) as HK. pose proof one_pos as Hone.
  destruct Hx as (Hvx & Hnx & Hux). destruct Hy as (Hvy & Hny & Huy).
  destruct x as [sx | | | [] mx ex]; try discriminate;
    destruct y as [sy | | | [] my ey]; try discriminate.
  - simpl in Hux, Huy. replace (T - k * binary64.one) with 0 by lia.
    destruct sx, sy; apply holds_zero.
  - exfalso. simpl in Hux, Huy. apply valid_finite in Hvy as (He & _).
    assert (0 < 2 ^ (ey + 1074)) by (apply pow2_pos; lia). nia.
  - simpl in Huy. rewrite <- Huy, Z.sub_0_r. simpl SFsub. repeat split; assumption.
  - simpl in Hux, Huy. unfold SFsub, cond_Zopp.
    apply valid_finite in Hvx as (Hex & Hdx & Hnox).
    apply valid_finite in Hvy as (Hey & Hdy & Hnoy).
    pose proof (digits_bounds mx) as [Hxl Hxh].
    assert (Hmx : Zpos mx < 2 ^ 53).
    { eapply Z.lt_le_trans; [exact Hxh|]. apply Z.pow_le_mono_r; lia. }
    assert (Hex0 : ex <= 0).
    { destruct Hnox as [Hd | ->]; [|lia]. rewrite Hd in Hxl. change (53 - 1) with 52 in Hxl.
      destruct (Z_le_gt_dec ex 0) as [|Hgt]; [assumption|]. exfalso.
      assert (Hp : 2 ^ (1 + 1074) <= 2 ^ (ex + 1074)) by (apply Z.pow_le_mono_r; lia).
      rewrite (Z.pow_add_r 2 1 1074) in Hp by lia. fold binary64.one in Hp.
      change (2 ^ 1) with 2 in Hp.
      assert (Hq : 2 ^ 52 * (2 * binary64.one) <= Zpos mx * 2 ^ (ex + 1074))
        by (apply Z.mul_le_mono_nonneg; lia).
      change (2 ^ 53) with (2 ^ 52 * 2) in Hlt. lia. }
    set (ez := Z.min ex ey).
    rewrite !shl_align_fst by (unfold ez; lia).
    set (D := Zpos mx * 2 ^ (ex - ez) - Zpos my * 2 ^ (ey - ez)).
    assert (Hez : 0 < 2 ^ (ez + 1074)) by (apply pow2_pos; unfold ez; lia).
    assert (HD : D * 2 ^ (ez + 1074) = T - k * binary64.one).
    { unfold D. rewrite Z.mul_sub_distr_r, <- !Z.mul_assoc, <- !Z.pow_add_r by (unfold ez; lia).
      replace (ex - ez + (ez + 1074)) with (ex + 1074) by lia.
      replace (ey - ez + (ez + 1074)) with (ey + 1074) by lia. lia. }
    destruct D as [|p|p] eqn:ED.
    + simpl binary_normalize. rewrite <- HD. apply holds_zero.
    + unfold binary_normalize.
      assert (Hex' : 0 < 2 ^ (ex + 1074)) by (apply pow2_pos; lia).
      assert (Hdec : exists D1, Zpos p = D1 * 2 ^ (ex - ez) /\ D1 < 2 ^ 53).
      { exists (Zpos mx - k * 2 ^ (- ex)). split.
        - rewrite Z.mul_sub_distr_r. unfold D in ED. rewrite <- ED. f_equal.
          apply (Z.mul_cancel_r _ _ (2 ^ (ez + 1074))); [lia|].
          rewrite <- !Z.mul_assoc, <- !Z.pow_add_r by (unfold ez; lia).
          replace (ey - ez + (ez + 1074)) with (ey + 1074) by lia.
          replace (- ex + (ex - ez + (ez + 1074))) with 1074 by lia.
          rewrite Huy. reflexivity.
        - assert (0 <= k * 2 ^ (- ex)); [|lia].
          apply Z.mul_nonneg_nonneg; [nia|]. apply Z.pow_nonneg. lia. }
      destruct Hdec as (D1 & HD1 & HD1b).
      destruct (binary_round_exact p ez (ex - ez) D1) as (m' & e' & Hr & Hv & Hu);
        try assumption; try (unfold ez; lia).
      rewrite Hr. repeat split; [assumption|]. simpl binary64.units. rewrite Hu. exact HD.
    + exfalso. assert (Zneg p * 2 ^ (ez + 1074) < 0) by nia. lia.
Qed.

(** [int(f)] of a number that is not negative is its whole part. *)
Lemma trunc_units (x : spec_float) (T : Z) :
  binary64.holds x T -> T < 2 ^ 62 * binary64.one ->
  binary64.trunc x = T / binary64.one.
Proof.
  intros (Hv & Hn & Hu) HT. pose proof one_pos as Hone.
  destruct x as [s | | | [] m e]; try discriminate.
  - simpl in *. subst T. reflexivity.
  - simpl in Hu. apply valid_finite in Hv as (He & _).
    assert (Hv : (if 0 <=? e then Z.shiftl (Zpos m) e else Z.shiftr (Zpos m) (- e))
                 = T / binary64.one).
    { subst T. unfold binary64.one. destruct (Z.leb_spec 0 e).
      - rewrite Z.shiftl_mul_pow2, Z.pow_add_r, Z.mul_assoc, Z.div_mul by lia. reflexivity.
      - rewrite Z.shiftr_div_pow2 by lia.
        replace 1074 with (- e + (e + 1074)) at 2 by lia.
        rewrite (Z.pow_add_r 2 (- e)) by lia.
        rewrite Z.div_mul_cancel_r; [reflexivity | |]; apply Z.pow_nonzero; lia. }
    unfold binary64.trunc. cbv zeta. rewrite Hv.
    assert (0 <= T / binary64.one < 2 ^ 62).
    { split; [apply Z.div_pos; [|lia]|apply Z.div_lt_upper_bound; lia].
      subst T. assert (0 < 2 ^ (e + 1074)) by (apply pow2_pos; lia). nia. }
    replace ((int_min <=? T / binary64.one) && (T / binary64.one <=? int_max)) with true;
      [reflexivity|].
    symmetry. apply andb_true_intro. unfold int_min, int_max.
    split; apply Z.leb_le; lia.
Qed.

(** ** Comparisons *)

Lemma bracket (t : float64) (n : Z) :
  0 <= n < 2 ^ 53 - 1 ->
  (int_to_float n <=? t)%float = true ->
  (t <? int_to_float (n + 1))%float = true ->
  exists T, binary64.holds (Prim2SF t) T
    /\ n * binary64.one <= T < (n + 1) * binary64.one.
Proof.
  intros Hn Hle Hlt.
  rewrite FloatAxioms.leb_spec in Hle. rewrite FloatAxioms.ltb_spec in Hlt.
  destruct (int_to_float_units n) as (Hvx & Hnx & Hux); [lia|].
  destruct (int_to_float_units (n + 1)) as (Hvz & Hnz & Huz); [lia|].
  pose proof (FloatAxioms.Prim2SF_valid t) as Hvt.
  set (x := Prim2SF (int_to_float n)) in *.
  set (z := Prim2SF (int_to_float (n + 1))) in *.
  set (y := Prim2SF t) in *.
  assert (Hny : binary64.nonneg y = true).
  { unfold SFleb, SFltb in *.
    destruct y as [sy | [] | | [] my ey]; try reflexivity; exfalso.
    - destruct x as [| | |[]]; discriminate.
    - destruct z as [| | |[]]; discriminate.
    - destruct x as [| [] | |[]]; discriminate.
    - destruct x as [| | |[]]; discriminate. }
  exists (binary64.units y). split; [repeat split; assumption|].
  unfold SFleb in Hle. unfold SFltb in Hlt.
  rewrite SFcompare_units in Hle, Hlt by assumption.
  rewrite Hux in Hle. rewrite Huz in Hlt. split.
  - destruct (Z.compare_spec (n * binary64.one) (binary64.units y)); try discriminate; lia.
  - destruct (Z.compare_spec (binary64.units y) ((n + 1) * binary64.one)); try discriminate; lia.
Qed.

(** ** Rounding and the whole part *)

Lemma div_add_one (a d : Z) : 0 < d -> ~ (d | a + 1) -> (a + 1) / d = a / d.
Proof.
  intros Hd Hn. pose proof (Z.div_mod a d) as Ha. pose proof (Z.mod_pos_bound a d Hd) as Hr.
  assert (Hne : a mod d + 1 <> d).
  { intros E. apply Hn. exists (a / d + 1). lia. }
  symmetry. apply (Z.div_unique_pos _ _ _ (a mod d + 1)); lia.
Qed.

Lemma trunc_finite (m : positive) (e : Z) :
  e < 0 -> Zpos m < 2 ^ 62 ->
  binary64.trunc (S754_finite false m e) = Zpos m / 2 ^ (- e).
Proof.
  intros He Hm. unfold binary64.trunc. cbv zeta.
  replace (0 <=? e) with false by (symmetry; apply Z.leb_gt; assumption).
  rewrite Z.shiftr_div_pow2 by lia.
  assert (Hp : 0 < 2 ^ (- e)) by (apply pow2_pos; lia).
  assert (0 <= Zpos m / 2 ^ (- e) < 2 ^ 62).
  { split; [apply Z.div_pos; lia|]. apply Z.div_lt_upper_bound; [lia|]. nia. }
  replace ((int_min <=? Zpos m / 2 ^ (- e)) && (Zpos m / 2 ^ (- e) <=? int_max)) with true;
    [reflexivity|].
  symmetry. apply andb_true_intro. unfold int_min, int_max. split; apply Z.leb_le; lia.
Qed.

Lemma shr_record_of_loc_m (m : Z) (l : location) : shr_m (shr_record_of_loc m l) = m.
Proof. destruct l as [|[]]; reflexivity. Qed.

Lemma loc_of_shr_record_of_loc (m : Z) (l : location) :
  loc_of_shr_record (shr_record_of_loc m l) = l.
Proof. destruct l as [|[]]; reflexivity. Qed.

Lemma round_nearest_even_cases (m : Z) (l : location) :
  round_nearest_even m l = m \/ round_nearest_even m l = m + 1.
Proof. destruct l as [|[]]; simpl; auto. destruct (Z.even m); auto. Qed.

(** The last two steps of [binary_round_aux], on a mantissa of at most 54
    bits and a negative exponent: the whole part is kept. *)
Lemma round_finish (M e : Z) :
  0 <= M < 2 ^ 54 -> -1074 <= e <= -2 ->
  binary64.trunc
    (let '(mrs, e'') := shr_fexp prec emax M e loc_Exact in
     match shr_m mrs with
     | 0 => S754_zero false
     | Zpos m => if e'' <=? emax - prec then S754_finite false m e'' else S754_infinity false
     | Zneg _ => S754_nan
     end) = M / 2 ^ (- e).
Proof.
  intros [HM0 HM] He.
  pose proof (Zdigits2_le M 54) as Hd.
  assert (Hd0 : 0 <= Zdigits2 M) by (destruct M; simpl; lia).
  unfold shr_fexp, shr_record_of_loc.
  set (n := fexp prec emax (Zdigits2 M + e) - e).
  assert (Hn : n <= 1) by (unfold n, fexp, SpecFloat.emin, emax, prec; lia).
  assert (Hp : 0 < 2 ^ (- e)) by (apply pow2_pos; lia).
  assert (Hfin : forall M' e', 0 <= M' < 2 ^ 54 -> -1074 <= e' <= -1 ->
            binary64.trunc
              match M' with
              | 0 => S754_zero false
              | Zpos m => if e' <=? emax - prec then S754_finite false m e'
                          else S754_infinity false
              | Zneg _ => S754_nan
              end = M' / 2 ^ (- e')).
  { intros M' e' HM' He'. destruct M' as [|m|m]; [| |lia].
    - simpl. now rewrite Z.div_0_l by (apply Z.pow_nonzero; lia).
    - replace (e' <=? emax - prec) with true
        by (symmetry; apply Z.leb_le; unfold emax, prec; lia).
      apply trunc_finite; [lia|]. eapply Z.lt_trans; [apply HM'|]. reflexivity. }
  unfold shr. destruct n as [|k|k] eqn:En.
  - cbn [shr_m]. apply Hfin; lia.
  - assert (k = 1%positive) by lia. subst k. cbn [SpecFloat.iter_pos].
    rewrite shr_1_spec by assumption. cbn [shr_m].
    rewrite Hfin.
    + rewrite Z.div_div by lia. f_equal.
      replace (- e) with (1 + - (e + 1)) by lia. rewrite Z.pow_add_r by lia. reflexivity.
    + split; [apply Z.div_pos; lia|]. apply Z.div_lt_upper_bound; lia.
    + lia.
  - cbn [shr_m]. apply Hfin; lia.
Qed.

(** [binary_round_aux] keeps the whole part of a quotient of at most 54
    bits, whatever the remainder, unless the next mantissa is a whole
    number. *)
Lemma round_trunc (q e : Z) (l : location) :
  0 <= q < 2 ^ 54 -> -1074 <= e <= -3 -> ~ (2 ^ (- e) | q + 1) ->
  binary64.trunc (binary_round_aux prec emax false q e l) = q / 2 ^ (- e).
Proof.
  intros [Hq0 Hq] He Hndiv.
  assert (Hd0 : 0 <= Zdigits2 q) by (destruct q; simpl; lia).
  pose proof (Zdigits2_le q 54) as Hd.
  assert (Hp : 0 < 2 ^ (- e)) by (apply pow2_pos; lia).
  unfold binary_round_aux, shr_fexp at 1.
  set (n := fexp prec emax (Zdigits2 q + e) - e).
  assert (Hn : n <= 1) by (unfold n, fexp, SpecFloat.emin, emax, prec; lia).
  assert (Hsmall : n <= 0 -> q < 2 ^ 53).
  { intros Hn0. assert (Zdigits2 q <= 53)
      by (unfold n, fexp, SpecFloat.emin, emax, prec in Hn0; lia).
    destruct q as [|p|p]; [reflexivity | | lia].
    pose proof (digits_bounds p) as [_ Hhi]. simpl in H.
    eapply Z.lt_le_trans; [exact Hhi|]. apply Z.pow_le_mono_r; lia. }
  assert (Hstay : n <= 0 ->
            binary64.trunc
              (let '(mrs, e'') :=
                 shr_fexp prec emax (round_nearest_even q l) e loc_Exact in
               match shr_m mrs with
               | 0 => S754_zero false
               | Zpos m => if e'' <=? emax - prec then S754_finite false m e''
                           else S754_infinity false
               | Zneg _ => S754_nan
               end) = q / 2 ^ (- e)).
  { intros Hn0. specialize (Hsmall Hn0). rewrite round_finish.
    - destruct (round_nearest_even_cases q l) as [-> | ->]; [reflexivity|].
      now apply div_add_one.
    - destruct (round_nearest_even_cases q l) as [-> | ->]; lia.
    - lia. }
  unfold shr. destruct n as [|k|k] eqn:En.
  - rewrite shr_record_of_loc_m, loc_of_shr_record_of_loc. apply Hstay. lia.
  - assert (k = 1%positive) by lia. subst k. cbn [SpecFloat.iter_pos].
    assert (Hrec : exists r s, shr_record_of_loc q l = {| shr_m := q; shr_r := r; shr_s := s |})
      by (destruct l as [|[]]; simpl; eauto).
    destruct Hrec as (r & s & ->). rewrite shr_1_spec by assumption. cbn [shr_m].
    set (M := round_nearest_even (q / 2) _).
    assert (HM : M = q / 2 \/ (M = q / 2 + 1 /\ Z.odd q = true)).
    { unfold M, loc_of_shr_record. destruct (Z.odd q); [|destruct (r || s); simpl; auto].
      destruct (round_nearest_even_cases (q / 2)
                  (if r || s then loc_Inexact Gt else loc_Inexact Eq)) as [E | E].
      - left. destruct (r || s); exact E.
      - right. split; [|reflexivity]. destruct (r || s); exact E. }
    assert (Hhalf : 0 <= q / 2 < 2 ^ 53).
    { split; [apply Z.div_pos; lia|]. apply Z.div_lt_upper_bound; lia. }
    assert (Hpow : 2 * 2 ^ (- (e + 1)) = 2 ^ (- e)).
    { replace (- e) with (1 + - (e + 1)) by lia. rewrite Z.pow_add_r by lia. reflexivity. }
    rewrite round_finish.
    + destruct HM as [-> | [-> Hodd]].
      * rewrite Z.div_div by lia. now rewrite Hpow.
      * rewrite <- (div_add_one q (2 ^ (- e))) by assumption.
        rewrite <- Hpow, <- Z.div_div by lia. f_equal.
        rewrite (Z.div_mod q 2) at 2 by lia. rewrite Zmod_odd, Hodd.
        replace (2 * (q / 2) + 1 + 1) with ((q / 2 + 1) * 2) by lia.
        now rewrite Z.div_mul by lia.
    + destruct HM as [-> | [-> _]]; lia.
    + lia.
  - rewrite shr_record_of_loc_m, loc_of_shr_record_of_loc. apply Hstay. lia.
Qed.

(** ** Division by a whole constant *)

Section Divisor.

Variables (c dc : Z) (mc : positive).
Hypothesis dc_range : 1 <= dc <= 53.
Hypothesis c_range : 2 ^ (dc - 1) <= c < 2 ^ dc.
Hypothesis mc_value : Zpos mc = c * 2 ^ (53 - dc).

Lemma divisor_bounds : 2 ^ 52 <= Zpos mc < 2 ^ 53.
Proof.
  rewrite mc_value.
  assert (Hp : 0 < 2 ^ (53 - dc)) by (apply pow2_pos; lia).
  assert (E1 : 2 ^ 52 = 2 ^ (dc - 1) * 2 ^ (53 - dc))
    by (rewrite <- Z.pow_add_r by lia; f_equal; lia).
  assert (E2 : 2 ^ 53 = 2 ^ dc * 2 ^ (53 - dc))
    by (rewrite <- Z.pow_add_r by lia; f_equal; lia).
  rewrite E1, E2. split.
  - apply Z.mul_le_mono_nonneg_r; lia.
  - apply Z.mul_lt_mono_pos_r; lia.
Qed.

Lemma divisor_digits : Zpos (digits2_pos mc) = 53.
Proof. apply digits_unique. exact divisor_bounds. Qed.

(** The whole part of the rounded quotient of a number below [2^19] by the
    constant is the whole part of the exact quotient. *)
Lemma div_trunc (x : spec_float) (T : Z) :
  binary64.holds x T -> T < 2 ^ 19 * binary64.one ->
  binary64.trunc (SFdiv prec emax x (S754_finite false mc (dc - 53)))
  = T / (c * binary64.one).
Proof.
  intros (Hv & Hn & Hu) HT. pose proof one_pos as Hone.
  pose proof divisor_bounds as [Hmcl Hmch]. pose proof divisor_digits as Hdc.
  assert (Hc : 0 < c).
  { assert (0 < 2 ^ (dc - 1)) by (apply pow2_pos; lia). lia. }
  destruct x as [s | | | [] m1 e1]; try discriminate.
  - simpl in Hu. subst T. simpl. now rewrite Z.div_0_l by nia.
  - simpl in Hu. apply valid_finite in Hv as (He1 & Hd1 & Hnorm).
    pose proof (digits_bounds m1) as [Hm1l Hm1h].
    set (d1 := Zpos (digits2_pos m1)) in *.
    assert (Hpe : 0 < 2 ^ (e1 + 1074)) by (apply pow2_pos; lia).
    assert (He1' : e1 <= -34).
    { destruct Hnorm as [Hd | ->]; [|lia]. rewrite Hd in Hm1l. change (53 - 1) with 52 in Hm1l.
      destruct (Z_le_gt_dec e1 (-34)) as [|Hgt]; [assumption|]. exfalso.
      assert (Hp : 2 ^ (-33 + 1074) <= 2 ^ (e1 + 1074)) by (apply Z.pow_le_mono_r; lia).
      assert (Hq : 2 ^ 52 * 2 ^ (-33 + 1074) <= Zpos m1 * 2 ^ (e1 + 1074))
        by (apply Z.mul_le_mono_nonneg; lia).
      rewrite <- Z.pow_add_r in Hq by lia. unfold binary64.one in HT.
      rewrite <- Z.pow_add_r in HT by lia. simpl Z.add in Hq, HT. lia. }
    unfold SFdiv, SFdiv_core_binary. cbn [Zdigits2 xorb]. rewrite Hdc. fold d1.
    set (e' := Z.min (fexp prec emax (d1 + e1 - (53 + (dc - 53)))) (e1 - (dc - 53))).
    set (s := e1 - (dc - 53) - e').
    assert (He' : e' = Z.min (Z.max (d1 + e1 - dc - 53) (-1074)) (e1 - dc + 53)).
    { unfold e', fexp, SpecFloat.emin, emax, prec. lia. }
    assert (Hs0 : 0 <= s) by (unfold s; lia).
    assert (Hm' : match s with
                  | 0 => Zpos m1
                  | Zpos _ => Z.shiftl (Zpos m1) s
                  | Zneg _ => 0
                  end = Zpos m1 * 2 ^ s).
    { destruct s as [|k|k] eqn:Es; [simpl; lia | | lia].
      now rewrite Z.shiftl_mul_pow2 by lia. }
    rewrite Hm'. clear Hm'.
    assert (Hps : 0 < 2 ^ s) by (apply pow2_pos; assumption).
    pose proof (Z_div_mod (Zpos m1 * 2 ^ s) (Zpos mc) (eq_refl _)) as Hqr.
    assert (Hq : fst (Z.div_eucl (Zpos m1 * 2 ^ s) (Zpos mc)) = Zpos m1 * 2 ^ s / Zpos mc)
      by reflexivity.
    destruct (Z.div_eucl (Zpos m1 * 2 ^ s) (Zpos mc)) as [q r]. simpl in Hq.
    destruct Hqr as [Hqr Hr].
    assert (Hs : s <= 106 - d1) by (unfold s; lia).
    assert (Hnum : Zpos m1 * 2 ^ s < 2 ^ 106).
    { eapply Z.lt_le_trans; [apply Z.mul_lt_mono_pos_r; [assumption | exact Hm1h]|].
      rewrite <- Z.pow_add_r by lia. apply Z.pow_le_mono_r; lia. }
    assert (Hq0 : 0 <= q < 2 ^ 54).
    { rewrite Hq. split; [apply Z.div_pos; lia|]. apply Z.div_lt_upper_bound; [lia|].
      eapply Z.lt_le_trans; [exact Hnum|]. change (2 ^ 106) with (2 ^ 52 * 2 ^ 54).
      apply Z.mul_le_mono_nonneg_r; lia. }
    assert (He'r : -1074 <= e' <= -3) by lia.
    assert (Hpe' : 0 < 2 ^ (- e')) by (apply pow2_pos; lia).
    destruct (Z_le_gt_dec (-1074) (e1 - dc)) as [Hnormal | Htiny].
    + (* the quotient is a normal number *)
      assert (Hd53 : d1 = 53) by lia.
      assert (Ee' : e' = e1 - dc) by lia.
      assert (Es : s = 53) by (unfold s; lia).
      rewrite Es in *. clear Hs Hs0.
      assert (Hden : Zpos mc * 2 ^ (- e') = c * 2 ^ (- e1) * 2 ^ 53).
      { rewrite mc_value, Ee', <- !Z.mul_assoc, <- !Z.pow_add_r by lia.
        do 2 f_equal. lia. }
      rewrite round_trunc; [| assumption | assumption |].
      * rewrite Hq, Z.div_div, Hden by lia.
        rewrite Z.div_mul_cancel_r by (try apply Z.pow_nonzero; nia || lia).
        rewrite <- Hu. unfold binary64.one.
        replace 1074 with (- e1 + (e1 + 1074)) at 2 by lia.
        rewrite (Z.pow_add_r 2 (- e1)), Z.mul_assoc by lia.
        rewrite Z.div_mul_cancel_r; [reflexivity | | lia].
        assert (0 < 2 ^ (- e1)) by (apply pow2_pos; lia). nia.
      * intros [N HN].
        assert (Hmul : Zpos mc * (q + 1) = N * (c * 2 ^ (- e1)) * 2 ^ 53).
        { rewrite HN, Z.mul_comm, <- Z.mul_assoc, (Z.mul_comm (2 ^ (- e'))), Hden. lia. }
        set (X := N * (c * 2 ^ (- e1))) in *.
        assert (Hdiff : (X - Zpos m1) * 2 ^ 53 = Zpos mc - r) by lia.
        assert (0 < (X - Zpos m1) * 2 ^ 53 < 2 ^ 53) by lia.
        lia.
    + (* the quotient is below the least normal number *)
      assert (Ee' : e' = -1074) by lia. rewrite Ee' in *.
      rewrite round_trunc; [| assumption | assumption |].
      * change (- -1074) with 1074. rewrite Z.div_small.
        -- symmetry. apply Z.div_small. split; [lia|]. rewrite <- Hu.
           assert (Hp1 : 2 ^ (e1 + 1074) <= 2 ^ (dc - 1)) by (apply Z.pow_le_mono_r; lia).
           assert (Hp2 : 2 ^ 53 <= binary64.one) by (apply Z.pow_le_mono_r; lia).
           assert (Hm53 : Zpos m1 < 2 ^ 53).
           { eapply Z.lt_le_trans; [exact Hm1h|]. apply Z.pow_le_mono_r; lia. }
           assert (0 < 2 ^ (dc - 1)) by (apply pow2_pos; lia).
           assert (Zpos m1 * 2 ^ (e1 + 1074) <= Zpos m1 * 2 ^ (dc - 1))
             by (apply Z.mul_le_mono_nonneg_l; lia).
           assert (Zpos m1 * 2 ^ (dc - 1) < 2 ^ 53 * 2 ^ (dc - 1))
             by (apply Z.mul_lt_mono_pos_r; lia).
           assert (2 ^ 53 * 2 ^ (dc - 1) <= binary64.one * c)
             by (apply Z.mul_le_mono_nonneg; lia).
           lia.
        -- split; [lia|]. eapply Z.lt_trans; [apply Hq0|]. apply Z.pow_lt_mono_r; lia.
      * change (- -1074) with 1074. intros Hdiv. apply Z.divide_pos_le in Hdiv; [|lia].
        assert (2 ^ 54 < 2 ^ 1074) by (apply Z.pow_lt_mono_r; lia). lia.
Qed.

End Divisor.

(** [3600 = mc * 2^-41] and [60 = mc * 2^-47], with mantissas of 53 bits. *)
Lemma div_3600 (x : float64) (T : Z) :
  binary64.holds (Prim2SF x) T -> T < 2 ^ 19 * binary64.one ->
  float_to_int (x / 3600)%float = T / (3600 * binary64.one).
Proof.
  intros Hx HT. rewrite float_to_int_trunc, FloatAxioms.div_spec.
  change (Prim2SF 3600) with (S754_finite false 7916483719987200 (12 - 53)).
  apply (div_trunc 3600 12); [lia | simpl; lia | reflexivity | assumption | assumption].
Qed.

Lemma div_60 (x : float64) (T : Z) :
  binary64.holds (Prim2SF x) T -> T < 2 ^ 19 * binary64.one ->
  float_to_int (x / 60)%float = T / (60 * binary64.one).
Proof.
  intros Hx HT. rewrite float_to_int_trunc, FloatAxioms.div_spec.
  change (Prim2SF 60) with (S754_finite false 8444249301319680 (6 - 53)).
  apply (div_trunc 60 6); [lia | simpl; lia | reflexivity | assumption | assumption].
Qed.

(** ** Timestamp formatter *)

Lemma fmt_d_two_digits (n : Z) :
  0 <= n < 100 -> fmt.fmt_d true 2 n = reference.two_digits n.
Proof.
  intros Hn.
  assert (Hall : forallb (fun k => String.eqb (fmt.fmt_d true 2 (Z.of_nat k))
                                     (reference.two_digits (Z.of_nat k)))
                   (seq 0 100) = true) by (vm_compute; reflexivity).
  rewrite forallb_forall in Hall.
  specialize (Hall (Z.to_nat n)). rewrite Z2Nat.id in Hall by lia.
  apply String.eqb_eq, Hall, in_seq. lia.
Qed.

Lemma fmt_d_wide (n : Z) :
  0 <= n -> fmt.fmt_d true 2 n = fmt.pad_left "0" 2 (fmt.decimal n).
Proof.
  intros Hn. unfold fmt.fmt_d. rewrite Z.abs_eq by lia.
  destruct (n <? 0) eqn:E; [apply Z.ltb_lt in E; lia | reflexivity].
Qed.


Lemma Sprintf_hms (h m x : Z) (text : string) :
  fmt.Sprintf "(%02d:%02d:%02d) %s" [fmt.I h; fmt.I m; fmt.I x; fmt.S text]
  = "(" +:+ fmt.fmt_d true 2 h +:+ ":" +:+ fmt.fmt_d true 2 m
    +:+ ":" +:+ fmt.fmt_d true 2 x +:+ ") " +:+ text.
Proof.
  lazy -[fmt.fmt_d String.append]. simpl String.append. now rewrite append_nil_r.
Qed.

Lemma Sprintf_ms (m x : Z) (text : string) :
  fmt.Sprintf "(%02d:%02d) %s" [fmt.I m; fmt.I x; fmt.S text]
  = "(" +:+ fmt.fmt_d true 2 m +:+ ":" +:+ fmt.fmt_d true 2 x +:+ ") " +:+ text.
Proof.
  lazy -[fmt.fmt_d String.append]. simpl String.append. now rewrite append_nil_r.
Qed.

Lemma formatTimeText_fields (startTime : float64) (text : string) :
  Client.formatTimeText startTime text
  = if 0 <? Client.hours_of startTime then
      "(" +:+ fmt.fmt_d true 2 (Client.hours_of startTime)
      +:+ ":" +:+ fmt.fmt_d true 2 (Client.minutes_of startTime)
      +:+ ":" +:+ fmt.fmt_d true 2 (Client.seconds_of startTime)
      +:+ ") " +:+ text
    else
      "(" +:+ fmt.fmt_d true 2 (Client.minutes_of startTime)
      +:+ ":" +:+ fmt.fmt_d true 2 (Client.seconds_of startTime)
      +:+ ") " +:+ text.
Proof.
  unfold Client.formatTimeText. cbv zeta.
  destruct (0 <? Client.hours_of startTime); [apply Sprintf_hms | apply Sprintf_ms].
Qed.
Lemma is_HH_MM_SS_fields (a b c d e f : ascii) :
  reference.is_HH_MM_SS
    ("(" +:+ String a (String b EmptyString) +:+ ":" +:+ String c (String d EmptyString)
     +:+ ":" +:+ String e (String f EmptyString) +:+ ") " +:+ EmptyString)
  = reference.is_field a b && reference.is_field c d && reference.is_field e f.
Proof. reflexivity. Qed.

Lemma is_MM_SS_fields (c d e f : ascii) :
  reference.is_MM_SS
    ("(" +:+ String c (String d EmptyString)
     +:+ ":" +:+ String e (String f EmptyString) +:+ ") " +:+ EmptyString)
  = reference.is_field c d && reference.is_field e f.
Proof. reflexivity. Qed.

(** C7, as the claim states it, fails for a start time of a hundred hours:
    the hour component is positive and the output is [(100:00:00) ], whose
    hour field has three digits. *)
Lemma formatTimeText_hundred_hours :
  0 < Client.hours_of 360000
  /\ Client.formatTimeText 360000 "" = "(100:00:00) "
  /\ reference.is_HH_MM_SS (Client.formatTimeText 360000 "") = false.
Proof. vm_compute. repeat split; reflexivity. Qed.

(** Before zero the fields are not two digits each: five seconds before
    zero give a second field with a sign. *)
Lemma formatTimeText_before_zero :
  Client.formatTimeText (-5) "" = "(00:-5) "
  /\ reference.is_MM_SS (Client.formatTimeText (-5) "") = false.
Proof. vm_compute. split; reflexivity. Qed.

(** The fields are printed with [%02d], that is zero-padded to at least
    two digits.  With minute and second locals in [0..99]: an hour local
    in [1..99] gives [(HH:MM:SS) ] with two digits per field, an hour
    local of 100 or more gives the same shape with the hour written in
    full, and an hour local of zero or less gives [(MM:SS) ] without hour
    field. *)
Lemma formatTimeText_of_locals (startTime : float64) (text : string) :
  0 <= Client.minutes_of startTime < 100 ->
  0 <= Client.seconds_of startTime < 100 ->
  let hours := Client.hours_of startTime in
  let minutes := Client.minutes_of startTime in
  let seconds := Client.seconds_of startTime in
  (0 < hours < 100 ->
   Client.formatTimeText startTime text
   = "(" +:+ reference.two_digits hours +:+ ":" +:+ reference.two_digits minutes
     +:+ ":" +:+ reference.two_digits seconds +:+ ") " +:+ text
   /\ reference.is_HH_MM_SS (Client.formatTimeText startTime "") = true)
  /\ (100 <= hours ->
      Client.formatTimeText startTime text
      = "(" +:+ fmt.pad_left "0" 2 (fmt.decimal hours) +:+ ":"
        +:+ reference.two_digits minutes
        +:+ ":" +:+ reference.two_digits seconds +:+ ") " +:+ text)
  /\ (hours <= 0 ->
      Client.formatTimeText startTime text
      = "(" +:+ reference.two_digits minutes
        +:+ ":" +:+ reference.two_digits seconds +:+ ") " +:+ text
      /\ reference.is_MM_SS (Client.formatTimeText startTime "") = true).
Proof.
  intros Hm Hs hours minutes seconds. subst hours minutes seconds.
  assert (Hdigit : forall n, 0 <= n < 100 ->
            fmt.is_digit (reference.digit (n / 10)) = true
            /\ fmt.is_digit (reference.digit (n mod 10)) = true).
  { intros n Hn.
    assert (Hall : forallb (fun k =>
                      fmt.is_digit (reference.digit (Z.of_nat k / 10))
                      && fmt.is_digit (reference.digit (Z.of_nat k mod 10)))
                     (seq 0 100) = true) by (vm_compute; reflexivity).
    rewrite forallb_forall in Hall.
    specialize (Hall (Z.to_nat n)). rewrite Z2Nat.id in Hall by lia.
    apply andb_prop, Hall, in_seq. lia. }
  destruct (Hdigit _ Hm) as [Hm1 Hm2]. destruct (Hdigit _ Hs) as [Hs1 Hs2].
  rewrite !formatTimeText_fields.
  split; [|split]; intros Hh.
  - replace (0 <? Client.hours_of startTime) with true
      by (symmetry; apply Z.ltb_lt; lia).
    rewrite !fmt_d_two_digits by lia. split; [reflexivity|].
    destruct (Hdigit (Client.hours_of startTime)) as [Hh1 Hh2]; [lia|].
    unfold reference.two_digits. rewrite is_HH_MM_SS_fields. unfold reference.is_field.
    now rewrite Hh1, Hh2, Hm1, Hm2, Hs1, Hs2.
  - replace (0 <? Client.hours_of startTime) with true
      by (symmetry; apply Z.ltb_lt; lia).
    rewrite (fmt_d_wide (Client.hours_of startTime)) by lia.
    now rewrite !fmt_d_two_digits by lia.
  - replace (0 <? Client.hours_of startTime) with false
      by (symmetry; apply Z.ltb_ge; lia).
    rewrite !fmt_d_two_digits by lia. split; [reflexivity|].
    unfold reference.two_digits. rewrite is_MM_SS_fields. unfold reference.is_field.
    now rewrite Hm1, Hm2, Hs1, Hs2.
Qed.

(** ** The fields of [formatTimeText] *)

Lemma whole_part (T n : Z) :
  n * binary64.one <= T < (n + 1) * binary64.one -> T / binary64.one = n.
Proof.
  intros H. pose proof one_pos. symmetry.
  apply (Z.div_unique_pos _ _ _ (T - n * binary64.one)); lia.
Qed.

Lemma whole_part_div (T n c : Z) :
  0 < c -> n * binary64.one <= T < (n + 1) * binary64.one ->
  T / (c * binary64.one) = n / c.
Proof.
  intros Hc H. pose proof one_pos.
  rewrite (Z.mul_comm c), <- Z.div_div by lia. now rewrite (whole_part T n).
Qed.

Lemma units_le (a b : Z) : a <= b -> a * binary64.one <= b * binary64.one.
Proof. intros H. pose proof one_pos. apply Z.mul_le_mono_nonneg_r; lia. Qed.

Lemma wrap_int_small (z : Z) : 0 <= z < 2 ^ 62 -> wrap_int z = z.
Proof. intros H. unfold wrap_int. rewrite Z.mod_small; lia. Qed.

Lemma formatTimeText_locals (startTime : float64) (n : Z) :
  0 <= n < 360000 ->
  (int_to_float n <=? startTime)%float = true ->
  (startTime <? int_to_float (n + 1))%float = true ->
  Client.hours_of startTime = n / 3600
  /\ Client.minutes_of startTime = n mod 3600 / 60
  /\ Client.seconds_of startTime = n mod 60.
Proof.
  intros Hn Hle Hlt. pose proof one_pos as Hone.
  destruct (bracket startTime n) as (T & HT & Hb); [lia | assumption | assumption |].
  pose proof (units_le (n + 1) (2 ^ 19)) as H19. cbv beta in H19.
  assert (Hwide : 2 ^ 19 * binary64.one <= 2 ^ 53 * binary64.one
                  /\ 2 ^ 19 * binary64.one <= 2 ^ 62 * binary64.one)
    by (split; apply units_le; lia).
  assert (Hh : Client.hours_of startTime = n / 3600).
  { unfold Client.hours_of. rewrite (div_3600 _ T) by (assumption || lia).
    apply whole_part_div; [lia | assumption]. }
  set (h := n / 3600) in *.
  assert (Hhr : 0 <= h * 3600 <= n /\ n - h * 3600 = n mod 3600 /\ 0 <= n mod 3600 < 3600).
  { pose proof (Z.div_mod n 3600). pose proof (Z.mod_pos_bound n 3600). unfold h. lia. }
  assert (Hsub : forall k, 0 <= k <= n ->
            binary64.holds (Prim2SF (startTime - int_to_float k))
              (T - k * binary64.one)
            /\ (n - k) * binary64.one <= T - k * binary64.one
                < (n - k + 1) * binary64.one
            /\ T - k * binary64.one < 2 ^ 19 * binary64.one).
  { intros k Hk. pose proof (units_le 0 k) as Hk0. pose proof (units_le k n) as Hkn.
    split; [|lia]. rewrite FloatAxioms.sub_spec. apply sub_units.
    - assumption.
    - apply int_to_float_units. lia.
    - lia. }
  assert (Hm : Client.minutes_of startTime = n mod 3600 / 60).
  { unfold Client.minutes_of. cbv zeta. rewrite Hh. unfold int_mul.
    rewrite wrap_int_small by lia.
    destruct (Hsub (h * 3600)) as (Hx & Hw & Hs); [lia|].
    rewrite (div_60 _ _ Hx Hs).
    rewrite (whole_part_div _ _ 60 ltac:(lia) Hw).
    f_equal. lia. }
  split; [exact Hh|]. split; [exact Hm|].
  unfold Client.seconds_of. cbv zeta. rewrite Hh, Hm. fold h.
  set (m := n mod 3600 / 60).
  assert (Hmr : 0 <= m * 60 <= n mod 3600 /\ n mod 3600 - m * 60 = n mod 60).
  { pose proof (Z.div_mod (n mod 3600) 60). pose proof (Z.mod_pos_bound (n mod 3600) 60).
    replace (n mod 60) with ((n mod 3600) mod 60); [unfold m; lia|].
    pose proof (Z.div_mod n 3600).
    rewrite <- (Z.mod_add (n mod 3600) (60 * (n / 3600)) 60) by lia. f_equal. lia. }
  unfold int_add, int_mul.
  rewrite (wrap_int_small (h * 3600)), (wrap_int_small (m * 60)), wrap_int_small by lia.
  destruct (Hsub (h * 3600 + m * 60)) as (Hx & Hw & Hs); [lia|].
  rewrite float_to_int_trunc, (trunc_units _ _ Hx) by lia.
  rewrite (whole_part _ _ Hw). lia.
Qed.

Lemma component_ranges (n : Z) :
  0 <= n < 360000 ->
  0 <= n / 3600 < 100 /\ 0 <= n mod 3600 / 60 < 60 /\ 0 <= n mod 60 < 60
  /\ (0 < n / 3600 <-> 3600 <= n).
Proof.
  intros Hn.
  pose proof (Z.div_mod n 3600). pose proof (Z.mod_pos_bound n 3600).
  pose proof (Z.div_mod (n mod 3600) 60). pose proof (Z.mod_pos_bound (n mod 3600) 60).
  pose proof (Z.mod_pos_bound n 60). lia.
Qed.

(** C7, amended: for a start time from 0 up to, but not including, a
    hundred hours (360000 seconds), with [n] its whole number of seconds:
    when the hour component [n / 3600] is greater than zero the line
    starts with [(HH:MM:SS) ], when less than one hour has elapsed with
    [(MM:SS) ], each field the hour, minute or second component written
    with two digits.  45 seconds give [(00:45) ] and 3725 seconds give
    [(01:02:05) ]. *)
Theorem formatTimeText_spec :
  (forall (startTime : float64) (n : Z) (text : string),
     0 <= n < 360000 ->
     (int_to_float n <=? startTime)%float = true ->
     (startTime <? int_to_float (n + 1))%float = true ->
     let hours := n / 3600 in
     let minutes := n mod 3600 / 60 in
     let seconds := n mod 60 in
     (0 < hours ->
      Client.formatTimeText startTime text
      = "(" +:+ reference.two_digits hours +:+ ":" +:+ reference.two_digits minutes
        +:+ ":" +:+ reference.two_digits seconds +:+ ") " +:+ text
      /\ reference.is_HH_MM_SS (Client.formatTimeText startTime "") = true)
     /\ (n < 3600 ->
         Client.formatTimeText startTime text
         = "(" +:+ reference.two_digits minutes
           +:+ ":" +:+ reference.two_digits seconds +:+ ") " +:+ text
         /\ reference.is_MM_SS (Client.formatTimeText startTime "") = true))
  /\ Client.formatTimeText 45 "" = "(00:45) "
  /\ Client.formatTimeText 3725 "" = "(01:02:05) ".
Proof.
  split; [|split; vm_compute; reflexivity].
  intros startTime n text Hn Hle Hlt hours minutes seconds.
  destruct (formatTimeText_locals startTime n Hn Hle Hlt) as (Hh & Hm & Hs).
  destruct (component_ranges n Hn) as (Hhr & Hmr & Hsr & Hpos).
  pose proof (formatTimeText_of_locals startTime) as Hfields.
  cbv zeta in Hfields. rewrite Hh, Hm, Hs in Hfields. fold hours minutes seconds in Hfields.
  split; intros Hc.
  - apply (Hfields text); unfold hours, minutes, seconds; lia.
  - apply (Hfields text); unfold hours, minutes, seconds; lia.
Qed.

(** A run of [formatTimeText_spec] on 3725.5 seconds, whose whole number
    of seconds is 3725. *)
Lemma formatTimeText_spec_witness :
  0 <= 3725 < 360000
  /\ (int_to_float 3725 <=? 3725.5)%float = true
  /\ (3725.5 <? int_to_float (3725 + 1))%float = true
  /\ 0 < 3725 / 3600
  /\ Client.formatTimeText 3725.5 "x"
     = "(" +:+ reference.two_digits (3725 / 3600)
       +:+ ":" +:+ reference.two_digits (3725 mod 3600 / 60)
       +:+ ":" +:+ reference.two_digits (3725 mod 60) +:+ ") " +:+ "x".
Proof.
  assert (Hn : 0 <= 3725 < 360000) by lia.
  assert (Hle : (int_to_float 3725 <=? 3725.5)%float = true) by (vm_compute; reflexivity).
  assert (Hlt : (3725.5 <? int_to_float (3725 + 1))%float = true) by (vm_compute; reflexivity).
  assert (Hh : 0 < 3725 / 3600) by reflexivity.
  split; [exact Hn|]. split; [exact Hle|]. split; [exact Hlt|]. split; [exact Hh|].
  exact (proj1 (proj1 (proj1 formatTimeText_spec 3725.5%float 3725 "x" Hn Hle Hlt) Hh)).
Defined.

(** ** Caption track selection *)

Lemma english_url_find (tracks : list CaptionTrack) :
  Client.english_url tracks
  = match List.find reference.is_english tracks with
    | Some track => BaseURL track
    | None => EmptyString
    end.
Proof.
  induction tracks as [|track tracks IH]; simpl; [reflexivity|].
  unfold reference.is_english at 1.
  destruct (strings.HasPrefix (VssID track) ".en" || String.eqb (LanguageCode track) "en");
    [reflexivity | exact IH].
Qed.

(** The selection is the one of the specification whenever the first
    English track, if there is one, has a base URL. *)
Lemma select_caption_url_selectTrack (tracks : list CaptionTrack) :
  (forall track, List.find reference.is_english tracks = Some track ->
                 BaseURL track <> EmptyString) ->
  option_map BaseURL (reference.selectTrack tracks)
  = match tracks with
    | [] => None
    | _ => Some (Client.select_caption_url tracks)
    end.
Proof.
  intros Hurl. unfold Client.select_caption_url, reference.selectTrack.
  rewrite english_url_find.
  destruct (List.find reference.is_english tracks) as [track|] eqn:E.
  - specialize (Hurl track eq_refl).
    destruct (String.eqb_spec (BaseURL track) ""); [contradiction|].
    destruct tracks; [discriminate | reflexivity].
  - destruct tracks; reflexivity.
Qed.

(** The examples of the specification: English wins in either order, a
    single Spanish track is taken. *)
Lemma select_caption_url_examples :
  Client.select_caption_url [sample.es_track; sample.en_track] = "https://c/en"
  /\ Client.select_caption_url [sample.en_track; sample.es_track] = "https://c/en"
  /\ Client.select_caption_url [sample.es_track] = "https://c/es".
Proof. repeat split; reflexivity. Qed.

(** C8 at the failing input: the second track is English and its base URL
    is the empty string.  The loop selects it, the test [captionURL == ""]
    then takes it for "no English track" and the Spanish track is used. *)
Theorem select_caption_url_empty_english :
  reference.selectTrack sample.tracks_empty_english
  = Some {| BaseURL := ""; VssID := ".en"; LanguageCode := "en" |}
  /\ Client.english_url sample.tracks_empty_english = ""
  /\ Client.select_caption_url sample.tracks_empty_english = "https://c/es".
Proof. repeat split; reflexivity. Qed.

(** ** Video identifier extraction *)

Lemma strip_append (lit rest : string) : service.strip lit (lit +:+ rest) = Some rest.
Proof.
  induction lit as [|a lit IH]; simpl; [reflexivity|].
  now rewrite Ascii.eqb_refl.
Qed.

Lemma strip_Some (lit s rest : string) :
  service.strip lit s = Some rest -> s = lit +:+ rest.
Proof.
  revert s. induction lit as [|a lit IH]; intros s; simpl.
  - now intros [= ->].
  - destruct s as [|c s]; [discriminate|].
    destruct (Ascii.eqb_spec c a); [|discriminate].
    intros Hs. subst c. now rewrite (IH _ Hs).
Qed.

Section Matcher.
Context {R : Type}.
Implicit Types (k : string -> option string -> option R).

Lemma matches_Lit lit rest cap k :
  service.matches (service.Lit lit) (lit +:+ rest) cap k = k rest cap.
Proof. simpl. now rewrite strip_append. Qed.

Lemma matches_Lit_Some lit s cap k x :
  service.matches (service.Lit lit) s cap k = Some x ->
  exists rest, s = lit +:+ rest /\ k rest cap = Some x.
Proof.
  simpl. destruct (service.strip lit s) as [rest|] eqn:E; [|discriminate].
  intros Hk. exists rest. split; [now apply strip_Some | exact Hk].
Qed.

Lemma matches_Alt r1 r2 s cap k :
  service.matches (service.Alt r1 r2) s cap k
  = match service.matches r1 s cap k with
    | Some x => Some x
    | None => service.matches r2 s cap k
    end.
Proof. reflexivity. Qed.

Lemma matches_Seq r1 r2 s cap k :
  service.matches (service.Seq r1 r2) s cap k
  = service.matches r1 s cap (fun rest cap' => service.matches r2 rest cap' k).
Proof. reflexivity. Qed.

Lemma matches_Rep_S n r s cap k :
  service.matches (service.Rep (S n) r) s cap k
  = service.matches r s cap (fun rest cap' => service.matches (service.Rep n r) rest cap' k).
Proof. reflexivity. Qed.

Lemma matches_Rep_Class n member id rest cap k :
  String.length id = n ->
  forallb member (list_ascii_of_string id) = true ->
  service.matches (service.Rep n (service.Class member)) (id +:+ rest) cap k = k rest cap.
Proof.
  revert id. induction n as [|n IH]; intros id Hn Hid.
  - destruct id; [reflexivity | discriminate].
  - destruct id as [|c id]; [discriminate|].
    simpl in Hid. apply andb_prop in Hid as [Hc Hid]. injection Hn as Hn.
    rewrite matches_Rep_S. simpl String.append. simpl service.matches at 1.
    rewrite Hc. now apply IH.
Qed.

Lemma matches_Rep_Class_Some n member s cap k x :
  service.matches (service.Rep n (service.Class member)) s cap k = Some x ->
  exists id rest, s = id +:+ rest /\ String.length id = n
                  /\ forallb member (list_ascii_of_string id) = true
                  /\ k rest cap = Some x.
Proof.
  revert s. induction n as [|n IH]; intros s.
  - intros Hk. exists EmptyString, s. auto.
  - rewrite matches_Rep_S. simpl service.matches at 1.
    destruct s as [|c s]; [discriminate|].
    destruct (member c) eqn:Hc; [|discriminate].
    intros Hk. destruct (IH _ Hk) as (id & rest & -> & Hn & Hid & Hx).
    exists (String c id), rest. simpl. rewrite Hc, Hid, Hn. auto.
Qed.

End Matcher.

(** The classes of the pattern are the alphabet and the stop characters
    of the specification. *)
Lemma id_byte_chars (c : ascii) : service.id_byte c = reference.is_id_char c.
Proof. destruct c as [[] [] [] [] [] [] [] []]; reflexivity. Qed.

Lemma stop_byte_chars (c : ascii) : service.stop_byte c = reference.is_stop_char c.
Proof. destruct c as [[] [] [] [] [] [] [] []]; reflexivity. Qed.

Lemma forallb_id_byte (l : list ascii) :
  forallb service.id_byte l = forallb reference.is_id_char l.
Proof. induction l as [|c l IH]; simpl; [reflexivity | now rewrite IH, id_byte_chars]. Qed.

Lemma stop_or_end (rest : string) :
  (rest = EmptyString
   \/ exists c rest', rest = String c rest' /\ service.stop_byte c = true)
  <-> (rest = EmptyString
       \/ exists c rest', rest = String c rest' /\ reference.is_stop_char c = true).
Proof.
  split; (intros [-> | (c & rest' & -> & Hc)]; [now left | right; exists c, rest']);
    [rewrite <- stop_byte_chars | rewrite stop_byte_chars]; auto.
Qed.

Lemma id_then_stop_complete (id rest : string) (cap : option string) :
  String.length id = 11%nat ->
  forallb service.id_byte (list_ascii_of_string id) = true ->
  (rest = EmptyString
   \/ exists c rest', rest = String c rest' /\ service.stop_byte c = true) ->
  service.matches reference.id_then_stop (id +:+ rest) cap reference.group1 = Some (Some id).
Proof.
  intros Hn Hid Hstop. unfold reference.id_then_stop. rewrite matches_Seq.
  change (service.matches (service.Group ?r) ?s ?cap ?k)
    with (service.matches r s cap
            (fun rest' _ => k rest' (Some (substring 0 (String.length s - String.length rest') s)))).
  rewrite (matches_Rep_Class 11 _ id rest cap _ Hn Hid).
  rewrite length_append.
  replace (String.length id + String.length rest - String.length rest)%nat
    with (String.length id) by lia.
  rewrite substring_head, matches_Alt.
  destruct Hstop as [-> | (c & rest' & -> & Hc)]; simpl; [reflexivity|].
  now rewrite Hc.
Qed.

Lemma id_then_stop_sound (s : string) (cap res : option string) :
  service.matches reference.id_then_stop s cap reference.group1 = Some res ->
  exists id rest,
    res = Some id /\ s = id +:+ rest
    /\ String.length id = 11%nat
    /\ forallb service.id_byte (list_ascii_of_string id) = true
    /\ (rest = EmptyString
        \/ exists c rest', rest = String c rest' /\ service.stop_byte c = true).
Proof.
  unfold reference.id_then_stop. rewrite matches_Seq.
  change (service.matches (service.Group ?r) ?s ?cap ?k)
    with (service.matches r s cap
            (fun rest' _ => k rest' (Some (substring 0 (String.length s - String.length rest') s)))).
  intros Hm. apply matches_Rep_Class_Some in Hm.
  destruct Hm as (id & rest & -> & Hn & Hid & Hk).
  rewrite length_append in Hk.
  replace (String.length id + String.length rest - String.length rest)%nat
    with (String.length id) in Hk by lia.
  rewrite substring_head, matches_Alt in Hk.
  exists id, rest.
  destruct rest as [|c rest']; simpl in Hk.
  - injection Hk as <-. auto 6.
  - destruct (service.stop_byte c) eqn:Hc; [|discriminate].
    injection Hk as <-. split; [reflexivity|]. split; [reflexivity|].
    split; [assumption|]. split; [assumption|]. right. eauto.
Qed.

Lemma pattern_unfold (s : string) :
  service.matches service.pattern s None reference.group1
  = service.matches
      (service.Alt (service.Lit "/")
         (service.Alt (service.Lit "%3D") (service.Alt (service.Lit "v=") (service.Lit "vi="))))
      s None (fun rest cap => service.matches reference.id_then_stop rest cap reference.group1).
Proof. reflexivity. Qed.

Lemma pattern_complete (s id : string) :
  reference.head_token s id -> service.matches service.pattern s None reference.group1 = Some (Some id).
Proof.
  intros (marker & rest & -> & Hm & Hn & Hid & Hstop).
  rewrite <- forallb_id_byte in Hid. apply stop_or_end in Hstop.
  rewrite pattern_unfold.
  pose proof (id_then_stop_complete id rest None Hn Hid Hstop) as Htail.
  simpl in Hm. destruct Hm as [<- | [<- | [<- | [<- | []]]]].
  - rewrite matches_Alt, matches_Lit, Htail. reflexivity.
  - rewrite matches_Alt. 
    change (service.matches (service.Lit "/") ("%3D" +:+ id +:+ rest) None _) with (@None (option string)).
    rewrite matches_Alt, matches_Lit, Htail. reflexivity.
  - rewrite matches_Alt. 
    change (service.matches (service.Lit "/") ("v=" +:+ id +:+ rest) None _) with (@None (option string)).
    rewrite matches_Alt.
    change (service.matches (service.Lit "%3D") ("v=" +:+ id +:+ rest) None _) with (@None (option string)).
    rewrite matches_Alt, matches_Lit, Htail. reflexivity.
  - rewrite matches_Alt. 
    change (service.matches (service.Lit "/") ("vi=" +:+ id +:+ rest) None _) with (@None (option string)).
    rewrite matches_Alt.
    change (service.matches (service.Lit "%3D") ("vi=" +:+ id +:+ rest) None _) with (@None (option string)).
    rewrite matches_Alt.
    change (service.matches (service.Lit "v=") ("vi=" +:+ id +:+ rest) None _) with (@None (option string)).
    rewrite matches_Lit, Htail. reflexivity.
Qed.

Lemma pattern_sound (s : string) (res : option string) :
  service.matches service.pattern s None reference.group1 = Some res ->
  exists id, res = Some id /\ reference.head_token s id.
Proof.
  rewrite pattern_unfold, !matches_Alt. intros Hm.
  assert (Hcase : exists marker rest,
             In marker reference.markers /\ s = marker +:+ rest
             /\ service.matches reference.id_then_stop rest None reference.group1 = Some res).
  { destruct (service.matches (service.Lit "/") s None _) eqn:E1.
    - injection Hm as ->. apply matches_Lit_Some in E1 as (rest & -> & Hk).
      exists "/"%string, rest. simpl. auto.
    - destruct (service.matches (service.Lit "%3D") s None _) eqn:E2.
      + injection Hm as ->. apply matches_Lit_Some in E2 as (rest & -> & Hk).
        exists "%3D"%string, rest. simpl. auto.
      + destruct (service.matches (service.Lit "v=") s None _) eqn:E3.
        * injection Hm as ->. apply matches_Lit_Some in E3 as (rest & -> & Hk).
          exists "v="%string, rest. simpl. auto.
        * apply matches_Lit_Some in Hm as (rest & -> & Hk).
          exists "vi="%string, rest. simpl. auto 6. }
  destruct Hcase as (marker & rest & Hin & -> & Htail).
  apply id_then_stop_sound in Htail.
  destruct Htail as (id & rest' & -> & -> & Hn & Hid & Hstop).
  rewrite forallb_id_byte in Hid. apply stop_or_end in Hstop.
  exists id. split; [reflexivity|]. exists marker, rest'. auto.
Qed.

Lemma Find_unfold (r : service.regex) (str : string) :
  service.FindStringSubmatch r str
  = match service.matches r str None reference.group1 with
    | Some cap => Some cap
    | None =>
        match str with
        | EmptyString => None
        | String _ rest => service.FindStringSubmatch r rest
        end
    end.
Proof. destruct str; reflexivity. Qed.

Lemma pattern_None (s : string) :
  service.matches service.pattern s None reference.group1 = None <-> forall id, ~ reference.head_token s id.
Proof.
  split.
  - intros Hn id Hh. apply pattern_complete in Hh. congruence.
  - intros Hn. destruct (service.matches service.pattern s None reference.group1) as [res|] eqn:E;
      [|reflexivity].
    apply pattern_sound in E as (id & _ & Hh). now destruct (Hn id).
Qed.


Lemma Find_Some (s : string) (res : option string) :
  service.FindStringSubmatch service.pattern s = Some res ->
  exists before t id,
    res = Some id /\ s = before +:+ t /\ reference.head_token t id
    /\ (forall b1 b2 id', before = b1 +:+ b2 -> b2 <> EmptyString -> ~ reference.head_token (b2 +:+ t) id').
Proof.
  induction s as [|c s IH]; rewrite Find_unfold.
  - destruct (service.matches service.pattern "" None reference.group1) as [cap|] eqn:E; [|discriminate].
    intros [= <-]. apply pattern_sound in E as (id & -> & Hh).
    exists EmptyString, EmptyString, id. repeat split; auto.
    intros b1 b2 id' Hb Hb2. destruct b1; [|discriminate]. simpl in Hb. congruence.
  - destruct (service.matches service.pattern (String c s) None reference.group1) as [cap|] eqn:E.
    + intros [= <-]. apply pattern_sound in E as (id & -> & Hh).
      exists EmptyString, (String c s), id. repeat split; auto.
      intros b1 b2 id' Hb Hb2. destruct b1; [|discriminate]. simpl in Hb. congruence.
    + intros Hf. destruct (IH Hf) as (before & t & id & -> & -> & Hh & Hfirst).
      exists (String c before), t, id. repeat split; auto.
      intros b1 b2 id' Hb Hb2. destruct b1 as [|c1 b1]; simpl in Hb.
      * subst b2. apply pattern_None. exact E.
      * injection Hb as <- ->. exact (Hfirst b1 b2 id' eq_refl Hb2).
Qed.






Lemma ExtractVideoId_Find (s : string) :
  String.length s <> 11%nat ->
  service.ExtractVideoId s
  = match service.FindStringSubmatch service.pattern s with
    | Some (Some id) => id
    | _ => EmptyString
    end.
Proof.
  intros Hn. unfold service.ExtractVideoId.
  now destruct (Nat.eqb_spec (String.length s) 11).
Qed.






(** ** The service: validation comes first *)

Lemma id_byte_no_slash (s : string) :
  forallb service.id_byte (list_ascii_of_string s) = true -> reference.no_byte "/" s = true.
Proof.
  induction s as [|c s IH]; simpl; [reflexivity|].
  intros [Hc Hs]%andb_prop. rewrite (IH Hs), andb_true_r.
  destruct (Ascii.eqb_spec c "/") as [-> | _]; [discriminate | reflexivity].
Qed.

Section Validation.
Context `{GoLib}.
Variable W : World.

Lemma IsValidUrl_no_slash (s : string) :
  reference.authority_needs_slash -> reference.no_byte "/" s = true ->
  service.IsValidUrl s = false.
Proof.
  intros Hlib Hs. unfold service.IsValidUrl.
  destruct (url_Parse s) as [u|] eqn:E; [|reflexivity].
  now rewrite (Hlib s u Hs E).
Qed.

Lemma GetTranscripts_invalid (req : service.TranscriptRequest) (σ : state) :
  service.IsValidUrl (service.VideoURL req) = false ->
  service.GetTranscripts W req σ = Some (Err ErrInvalidURL, σ).
Proof.
  intros Hv. unfold service.GetTranscripts. rewrite Hv. simpl.
  now rewrite orb_true_r.
Qed.

(** C10: a bare video identifier is not a URL of an allowed domain.  For a
    request whose [VideoURL] is 11 identifier bytes, [GetTranscripts]
    returns the invalid-URL error in the state it started from, so before
    any cache lookup and any network request, although [ExtractVideoId]
    returns such an input as it is.  More generally every request whose
    [VideoURL] fails the domain check ends that way; a run that looks up
    the cache or reaches the network has passed the check. *)
Theorem GetTranscripts_bare_id (req : service.TranscriptRequest) (σ : state) :
  reference.authority_needs_slash ->
  reference.is_video_id (service.VideoURL req) = true ->
  service.GetTranscripts W req σ = Some (Err ErrInvalidURL, σ)
  /\ service.ExtractVideoId (service.VideoURL req) = service.VideoURL req
  /\ (forall req' σ0,
        service.IsValidUrl (service.VideoURL req') = false ->
        service.GetTranscripts W req' σ0 = Some (Err ErrInvalidURL, σ0))
  /\ (forall req' σ0 r σ1,
        service.GetTranscripts W req' σ0 = Some (r, σ1) ->
        trace σ1 <> trace σ0 ->
        service.IsValidUrl (service.VideoURL req') = true).
Proof.
  intros Hlib [Hlen Hid]%andb_prop. apply Nat.eqb_eq in Hlen.
  split; [|split; [|split]].
  - apply GetTranscripts_invalid, IsValidUrl_no_slash; [assumption|].
    now apply id_byte_no_slash.
  - unfold service.ExtractVideoId. now rewrite Hlen.
  - intros req' σ0. apply GetTranscripts_invalid.
  - intros req' σ0 r σ1 Hrun Htrace.
    destruct (service.IsValidUrl (service.VideoURL req')) eqn:E; [reflexivity|].
    rewrite (GetTranscripts_invalid req' σ0 E) in Hrun. congruence.
Qed.

End Validation.

(** The plain library meets the premise on [url.Parse]. *)
Lemma cut_no_byte (x c : ascii) (s b a : string) :
  plain.cut c s = Some (b, a) -> reference.no_byte x s = true ->
  reference.no_byte x b = true /\ reference.no_byte x a = true.
Proof.
  revert b. induction s as [|d s IH]; intros b; simpl; [discriminate|].
  intros Hcut [Hd Hs]%andb_prop.
  destruct (Ascii.eqb d c).
  - injection Hcut as <- <-. auto.
  - destruct (plain.cut c s) as [[b' a']|]; [|discriminate].
    injection Hcut as <- <-. destruct (IH b' eq_refl Hs) as [Hb Ha].
    simpl. now rewrite Hd, Hb.
Qed.

Lemma before_no_byte (x c : ascii) (s : string) :
  reference.no_byte x s = true -> reference.no_byte x (plain.before c s) = true.
Proof.
  intros Hs. unfold plain.before.
  destruct (plain.cut c s) as [[b a]|] eqn:E; [|assumption].
  now destruct (cut_no_byte x c s b a E Hs).
Qed.

Lemma scheme_from_no_byte (x : ascii) (first : bool) (s scheme path : string) :
  plain.scheme_from first s = Some (Some (scheme, path)) ->
  reference.no_byte x s = true -> reference.no_byte x path = true.
Proof.
  revert first scheme. induction s as [|c s IH]; intros first scheme; simpl; [discriminate|].
  intros Hs [_ Hx]%andb_prop.
  destruct (plain.is_alpha c || _).
  - destruct (plain.scheme_from false s) as [[[scheme' path']|]|] eqn:E; try discriminate.
    injection Hs as _ <-. exact (IH false scheme' E Hx).
  - destruct (Ascii.eqb c ":"); [|discriminate].
    destruct first; [discriminate|]. now injection Hs as _ <-.
Qed.

Lemma getScheme_no_byte (x : ascii) (s scheme path : string) :
  plain.getScheme s = Some (scheme, path) ->
  reference.no_byte x s = true -> reference.no_byte x path = true.
Proof.
  unfold plain.getScheme.
  destruct (plain.scheme_from true s) as [[[scheme' path']|]|] eqn:E; try discriminate.
  - intros [= _ <-]. now apply (scheme_from_no_byte x true s scheme' path').
  - now intros [= _ <-].
Qed.

Lemma HasPrefix_slash (s : string) :
  reference.no_byte "/" s = true -> strings.HasPrefix s "/" = false.
Proof.
  destruct s as [|c s]; simpl; [reflexivity|].
  intros [Hc _]%andb_prop. apply negb_true_iff in Hc. now rewrite Hc.
Qed.

Lemma plain_authority_needs_slash : @reference.authority_needs_slash plain.lib.
Proof.
  intros s u Hs. simpl. unfold plain.url_Parse.
  destruct (existsb _ _); [discriminate|].
  pose proof (before_no_byte "/" "#" s Hs) as Hu.
  destruct (plain.getScheme _) as [[scheme rest]|] eqn:E; [|discriminate].
  pose proof (before_no_byte "/" "?" _ (getScheme_no_byte "/" _ _ _ E Hu)) as Hrest.
  rewrite (HasPrefix_slash _ Hrest). simpl.
  destruct (negb (String.eqb scheme "")); [now intros [= <-]|].
  destruct (plain.no_colon _); [now intros [= <-] | discriminate].
Qed.

(** The domain check on the examples of the specification. *)
Lemma IsValidUrl_examples :
  @service.IsValidUrl plain.lib "https://m.youtube.com/watch?v=x" = true
  /\ @service.IsValidUrl plain.lib "https://WWW.YouTube.com/watch?v=x" = true
  /\ @service.IsValidUrl plain.lib "https://evil.com/youtube.com" = false
  /\ @service.IsValidUrl plain.lib "dQw4w9WgXcQ" = false.
Proof. repeat split; vm_compute; reflexivity. Qed.

(** A run of [GetTranscripts_bare_id] on the identifier of the examples. *)
Lemma GetTranscripts_bare_id_witness :
  @service.GetTranscripts plain.lib sample.quiet
    {| service.VideoURL := "dQw4w9WgXcQ"; service.VideoID := "";
       service.IntervalSeconds := 0 |} initial
  = Some (Err ErrInvalidURL, initial).
Proof.
  exact (proj1 (@GetTranscripts_bare_id plain.lib sample.quiet
                  {| service.VideoURL := "dQw4w9WgXcQ"; service.VideoID := "";
                     service.IntervalSeconds := 0 |} initial
                  plain_authority_needs_slash eq_refl)).
Defined.

(** ** The in-memory cache *)

Ltac monad_unfold :=
  unfold bind, ret, log, tick, clock, cache_lookup, cache_store, new_response,
    new_transcript, load_response, load_transcript, store_response,
    repository.ctx_is_done in *.

(** What the copies of [Save] and [Get] do achieve: the struct itself is
    copied, so assignments to the fields of the caller's struct are not
    seen by a later [Get]. *)
Lemma Save_Get_struct_copy (W : World) (σ : state) (videoID : string) (t : loc)
    (v v' : TranscriptResponse) :
  videoID <> EmptyString ->
  ctx_done W (now σ) = false ->
  responses σ !! t = Some v ->
  (t < next σ)%positive ->
  exists σ1 σ2 σ3 p,
    repository.Save W videoID (Some t) σ = Some (None, σ1)
    /\ store_response t v' σ1 = Some (tt, σ2)
    /\ repository.Get W videoID σ2 = Some (Ok p, σ3)
    /\ p <> t
    /\ responses σ3 !! p = Some v.
Proof.
  intros Hid Hctx Ht Hlt.
  assert (Hne : next σ <> t) by lia.
  unfold repository.Save, repository.Get. monad_unfold. simpl.
  destruct (String.eqb_spec videoID ""); [contradiction|]. simpl.
  rewrite Hctx. simpl. rewrite Ht. simpl.
  do 4 eexists. split; [reflexivity|]. simpl.
  rewrite lookup_insert_ne by assumption. rewrite Ht. simpl.
  split; [reflexivity|]. simpl.
  rewrite Hctx. simpl. rewrite lookup_insert_eq. simpl.
  rewrite lookup_insert_ne by congruence. rewrite lookup_insert_eq. simpl.
  split; [reflexivity|]. split; [lia|]. simpl.
  apply lookup_insert_eq.
Qed.

(** C1 at the failing input.  A caller saves a response, then writes to the
    transcript behind [Raw] and to the array behind [Formatted] (and to
    the title of its own struct); the response that [Get] returns shows
    the old title but the new segment text and the new formatted string:
    the copies made by [Save] and [Get] share [Raw] and the backing array
    of [Formatted] with the caller. *)
Theorem Save_Get_shares_transcript :
  option_map fst (caller.put_mutate_get sample.quiet "dQw4w9WgXcQ" initial)
  = Some ({| caller.title := "title";
             caller.segments :=
               Some [ {| Text := "hello"; StartTime := 0; Duration := 1 |} ];
             caller.formatted := Some ["(00:00) hello"] |},
          Ok {| caller.title := "title";
                caller.segments :=
                  Some [ {| Text := "changed"; StartTime := 0; Duration := 1 |} ];
                caller.formatted := Some ["changed"] |}).
Proof. vm_compute. reflexivity. Qed.

(** ** Cancellation and the two network stages *)

Section Stages.
Context `{GoLib}.
Variable W : World.

(** When the context is done at stage 1, the fetch stops there. *)
Lemma GetTranscript_cancelled_stage1 (videoID : string) (σ : state) :
  ctx_done W (now σ) = true ->
  exists σ',
    Client.GetTranscript W videoID σ
    = Some (Err (ErrWrap (ErrWrap ErrContext "failed to perform request")
                         "failed to get player response"), σ')
    /\ trace σ' = trace σ ++ [EvPost videoID].
Proof.
  intros Hctx. unfold Client.GetTranscript, Client.getPlayerResponse. monad_unfold.
  simpl. rewrite Hctx. simpl. eexists. split; reflexivity.
Qed.

(** Stage 2 does not look at the context: once stage 1 has returned
    caption tracks, the GET is issued, whatever [ctx_done] says at the next
    instant. *)
Lemma GetTranscript_stage2_attempted (videoID : string) (σ : state)
    (playerResp : playerResponse) :
  ctx_done W (now σ) = false ->
  player W (now σ) videoID = Reply 200 (Some playerResp) ->
  CaptionTracks playerResp <> [] ->
  exists r σ',
    Client.GetTranscript W videoID σ = Some (r, σ')
    /\ exists later,
         trace σ'
         = trace σ ++ [EvPost videoID;
                       EvGet (fmt.Sprintf "%s&fmt=ttml"
                                [fmt.S (Client.select_caption_url
                                          (CaptionTracks playerResp))])] ++ later.
Proof.
  intros Hctx Hplayer Htracks.
  unfold Client.GetTranscript, Client.getPlayerResponse. monad_unfold.
  simpl. rewrite Hctx. simpl. rewrite Hplayer. simpl.
  destruct (CaptionTracks playerResp) as [|track tracks] eqn:E; [contradiction|].
  simpl.
  match goal with
  | |- context [fetch W ?t ?u] => destruct (fetch W t u) as [msg | status body]
  end; simpl.
  - do 2 eexists. split; [reflexivity|]. exists []. now rewrite <- app_assoc.
  - destruct (negb (status =? 200)); simpl.
    + do 2 eexists. split; [reflexivity|]. exists []. now rewrite <- app_assoc.
    + destruct body as [bodyBytes|]; simpl.
      * destruct (Client.parseTTMLTranscript bodyBytes); simpl;
          do 2 eexists; (split; [reflexivity|]); exists []; simpl;
          now rewrite <- app_assoc.
      * do 2 eexists. split; [reflexivity|]. exists []. now rewrite <- app_assoc.
Qed.

(** Without caption tracks the fetch fails after stage 1; no GET is
    issued. *)
Lemma GetTranscript_no_tracks (videoID : string) (σ : state)
    (playerResp : playerResponse) :
  ctx_done W (now σ) = false ->
  player W (now σ) videoID = Reply 200 (Some playerResp) ->
  CaptionTracks playerResp = [] ->
  exists σ',
    Client.GetTranscript W videoID σ
    = Some (Err (ErrNew "no caption tracks available"), σ')
    /\ trace σ' = trace σ ++ [EvPost videoID].
Proof.
  intros Hctx Hplayer Htracks.
  unfold Client.GetTranscript, Client.getPlayerResponse. monad_unfold.
  simpl. rewrite Hctx. simpl. rewrite Hplayer. simpl. rewrite Htracks. simpl.
  eexists. split; reflexivity.
Qed.

End Stages.

(** C2 at the failing input.  The context is live during stage 1 (instant
    0) and done from instant 1 on; the provider answers both requests.
    [GetTranscript] still issues the GET of stage 2 and returns the
    transcript, not a cancellation error. *)
Theorem GetTranscript_ignores_cancellation :
  ctx_done sample.cancelled_after_stage1 0 = false
  /\ ctx_done sample.cancelled_after_stage1 1 = true
  /\ option_map (fun out => (is_Ok (fst out), trace (snd out)))
       (@Client.GetTranscript plain.lib sample.cancelled_after_stage1
          "dQw4w9WgXcQ" initial)
     = Some (true, [EvPost "dQw4w9WgXcQ"; EvGet "https://c/en&fmt=ttml"]).
Proof. vm_compute. repeat split; reflexivity. Qed.

(** ** The HTTP handler *)

Lemma FormatTranscript_no_error (transcript : option Transcript) (intervalSeconds : float64) :
  snd (Client.FormatTranscript transcript intervalSeconds) = None.
Proof.
  unfold Client.FormatTranscript. destruct transcript as [t|]; [|reflexivity].
  now destruct (Segments t).
Qed.

Section Handler.
Context `{GoLib}.
Variable W : World.

(** The errors of [GetTranscripts]: the two sentinels, or a failed fetch. *)
Lemma GetTranscripts_errors (req : service.TranscriptRequest) (σ σ1 : state) (e : error) :
  service.GetTranscripts W req σ = Some (Err e, σ1) ->
  e = ErrInvalidURL \/ e = ErrNoTranscript
  \/ exists cause, e = ErrorfW ErrFailedToGet cause.
Proof.
  unfold service.GetTranscripts.
  destruct (_ || _); [intros [= <- _]; auto|].
  destruct (String.eqb _ ""); [intros [= <- _]; auto|].
  unfold bind at 1.
  destruct (repository.Get W _ σ) as [[cached σa]|]; [|discriminate].
  unfold bind at 1.
  assert (Hfetch : forall videoID σb σc e',
             service.fetch_and_cache W videoID σb = Some (Err e', σc) ->
             e' = ErrNoTranscript \/ exists cause, e' = ErrorfW ErrFailedToGet cause).
  { intros videoID σb σc e'. unfold service.fetch_and_cache. unfold bind at 1.
    destruct (Client.GetTranscript W videoID σb) as [[r σd]|]; [|discriminate].
    destruct r as [p|err]; [|intros [= <- _]; eauto].
    monad_unfold.
    destruct (responses σd !! p) as [resp|]; [|discriminate].
    destruct (Raw resp) as [raw|]; [|intros [= <- _]; auto].
    destruct (transcripts σd !! raw) as [t|]; [|discriminate].
    destruct (length (Segments t) =? 0)%nat; [intros [= <- _]; auto|].
    destruct (repository.Save W videoID (Some p) σd) as [[? ?]|]; discriminate. }
  destruct cached as [p|err].
  - unfold ret at 1. monad_unfold.
    destruct (responses σa !! p) as [yr|]; [|discriminate].
    destruct (Raw yr) as [raw|].
    + destruct (transcripts σa !! raw) as [t|]; [|discriminate].
      pose proof (FormatTranscript_no_error (Some t)
                    (if (service.IntervalSeconds req <=? 0)%float then 10%float
                     else service.IntervalSeconds req)) as Hf.
      destruct (Client.FormatTranscript _ _) as [out [ferr|]]; simpl in Hf; discriminate.
    + pose proof (FormatTranscript_no_error None
                    (if (service.IntervalSeconds req <=? 0)%float then 10%float
                     else service.IntervalSeconds req)) as Hf.
      destruct (Client.FormatTranscript _ _) as [out [ferr|]]; simpl in Hf; discriminate.
  - destruct (service.fetch_and_cache W _ σa) as [[got σb]|] eqn:E; [|discriminate].
    destruct got as [p|e'].
    + monad_unfold.
      destruct (responses σb !! p) as [yr|]; [|discriminate].
      destruct (Raw yr) as [raw|].
      * destruct (transcripts σb !! raw) as [t|]; [|discriminate].
        pose proof (FormatTranscript_no_error (Some t)
                      (if (service.IntervalSeconds req <=? 0)%float then 10%float
                       else service.IntervalSeconds req)) as Hf.
        destruct (Client.FormatTranscript _ _) as [out [ferr|]]; simpl in Hf; discriminate.
      * pose proof (FormatTranscript_no_error None
                      (if (service.IntervalSeconds req <=? 0)%float then 10%float
                       else service.IntervalSeconds req)) as Hf.
        destruct (Client.FormatTranscript _ _) as [out [ferr|]]; simpl in Hf; discriminate.
    + intros [= <- _]. apply Hfetch in E. tauto.
Qed.

Lemma GetTranscripts_rejects (req : service.TranscriptRequest) (σ : state) :
  service.VideoID req = EmptyString ->
  service.VideoURL req = EmptyString
  \/ service.IsValidUrl (service.VideoURL req) = false
  \/ service.ExtractVideoId (service.VideoURL req) = EmptyString ->
  service.GetTranscripts W req σ = Some (Err ErrInvalidURL, σ).
Proof.
  intros Hid Hbad. unfold service.GetTranscripts. rewrite Hid. simpl.
  destruct Hbad as [-> | [-> | ->]]; simpl.
  - reflexivity.
  - now rewrite orb_true_r.
  - now destruct (_ || _).
Qed.

(** C3, amended: the statuses of the transcript endpoint.  A request whose
    method is not GET is answered with 405.  For a GET request: a missing
    [videoUrl], a URL that fails the domain check or a URL without video
    identifier gives 400; a failure of the service other than "invalid
    URL" and "no transcript", which is then a failed fetch, gives 500;
    success with a transcript gives 200, and the body holds title, raw
    segments and formatted groups when the segments can be encoded. *)
Theorem handleGetTranscripts_status (req : router.Request) (σ : state) :
  (router.Method req <> "GET"%string ->
   exists w, router.handleGetTranscripts W router.fresh_writer req σ = Some (w, σ)
             /\ router.status w = Some 405)
  /\ (router.Method req = "GET"%string ->
      (router.videoUrl req = EmptyString
       \/ service.IsValidUrl (router.videoUrl req) = false
       \/ service.ExtractVideoId (router.videoUrl req) = EmptyString ->
       exists w, router.handleGetTranscripts W router.fresh_writer req σ = Some (w, σ)
                 /\ router.status w = Some 400)
      /\ (forall e σ1,
            router.videoUrl req <> EmptyString ->
            service.GetTranscripts W (router.service_request req) σ = Some (Err e, σ1) ->
            e <> ErrInvalidURL -> e <> ErrNoTranscript ->
            (exists cause, e = ErrorfW ErrFailedToGet cause)
            /\ exists w, router.handleGetTranscripts W router.fresh_writer req σ
                         = Some (w, σ1)
                         /\ router.status w = Some 500)
      /\ (forall resp σ1 p t,
            router.videoUrl req <> EmptyString ->
            service.GetTranscripts W (router.service_request req) σ = Some (Ok resp, σ1) ->
            service.Raw resp = Some p ->
            transcripts σ1 !! p = Some t ->
            exists w, router.handleGetTranscripts W router.fresh_writer req σ
                      = Some (w, σ1)
                      /\ router.status w = Some 200
                      /\ (router.encodable (Segments t) = true ->
                          router.written w
                          = [router.Transcript (service.Title resp)
                               (Some (Segments t)) (service.Formatted resp)]))).
Proof.
  split.
  - intros Hm. unfold router.handleGetTranscripts.
    destruct (String.eqb_spec (router.Method req) "GET"); [contradiction|].
    simpl. eexists. split; reflexivity.
  - intros Hm. unfold router.handleGetTranscripts. rewrite Hm. simpl.
    split; [|split].
    + intros Hbad. destruct (String.eqb_spec (router.videoUrl req) "") as [E|E].
      * eexists. split; reflexivity.
      * unfold bind.
        rewrite (GetTranscripts_rejects (router.service_request req) σ eq_refl Hbad).
        eexists. split; reflexivity.
    + intros e σ1 Hurl Hrun He1 He2.
      destruct (GetTranscripts_errors _ _ _ _ Hrun) as [-> | [-> | [cause ->]]];
        [contradiction | contradiction |].
      split; [eauto|].
      destruct (String.eqb_spec (router.videoUrl req) ""); [contradiction|].
      unfold bind. rewrite Hrun. eexists. split; reflexivity.
    + intros resp σ1 p t Hurl Hrun Hraw Ht.
      destruct (String.eqb_spec (router.videoUrl req) ""); [contradiction|].
      unfold bind at 1. rewrite Hrun, Hraw. monad_unfold. rewrite Ht. simpl.
      destruct (router.encodable (Segments t)); eexists; split; try reflexivity;
        split; try reflexivity; discriminate.
Qed.

End Handler.

(** C3, as the claim states it, fails for a request that is not a GET: the
    answer is a failure with status 405, which is none of 400, 404, 500. *)
Lemma handleGetTranscripts_post :
  option_map (fun out => router.status (fst out))
    (@router.handleGetTranscripts plain.lib sample.live router.fresh_writer
       sample.post_request initial)
  = Some (Some 405)
  /\ ~ In 405 reference.named_statuses.
Proof.
  split; [vm_compute; reflexivity|].
  unfold reference.named_statuses. simpl. intros [E | [E | [E | [E | []]]]]; discriminate.
Qed.

(** The branch of the handler for "no transcript" is not the one taken when
    the fetch yields no segment: the service returns [ErrNoTranscript]
    and the handler answers 500. *)
Lemma handleGetTranscripts_no_content :
  option_map fst
    (@service.GetTranscripts plain.lib sample.no_content
       (@router.service_request plain.lib sample.get_request) initial)
  = Some (Err ErrNoTranscript)
  /\ option_map fst
       (@router.handleGetTranscripts plain.lib sample.no_content router.fresh_writer
          sample.get_request initial)
     = Some {| router.status := Some 500;
               router.written :=
                 [router.ErrorResponse "Internal Server Error" "Internal server error"] |}.
Proof. split; vm_compute; reflexivity. Qed.

(** A run of [handleGetTranscripts_status]: a GET for a URL of another
    domain is answered with 400. *)
Lemma handleGetTranscripts_status_witness :
  exists w,
    @router.handleGetTranscripts plain.lib sample.live router.fresh_writer
      {| router.Method := "GET"; router.videoUrl := "https://evil.com/youtube.com";
         router.interval := "" |} initial
    = Some (w, initial)
    /\ router.status w = Some 400.
Proof.
  apply (proj1 (proj2 (@handleGetTranscripts_status plain.lib sample.live
                         {| router.Method := "GET";
                            router.videoUrl := "https://evil.com/youtube.com";
                            router.interval := "" |} initial) eq_refl)).
  right. left. vm_compute. reflexivity.
Defined.

(** The success path on the sample world: status 200 with title, raw
    segments and one formatted group. *)
Lemma handleGetTranscripts_success :
  option_map fst
    (@router.handleGetTranscripts plain.lib sample.live router.fresh_writer
       sample.get_request initial)
  = Some {| router.status := Some 200;
            router.written :=
              [router.Transcript "T"
                 (Some [ {| Text := "first"; StartTime := 1; Duration := 3 |};
                         {| Text := "third"; StartTime := 4.5; Duration := 4.5 |} ])
                 ["(00:01) first third"]] |}.
Proof. vm_compute. reflexivity. Qed.

(** * Further properties of the code *)

(** ** MemoryRepository *)

Lemma size_insert_any {A} (m : gmap string A) (k : string) (a b : A) :
  size (<[k := a]> m) = size (<[k := b]> m).
Proof.
  rewrite <- (insert_delete_eq m k a), <- (insert_delete_eq m k b).
  now rewrite !map_size_insert_None by apply lookup_delete_eq.
Qed.

Section Repository.
Variable W : World.

(** The three outcomes of [Save] as equations on the state. *)
Lemma Save_run (videoID : string) (t : loc) (v : TranscriptResponse) (σ : state) :
  videoID <> EmptyString ->
  ctx_done W (now σ) = false ->
  responses σ !! t = Some v ->
  repository.Save W videoID (Some t) σ
  = Some (None,
          {| responses := <[next σ := v]> (responses σ);
             transcripts := transcripts σ; arrays := arrays σ;
             next := Pos.succ (next σ);
             cache := <[videoID := Some (next σ)]> (cache σ);
             now := now σ; trace := trace σ ++ [EvCacheSave videoID] |}).
Proof.
  intros Hid Hctx Ht. unfold repository.Save. monad_unfold. simpl.
  destruct (String.eqb_spec videoID ""); [contradiction|]. simpl.
  rewrite Hctx. simpl. rewrite Ht. reflexivity.
Qed.

Lemma Get_run (videoID : string) (q : loc) (v : TranscriptResponse) (σ : state) :
  videoID <> EmptyString ->
  ctx_done W (now σ) = false ->
  cache σ !! videoID = Some (Some q) ->
  responses σ !! q = Some v ->
  repository.Get W videoID σ
  = Some (Ok (next σ),
          {| responses := <[next σ := v]> (responses σ);
             transcripts := transcripts σ; arrays := arrays σ;
             next := Pos.succ (next σ);
             cache := cache σ;
             now := now σ; trace := trace σ ++ [EvCacheGet videoID] |}).
Proof.
  intros Hid Hctx Hc Hq. unfold repository.Get. monad_unfold. simpl.
  destruct (String.eqb_spec videoID ""); [contradiction|]. simpl.
  rewrite Hctx. simpl. rewrite Hc. simpl. rewrite Hq. reflexivity.
Qed.

(** X1: insert then lookup.  In a well-formed state, with a live context,
    [Save] of an allocated response under a non-empty identifier succeeds,
    and a following [Get] of that identifier returns a pointer to a new
    struct, different from the caller's pointer, whose fields are those of
    the struct that was saved; the caller's struct is left as it was. *)
Theorem Save_then_Get (σ : state) (videoID : string) (t : loc) (v : TranscriptResponse) :
  wf.heap_ok σ ->
  videoID <> EmptyString ->
  ctx_done W (now σ) = false ->
  responses σ !! t = Some v ->
  exists σ1 σ2 p,
    repository.Save W videoID (Some t) σ = Some (None, σ1)
    /\ repository.Get W videoID σ1 = Some (Ok p, σ2)
    /\ p <> t
    /\ responses σ2 !! p = Some v
    /\ responses σ2 !! t = Some v.
Proof.
  intros Hheap Hid Hctx Ht. pose proof (Hheap t v Ht) as Hlt.
  rewrite (Save_run videoID t v σ Hid Hctx Ht).
  do 3 eexists. split; [reflexivity|].
  rewrite (Get_run videoID (next σ) v); simpl; try assumption;
    try apply lookup_insert_eq.
  split; [reflexivity|]. simpl.
  split; [lia|]. split; [apply lookup_insert_eq|].
  rewrite !lookup_insert_ne by lia. assumption.
Qed.

(** Every run of [Save], by cases. *)
Lemma Save_cases (videoID : string) (tr : option loc) (σ σ1 : state) (r : option error) :
  repository.Save W videoID tr σ = Some (r, σ1) ->
  transcripts σ1 = transcripts σ /\ arrays σ1 = arrays σ /\ now σ1 = now σ
  /\ trace σ1 = trace σ ++ [EvCacheSave videoID]
  /\ ((r <> None /\ responses σ1 = responses σ /\ cache σ1 = cache σ
       /\ next σ1 = next σ)
      \/ (r = None /\ videoID <> EmptyString /\ ctx_done W (now σ) = false
          /\ exists t v, tr = Some t /\ responses σ !! t = Some v
               /\ responses σ1 = <[next σ := v]> (responses σ)
               /\ cache σ1 = <[videoID := Some (next σ)]> (cache σ)
               /\ next σ1 = Pos.succ (next σ))).
Proof.
  unfold repository.Save. monad_unfold. simpl.
  destruct (String.eqb_spec videoID "") as [E|E]; simpl.
  - intros [= <- <-]. simpl. do 4 (split; [reflexivity|]).
    left. repeat split; auto; discriminate.
  - destruct tr as [t|]; simpl.
    + destruct (ctx_done W (now σ)) eqn:Hctx; simpl.
      * intros [= <- <-]. simpl. do 4 (split; [reflexivity|]).
        left. repeat split; auto; discriminate.
      * destruct (responses σ !! t) as [v|] eqn:Ht; [|discriminate].
        intros [= <- <-]. simpl. do 4 (split; [reflexivity|]).
        right. do 3 (split; [assumption || reflexivity|]). exists t, v. auto.
    + intros [= <- <-]. simpl. do 4 (split; [reflexivity|]).
      left. repeat split; auto; discriminate.
Qed.

(** Every run of [Get], by cases. *)
Lemma Get_cases (videoID : string) (σ σ1 : state) (r : result loc) :
  repository.Get W videoID σ = Some (r, σ1) ->
  transcripts σ1 = transcripts σ /\ arrays σ1 = arrays σ /\ now σ1 = now σ
  /\ trace σ1 = trace σ ++ [EvCacheGet videoID]
  /\ cache σ1 = cache σ
  /\ ((exists e, r = Err e /\ responses σ1 = responses σ /\ next σ1 = next σ
         /\ (e = ErrNew "video ID cannot be empty" /\ videoID = EmptyString
             \/ e = ErrContext /\ ctx_done W (now σ) = true
             \/ e = ErrTranscriptNotFound /\ cache σ !! videoID = None
             \/ e = ErrInvalidTranscript /\ cache σ !! videoID = Some None))
      \/ (r = Ok (next σ) /\ videoID <> EmptyString /\ ctx_done W (now σ) = false
          /\ exists q v, cache σ !! videoID = Some (Some q)
               /\ responses σ !! q = Some v
               /\ responses σ1 = <[next σ := v]> (responses σ)
               /\ next σ1 = Pos.succ (next σ))).
Proof.
  unfold repository.Get. monad_unfold. simpl.
  destruct (String.eqb_spec videoID "") as [E|E]; simpl.
  - intros [= <- <-]. simpl. do 5 (split; [reflexivity|]).
    left. eexists. do 3 (split; [reflexivity|]). auto.
  - destruct (ctx_done W (now σ)) eqn:Hctx; simpl.
    + intros [= <- <-]. simpl. do 5 (split; [reflexivity|]).
      left. eexists. do 3 (split; [reflexivity|]). auto.
    + destruct (cache σ !! videoID) as [[q|]|] eqn:Hc; simpl.
      * destruct (responses σ !! q) as [v|] eqn:Hq; [|discriminate].
        intros [= <- <-]. simpl. do 5 (split; [reflexivity|]).
        right. do 3 (split; [assumption || reflexivity|]). exists q, v. auto.
      * intros [= <- <-]. simpl. do 5 (split; [reflexivity|]).
        left. eexists. do 3 (split; [reflexivity|]). auto 6.
      * intros [= <- <-]. simpl. do 5 (split; [reflexivity|]).
        left. eexists. do 3 (split; [reflexivity|]). auto 6.
Qed.

Lemma Clear_cases (σ σ1 : state) (r : option error) :
  repository.Clear W σ = Some (r, σ1) ->
  responses σ1 = responses σ /\ transcripts σ1 = transcripts σ /\ arrays σ1 = arrays σ
  /\ next σ1 = next σ /\ now σ1 = now σ /\ trace σ1 = trace σ
  /\ ((r = Some ErrContext /\ ctx_done W (now σ) = true /\ cache σ1 = cache σ)
      \/ (r = None /\ ctx_done W (now σ) = false /\ cache σ1 = ∅)).
Proof.
  unfold repository.Clear, cache_reset. monad_unfold. simpl.
  destruct (ctx_done W (now σ)) eqn:Hctx; simpl; intros [= <- <-]; simpl;
    do 6 (split; [reflexivity|]); [left | right]; auto.
Qed.


(** X3: [Get] only reads.  Whatever its outcome, [Get] leaves the cache,
    the transcripts and the arrays as they are and, in a well-formed state,
    every allocated response; on success its result is a location that was
    not allocated before. *)
Theorem Get_read_only (videoID : string) (σ σ1 : state) (r : result loc) :
  repository.Get W videoID σ = Some (r, σ1) ->
  wf.heap_ok σ ->
  cache σ1 = cache σ /\ transcripts σ1 = transcripts σ /\ arrays σ1 = arrays σ
  /\ (forall p v, responses σ !! p = Some v -> responses σ1 !! p = Some v)
  /\ (forall p, r = Ok p -> responses σ !! p = None /\ is_Some (responses σ1 !! p)).
Proof.
  intros Hrun Hheap.
  destruct (Get_cases _ _ _ _ Hrun) as (Htr & Harr & _ & _ & Hc & Hcase).
  repeat split; try assumption.
  - intros p v Hp.
    destruct Hcase as [(e & _ & Hr & _) | (_ & _ & _ & q & w & _ & _ & Hr & _)];
      rewrite Hr; [assumption|].
    pose proof (Hheap p v Hp). rewrite lookup_insert_ne by lia. assumption.
  - destruct Hcase as [(e & -> & _) | (-> & _)]; [discriminate|].
    injection H as <-.
    destruct (responses σ !! next σ) as [w|] eqn:E; [|reflexivity].
    pose proof (Hheap _ _ E). lia.
  - destruct Hcase as [(e & -> & _) | (-> & _ & _ & q & w & _ & _ & Hr & _)];
      [discriminate|].
    injection H as <-. rewrite Hr, lookup_insert_eq. eauto.
Qed.

(** X4: what the repository refuses.  An empty identifier is refused by
    [Get] and by [Save], and a nil transcript by [Save], with the error of
    that check even when the context is done.  With a non-empty identifier
    and a non-nil transcript, [Get], [Save] and [Clear] return the error
    of the context when it is done.  In each case the cache and the
    responses are left as they are. *)
Theorem repository_refusals (σ : state) (tr : option loc) (videoID : string) (t : loc) :
  videoID <> EmptyString ->
  (exists σ1, repository.Get W "" σ = Some (Err (ErrNew "video ID cannot be empty"), σ1)
              /\ cache σ1 = cache σ /\ responses σ1 = responses σ)
  /\ (exists σ1, repository.Save W "" tr σ
                 = Some (Some (ErrNew "video ID cannot be empty"), σ1)
                 /\ cache σ1 = cache σ /\ responses σ1 = responses σ)
  /\ (exists σ1, repository.Save W videoID None σ = Some (Some ErrInvalidTranscript, σ1)
                 /\ cache σ1 = cache σ /\ responses σ1 = responses σ)
  /\ (ctx_done W (now σ) = true ->
      (exists σ1, repository.Get W videoID σ = Some (Err ErrContext, σ1)
                  /\ cache σ1 = cache σ /\ responses σ1 = responses σ)
      /\ (exists σ1, repository.Save W videoID (Some t) σ = Some (Some ErrContext, σ1)
                     /\ cache σ1 = cache σ /\ responses σ1 = responses σ)
      /\ repository.Clear W σ = Some (Some ErrContext, σ)).
Proof.
  intros Hid. split; [|split; [|split]].
  - eexists. split; [reflexivity | split; reflexivity].
  - eexists. split; [reflexivity | split; reflexivity].
  - unfold repository.Save. monad_unfold. simpl.
    destruct (String.eqb_spec videoID ""); [contradiction|].
    eexists. split; [reflexivity | split; reflexivity].
  - intros Hctx. split; [|split].
    + unfold repository.Get. monad_unfold. simpl.
      destruct (String.eqb_spec videoID ""); [contradiction|]. simpl. rewrite Hctx.
      eexists. split; [reflexivity | split; reflexivity].
    + unfold repository.Save. monad_unfold. simpl.
      destruct (String.eqb_spec videoID ""); [contradiction|]. simpl. rewrite Hctx.
      eexists. split; [reflexivity | split; reflexivity].
    + unfold repository.Clear. monad_unfold. simpl. now rewrite Hctx.
Qed.

(** X5: [Clear] forgets everything.  With a live context [Clear] succeeds;
    afterwards [Size] is 0 and [Get] of any non-empty identifier answers
    "transcript not found". *)
Theorem Clear_empties (σ : state) (videoID : string) :
  ctx_done W (now σ) = false ->
  videoID <> EmptyString ->
  exists σ1 σ2,
    repository.Clear W σ = Some (None, σ1)
    /\ repository.Size σ1 = Some (0%nat, σ1)
    /\ repository.Get W videoID σ1 = Some (Err ErrTranscriptNotFound, σ2).
Proof.
  intros Hctx Hid. unfold repository.Clear, repository.Size, repository.Get, cache_reset.
  monad_unfold. simpl. rewrite Hctx. simpl.
  do 2 eexists. split; [reflexivity|]. simpl. split; [reflexivity|].
  destruct (String.eqb_spec videoID ""); [contradiction|]. simpl.
  rewrite Hctx. simpl. rewrite lookup_empty. reflexivity.
Qed.

(** X6: [Size] counts identifiers.  A successful [Save] adds one to [Size]
    when the identifier was not cached and leaves [Size] as it is when it
    was; a failed [Save] never changes it. *)
Theorem Save_Size (videoID : string) (tr : option loc) (σ σ1 : state) (r : option error) :
  repository.Save W videoID tr σ = Some (r, σ1) ->
  size (cache σ1)
  = match r, cache σ !! videoID with
    | None, None => S (size (cache σ))
    | _, _ => size (cache σ)
    end.
Proof.
  intros Hrun.
  destruct (Save_cases _ _ _ _ _ Hrun) as (_ & _ & _ & _ & Hcase).
  destruct Hcase as [(Hr & _ & Hc & _) | (-> & _ & _ & t & v & _ & _ & _ & Hc & _)].
  - rewrite Hc. destruct r; [reflexivity | contradiction].
  - rewrite Hc. destruct (cache σ !! videoID) as [e|] eqn:E.
    + rewrite <- (insert_id _ _ _ E) at 2. apply size_insert_any.
    + now apply map_size_insert_None.
Qed.

(** X7: well-formed states stay well-formed, and in them the cache never
    fails.  [Save], [Get] and [Clear] keep the invariant "every allocated
    response lies below the allocation pointer and every cache entry points
    to an allocated response"; in such a state [Get] does not panic and
    never answers "invalid transcript". *)
Theorem repository_keeps_ok (σ : state) :
  wf.ok σ ->
  (forall videoID tr r σ1, repository.Save W videoID tr σ = Some (r, σ1) -> wf.ok σ1)
  /\ (forall videoID r σ1, repository.Get W videoID σ = Some (r, σ1) -> wf.ok σ1)
  /\ (forall r σ1, repository.Clear W σ = Some (r, σ1) -> wf.ok σ1)
  /\ (forall videoID, exists r σ1,
        repository.Get W videoID σ = Some (r, σ1) /\ r <> Err ErrInvalidTranscript).
Proof.
  intros [Hheap Hcache]. split; [|split; [|split]].
  - intros videoID tr r σ1 Hrun.
    destruct (Save_cases _ _ _ _ _ Hrun) as (_ & _ & _ & _ & Hcase).
    destruct Hcase as [(_ & Hr & Hc & Hn) | (_ & _ & _ & t & v & _ & Ht & Hr & Hc & Hn)];
      split; intros x y; rewrite ?Hr, ?Hc, ?Hn.
    + apply Hheap.
    + apply Hcache.
    + destruct (decide (x = next σ)) as [-> | Hx].
      * intros _. lia.
      * rewrite lookup_insert_ne by congruence. intros Hp. pose proof (Hheap _ _ Hp). lia.
    + destruct (decide (x = videoID)) as [-> | Hx].
      * rewrite lookup_insert_eq. intros [= <-]. exists (next σ), v.
        split; [reflexivity | apply lookup_insert_eq].
      * rewrite lookup_insert_ne by congruence. intros He.
        destruct (Hcache _ _ He) as (p & w & -> & Hp). exists p, w. split; [reflexivity|].
        pose proof (Hheap _ _ Hp). rewrite lookup_insert_ne by lia. assumption.
  - intros videoID r σ1 Hrun.
    destruct (Get_cases _ _ _ _ Hrun) as (_ & _ & _ & _ & Hc & Hcase).
    destruct Hcase as [(e & _ & Hr & Hn & _) | (_ & _ & _ & q & v & _ & Hq & Hr & Hn)];
      split; intros x y; rewrite ?Hr, ?Hc, ?Hn.
    + apply Hheap.
    + apply Hcache.
    + destruct (decide (x = next σ)) as [-> | Hx].
      * intros _. lia.
      * rewrite lookup_insert_ne by congruence. intros Hp. pose proof (Hheap _ _ Hp). lia.
    + intros He. destruct (Hcache _ _ He) as (p & w & -> & Hp). exists p, w.
      split; [reflexivity|]. pose proof (Hheap _ _ Hp).
      rewrite lookup_insert_ne by lia. assumption.
  - intros r σ1 Hrun.
    destruct (Clear_cases _ _ _ Hrun) as (Hr & _ & _ & Hn & _ & _ & Hcase).
    split; intros x y; rewrite ?Hr, ?Hn.
    + apply Hheap.
    + destruct Hcase as [(_ & _ & Hc) | (_ & _ & Hc)]; rewrite Hc.
      * apply Hcache.
      * now rewrite lookup_empty.
  - intros videoID. unfold repository.Get. monad_unfold. simpl.
    destruct (String.eqb videoID ""); simpl; [do 2 eexists; split; [reflexivity | discriminate]|].
    destruct (ctx_done W (now σ)); simpl; [do 2 eexists; split; [reflexivity | discriminate]|].
    destruct (cache σ !! videoID) as [e|] eqn:E; simpl.
    + destruct (Hcache _ _ E) as (p & v & -> & Hp). simpl. rewrite Hp.
      do 2 eexists; split; [reflexivity | discriminate].
    + do 2 eexists; split; [reflexivity | discriminate].
Qed.

(** X8: the last [Save] wins.  Two successful saves under one identifier
    followed by [Get] give the struct of the second save, and [Size] counts
    the identifier once. *)
Theorem Save_overwrites (σ : state) (videoID : string) (t1 t2 : loc)
    (v1 v2 : TranscriptResponse) :
  wf.heap_ok σ ->
  videoID <> EmptyString ->
  ctx_done W (now σ) = false ->
  responses σ !! t1 = Some v1 ->
  responses σ !! t2 = Some v2 ->
  exists σ1 σ2 σ3 p,
    repository.Save W videoID (Some t1) σ = Some (None, σ1)
    /\ repository.Save W videoID (Some t2) σ1 = Some (None, σ2)
    /\ repository.Get W videoID σ2 = Some (Ok p, σ3)
    /\ responses σ3 !! p = Some v2
    /\ size (cache σ2) = size (cache σ1).
Proof.
  intros Hheap Hid Hctx Ht1 Ht2.
  pose proof (Hheap _ _ Ht2) as Hlt.
  rewrite (Save_run videoID t1 v1 σ Hid Hctx Ht1).
  do 4 eexists. split; [reflexivity|].
  rewrite (Save_run videoID t2 v2); simpl; try assumption;
    [|rewrite lookup_insert_ne by lia; assumption].
  split; [reflexivity|].
  rewrite (Get_run videoID (Pos.succ (next σ)) v2); simpl; try assumption;
    try apply lookup_insert_eq.
  split; [reflexivity|]. simpl. split; [apply lookup_insert_eq|].
  rewrite insert_insert_eq. apply size_insert_any.
Qed.

End Repository.

(** ** The number of groups *)

Lemma group_count_step (intervalSeconds : float64) (g : Client.grouping)
    (seg : TranscriptSegment) :
  (List.length (Client.finish g)
   <= List.length (Client.finish (Client.group_step intervalSeconds g seg))
   <= S (List.length (Client.finish g)))%nat
  /\ (Text seg <> EmptyString ->
      (1 <= List.length (Client.finish (Client.group_step intervalSeconds g seg)))%nat).
Proof.
  unfold Client.finish, Client.group_step.
  destruct (0 <? String.length (Client.groupText g))%nat eqn:Hg.
  - destruct (intervalSeconds <=? StartTime seg - Client.currentStart g)%float; simpl.
    + destruct (Text seg) as [|c s]; simpl; rewrite ?length_app; simpl;
        split; try lia; intros; lia.
    + rewrite Hg. simpl.
      assert (Hlen : (0 <? String.length ((Client.groupText g +:+ " ") +:+ Text seg))%nat
                     = true).
      { rewrite !length_append. apply Nat.ltb_lt. apply Nat.ltb_lt in Hg. lia. }
      rewrite Hlen, !length_app. simpl. split; intros; lia.
  - rewrite andb_false_r. rewrite Hg. simpl.
    apply Nat.ltb_ge in Hg.
    assert (Hgt : Client.groupText g = EmptyString)
      by (destruct (Client.groupText g); [reflexivity | simpl in Hg; lia]).
    rewrite Hgt. simpl.
    destruct (Text seg) as [|c s]; simpl; rewrite ?length_app; simpl;
      split; try lia; intros; try lia; congruence.
Qed.

Lemma group_count_fold (intervalSeconds : float64) (segs : list TranscriptSegment)
    (g : Client.grouping) :
  (List.length (Client.finish g)
   <= List.length (Client.finish (fold_left (Client.group_step intervalSeconds) segs g))
   <= List.length (Client.finish g) + List.length segs)%nat
  /\ (Exists (fun seg => Text seg <> EmptyString) segs ->
      (1 <= List.length (Client.finish
                           (fold_left (Client.group_step intervalSeconds) segs g)))%nat).
Proof.
  revert g. induction segs as [|seg segs IH]; intros g; simpl.
  - split; [lia|]. intros H. inversion H.
  - destruct (IH (Client.group_step intervalSeconds g seg)) as [Hb He].
    destruct (group_count_step intervalSeconds g seg) as [Hs Hn].
    split; [lia|]. intros Hex. inversion Hex as [? ? Hhd | ? ? Htl]; subst.
    + specialize (Hn Hhd). lia.
    + auto.
Qed.

(** X9: the number of groups.  [FormatTranscript] returns at most one
    group per segment, at least one group as soon as one segment has a
    text, and never an error. *)
Theorem FormatTranscript_count (segments : list TranscriptSegment)
    (intervalSeconds : float64) :
  snd (Client.FormatTranscript (Some {| Segments := segments |}) intervalSeconds) = None
  /\ (List.length (fst (Client.FormatTranscript (Some {| Segments := segments |})
                          intervalSeconds))
      <= List.length segments)%nat
  /\ (Exists (fun seg => Text seg <> EmptyString) segments ->
      (1 <= List.length (fst (Client.FormatTranscript (Some {| Segments := segments |})
                                intervalSeconds)))%nat).
Proof.
  unfold Client.FormatTranscript. simpl.
  destruct segments as [|first rest].
  - simpl. split; [reflexivity|]. split; [lia|]. intros H. inversion H.
  - set (g0 := {| Client.formatted := []; Client.currentStart := StartTime first;
                  Client.groupText := "" |}).
    destruct (group_count_fold intervalSeconds (first :: rest) g0) as [Hb He].
    simpl fst. simpl snd. split; [reflexivity|]. split; [|exact He].
    change (List.length (Client.finish g0)) with 0%nat in Hb. simpl in Hb |- *. lia.
Qed.

(** ** The fetcher, by cases *)

Section Service.
Context `{GoLib}.
Variable W : World.

(** Every run of [GetTranscript], by cases. *)
Lemma GetTranscript_cases (videoID : string) (σ : state) :
  exists r σ1,
    Client.GetTranscript W videoID σ = Some (r, σ1)
    /\ cache σ1 = cache σ /\ arrays σ1 = arrays σ
    /\ (exists later, trace σ1 = trace σ ++ EvPost videoID :: later
                      /\ (later = [] \/ exists url, later = [EvGet url]))
    /\ (now σ <= now σ1 <= now σ + 2)%nat
    /\ ((exists e, r = Err e /\ responses σ1 = responses σ
           /\ transcripts σ1 = transcripts σ /\ next σ1 = next σ)
        \/ (exists title segs,
              r = Ok (Pos.succ (next σ))
              /\ now σ1 = (now σ + 2)%nat
              /\ Forall (fun seg => Text seg <> EmptyString) segs
              /\ responses σ1
                 = <[Pos.succ (next σ) := {| Title := title; Raw := Some (next σ);
                                             Formatted := nil_slice |}]> (responses σ)
              /\ transcripts σ1 = <[next σ := {| Segments := segs |}]> (transcripts σ)
              /\ next σ1 = Pos.succ (Pos.succ (next σ)))).
Proof.
  unfold Client.GetTranscript, Client.getPlayerResponse. monad_unfold. simpl.
  assert (Hget : forall url, [EvGet url] = [] \/ exists u, [EvGet url] = [EvGet u])
    by (intros url; right; eauto).
  destruct (ctx_done W (now σ)); simpl.
  { do 2 eexists. split; [reflexivity|]. simpl. do 2 (split; [reflexivity|]).
    split; [exists []; split; [reflexivity | left; reflexivity]|]. split; [lia|].
    left. eexists. repeat split. }
  destruct (player W (now σ) videoID) as [msg | status body]; simpl.
  { do 2 eexists. split; [reflexivity|]. simpl. do 2 (split; [reflexivity|]).
    split; [exists []; split; [reflexivity | left; reflexivity]|]. split; [lia|].
    left. eexists. repeat split. }
  destruct (negb (status =? 200)); simpl.
  { do 2 eexists. split; [reflexivity|]. simpl. do 2 (split; [reflexivity|]).
    split; [exists []; split; [reflexivity | left; reflexivity]|]. split; [lia|].
    left. eexists. repeat split. }
  destruct body as [playerResp|]; simpl.
  2:{ do 2 eexists. split; [reflexivity|]. simpl. do 2 (split; [reflexivity|]).
      split; [exists []; split; [reflexivity | left; reflexivity]|]. split; [lia|].
      left. eexists. repeat split. }
  destruct (length (CaptionTracks playerResp) =? 0)%nat; simpl.
  { do 2 eexists. split; [reflexivity|]. simpl. do 2 (split; [reflexivity|]).
    split; [exists []; split; [reflexivity | left; reflexivity]|]. split; [lia|].
    left. eexists. repeat split. }
  match goal with
  | |- context [fetch W ?t ?u] => destruct (fetch W t u) as [msg | status2 body2]
  end; simpl.
  { do 2 eexists. split; [reflexivity|]. simpl. do 2 (split; [reflexivity|]).
    split; [eexists; split; [rewrite <- app_assoc; reflexivity | apply Hget]|].
    split; [lia|]. left. eexists. repeat split. }
  destruct (negb (status2 =? 200)); simpl.
  { do 2 eexists. split; [reflexivity|]. simpl. do 2 (split; [reflexivity|]).
    split; [eexists; split; [rewrite <- app_assoc; reflexivity | apply Hget]|].
    split; [lia|]. left. eexists. repeat split. }
  destruct body2 as [bodyBytes|]; simpl.
  2:{ do 2 eexists. split; [reflexivity|]. simpl. do 2 (split; [reflexivity|]).
      split; [eexists; split; [rewrite <- app_assoc; reflexivity | apply Hget]|].
      split; [lia|]. left. eexists. repeat split. }
  unfold Client.parseTTMLTranscript.
  destruct (xml_Decode bodyBytes) as [ttml|]; simpl.
  2:{ do 2 eexists. split; [reflexivity|]. simpl. do 2 (split; [reflexivity|]).
      split; [eexists; split; [rewrite <- app_assoc; reflexivity | apply Hget]|].
      split; [lia|]. left. eexists. repeat split. }
  do 2 eexists. split; [reflexivity|]. simpl. do 2 (split; [reflexivity|]).
  split; [eexists; split; [rewrite <- app_assoc; reflexivity | apply Hget]|].
  split; [lia|]. right. do 2 eexists. split; [reflexivity|]. split; [lia|].
  split; [|repeat split].
  rewrite fold_paragraph_step. apply parse_texts.
Qed.
End Service.

(** ** The service: states and cases *)

Lemma extends_refl (σ : state) : wf.extends σ σ.
Proof. split; [lia | split; auto]. Qed.

Lemma extends_trans (σ σ1 σ2 : state) :
  wf.extends σ σ1 -> wf.extends σ1 σ2 -> wf.extends σ σ2.
Proof.
  intros (Hn & Hr & Ht) (Hn' & Hr' & Ht'). split; [lia | split; auto].
Qed.

Lemma entry_ok_extends (σ σ1 : state) (entry : option loc) :
  wf.extends σ σ1 -> wf.entry_ok σ entry -> wf.entry_ok σ1 entry.
Proof.
  intros (_ & Hr & Ht) (p & v & raw & t & -> & Hp & Hraw & Hrawt & Hne & Htexts).
  exists p, v, raw, t. repeat split; auto.
Qed.

Lemma initial_served : wf.served initial.
Proof.
  split; [|split].
  - intros p v Hp. simpl in Hp. now rewrite lookup_empty in Hp.
  - intros p v Hp. simpl in Hp. now rewrite lookup_empty in Hp.
  - intros id e Hc. simpl in Hc. now rewrite lookup_empty in Hc.
Qed.

(** A map extended at the allocation pointer stays below the new one. *)
Ltac fresh_below Hbelow :=
  let p := fresh "p" in let v := fresh "v" in let Hp := fresh "Hp" in
  intros p v Hp; simpl in Hp |- *;
  repeat (apply lookup_insert_Some in Hp as [[<- _]|[_ Hp]]; [lia|]);
  pose proof (Hbelow p v Hp); lia.

Section Cache.
Context `{GoLib}.
Variable W : World.

(** Every run of the cache-miss branch, by cases. *)
Lemma fetch_and_cache_cases (videoID : string) (σ : state) :
  wf.heap_ok σ -> wf.transcripts_ok σ ->
  exists r σ1,
    service.fetch_and_cache W videoID σ = Some (r, σ1)
    /\ wf.heap_ok σ1 /\ wf.transcripts_ok σ1 /\ wf.extends σ σ1
    /\ arrays σ1 = arrays σ
    /\ (exists later, trace σ1 = trace σ ++ EvPost videoID :: later)
    /\ (now σ <= now σ1 <= now σ + 2)%nat
    /\ ((exists e, r = Err e
           /\ (e = ErrNoTranscript \/ exists cause, e = ErrorfW ErrFailedToGet cause)
           /\ cache σ1 = cache σ)
        \/ (exists p v raw t,
              r = Ok p /\ responses σ1 !! p = Some v /\ Raw v = Some raw
              /\ transcripts σ1 !! raw = Some t /\ Segments t <> []
              /\ Forall (fun seg => Text seg <> EmptyString) (Segments t)
              /\ now σ1 = (now σ + 2)%nat
              /\ ((cache σ1 = cache σ
                   /\ (videoID = EmptyString \/ ctx_done W (now σ1) = true))
                  \/ (videoID <> EmptyString /\ ctx_done W (now σ1) = false
                      /\ exists q, cache σ1 = <[videoID := Some q]> (cache σ)
                                   /\ responses σ1 !! q = Some v)))).
Proof.
  intros Hheap Htr.
  destruct (GetTranscript_cases W videoID σ)
    as (r0 & σa & Hrun & Hcache & Harr & (later & Htrace & _) & Hnow & Hcase).
  unfold service.fetch_and_cache. unfold bind at 1. rewrite Hrun.
  destruct Hcase as [(e & -> & Hresp & Htrans & Hnext)
                    | (title & segs & -> & Hnow2 & Htexts & Hresp & Htrans & Hnext)].
  - do 2 eexists. split; [reflexivity|].
    split; [intros p v; rewrite Hresp, Hnext; apply Hheap|].
    split; [intros p v; rewrite Htrans, Hnext; apply Htr|].
    split; [split; [lia | split; intros p v; [rewrite Hresp | rewrite Htrans]; auto]|].
    split; [assumption|]. split; [eauto|]. split; [assumption|].
    left. eexists. split; [reflexivity|]. split; [eauto | assumption].
  - destruct σa as [resps trs arrs nxt cch nw trc]. simpl in *. subst.
    assert (Hfresh1 : forall p v, responses σ !! p = Some v -> p <> Pos.succ (next σ))
      by (intros p v Hp; pose proof (Hheap p v Hp); lia).
    assert (Hfresh2 : forall p v, responses σ !! p = Some v ->
                                  p <> Pos.succ (Pos.succ (next σ)))
      by (intros p v Hp; pose proof (Hheap p v Hp); lia).
    assert (Hfresh3 : forall p t, transcripts σ !! p = Some t -> p <> next σ)
      by (intros p t Hp; pose proof (Htr p t Hp); lia).
    monad_unfold. simpl. rewrite lookup_insert_eq. simpl. rewrite lookup_insert_eq.
    simpl. destruct segs as [|seg segs]; simpl.
    + do 2 eexists. split; [reflexivity|]. simpl.
      split; [fresh_below Hheap|].
      split; [fresh_below Htr|].
      split; [split; [simpl; lia | split; simpl; intros p v Hp;
              rewrite lookup_insert_ne by (symmetry; eauto); assumption]|].
      split; [reflexivity|]. split; [eauto|]. split; [lia|].
      left. eexists. split; [reflexivity|]. split; [auto | reflexivity].
    + unfold repository.Save. monad_unfold. simpl.
      destruct (String.eqb_spec videoID "") as [E|E]; simpl.
      * do 2 eexists. split; [reflexivity|]. simpl.
        split; [fresh_below Hheap|].
        split; [fresh_below Htr|].
        split; [split; [simpl; lia | split; simpl; intros p v Hp;
                rewrite lookup_insert_ne by (symmetry; eauto); assumption]|].
        split; [reflexivity|]. split; [eexists; rewrite <- app_assoc; reflexivity|].
        split; [lia|].
        right. do 4 eexists. split; [reflexivity|]. simpl.
        split; [apply lookup_insert_eq|]. split; [reflexivity|].
        split; [apply lookup_insert_eq|]. split; [discriminate|].
        split; [assumption|]. split; [reflexivity|]. left. auto.
      * destruct (ctx_done W (now σ + 2)) eqn:Hctx; simpl.
        -- do 2 eexists. split; [reflexivity|]. simpl.
           split; [fresh_below Hheap|].
           split; [fresh_below Htr|].
           split; [split; [simpl; lia | split; simpl; intros p v Hp;
                   rewrite lookup_insert_ne by (symmetry; eauto); assumption]|].
           split; [reflexivity|]. split; [eexists; rewrite <- app_assoc; reflexivity|].
           split; [lia|].
           right. do 4 eexists. split; [reflexivity|]. simpl.
           split; [apply lookup_insert_eq|]. split; [reflexivity|].
           split; [apply lookup_insert_eq|]. split; [discriminate|].
           split; [assumption|]. split; [reflexivity|]. left. auto.
        -- rewrite lookup_insert_eq. simpl.
           do 2 eexists. split; [reflexivity|]. simpl.
           split; [fresh_below Hheap|].
           split; [fresh_below Htr|].
           split; [split; [simpl; lia | split; simpl; intros p v Hp;
                   rewrite ?lookup_insert_ne by (symmetry; eauto); assumption]|].
           split; [reflexivity|]. split; [eexists; rewrite <- app_assoc; reflexivity|].
           split; [lia|].
           right. do 4 eexists. split; [reflexivity|]. simpl.
           split; [rewrite lookup_insert_ne by lia; apply lookup_insert_eq|].
           split; [reflexivity|].
           split; [apply lookup_insert_eq|]. split; [discriminate|].
           split; [assumption|]. split; [reflexivity|]. right.
           split; [assumption|]. split; [assumption|].
           eexists. split; [reflexivity | apply lookup_insert_eq].
Qed.

End Cache.

Section ServiceCases.
Context `{GoLib}.
Variable W : World.

Lemma Get_total (videoID : string) (σ : state) :
  (forall q, cache σ !! videoID = Some (Some q) -> is_Some (responses σ !! q)) ->
  exists r σ1, repository.Get W videoID σ = Some (r, σ1).
Proof.
  intros Hc. unfold repository.Get. monad_unfold. simpl.
  destruct (String.eqb videoID ""); simpl; [eauto|].
  destruct (ctx_done W (now σ)); simpl; [eauto|].
  destruct (cache σ !! videoID) as [[q|]|]; simpl; eauto.
  destruct (Hc q eq_refl) as [v ->]. eauto.
Qed.

Lemma FormatTranscript_fst (raw : option Transcript) (intervalSeconds : float64) :
  Client.FormatTranscript raw intervalSeconds
  = (fst (Client.FormatTranscript raw intervalSeconds), None).
Proof.
  pose proof (FormatTranscript_no_error raw intervalSeconds) as Hf.
  destruct (Client.FormatTranscript raw intervalSeconds) as [out e].
  simpl in *. now subst.
Qed.

(** Every run of [GetTranscripts] from a state that the service left
    behind, by cases. *)
Lemma GetTranscripts_cases (req : service.TranscriptRequest) (σ : state) :
  wf.served σ ->
  exists r σ1,
    service.GetTranscripts W req σ = Some (r, σ1)
    /\ wf.served σ1 /\ wf.extends σ σ1 /\ arrays σ1 = arrays σ
    /\ ((r = Err ErrInvalidURL /\ σ1 = σ
         /\ (service.VideoURL req = EmptyString
             \/ service.IsValidUrl (service.VideoURL req) = false
             \/ (locals.videoID req) = EmptyString))
        \/ (service.VideoURL req <> EmptyString
            /\ service.IsValidUrl (service.VideoURL req) = true
            /\ (locals.videoID req) <> EmptyString
            /\ ((exists q v raw t,
                   ctx_done W (now σ) = false
                   /\ cache σ !! (locals.videoID req) = Some (Some q)
                   /\ responses σ !! q = Some v /\ Raw v = Some raw
                   /\ transcripts σ !! raw = Some t
                   /\ r = Ok {| service.Title := Title v; service.Raw := Some raw;
                                service.Formatted :=
                                  fst (Client.FormatTranscript (Some t) (locals.interval req)) |}
                   /\ trace σ1 = trace σ ++ [EvCacheGet (locals.videoID req)]
                   /\ cache σ1 = cache σ /\ now σ1 = now σ)
                \/ ((ctx_done W (now σ) = true \/ cache σ !! (locals.videoID req) = None)
                    /\ (exists later,
                          trace σ1 = trace σ ++ EvCacheGet (locals.videoID req) :: EvPost (locals.videoID req) :: later)
                    /\ (now σ <= now σ1 <= now σ + 2)%nat
                    /\ ((exists e, r = Err e
                           /\ (e = ErrNoTranscript
                               \/ exists cause, e = ErrorfW ErrFailedToGet cause)
                           /\ cache σ1 = cache σ)
                        \/ (exists title raw t,
                              r = Ok {| service.Title := title; service.Raw := Some raw;
                                        service.Formatted :=
                                          fst (Client.FormatTranscript (Some t) (locals.interval req)) |}
                              /\ transcripts σ1 !! raw = Some t /\ Segments t <> []
                              /\ Forall (fun seg => Text seg <> EmptyString) (Segments t)
                              /\ now σ1 = (now σ + 2)%nat
                              /\ ((cache σ1 = cache σ /\ ctx_done W (now σ1) = true)
                                  \/ (ctx_done W (now σ1) = false
                                      /\ exists q v,
                                           cache σ1 = <[(locals.videoID req) := Some q]> (cache σ)
                                           /\ responses σ1 !! q = Some v
                                           /\ Title v = title
                                           /\ Raw v = Some raw)))))))).
Proof.
  intros Hserved. pose proof Hserved as (Hheap & Htr & Hcache).
  unfold service.GetTranscripts.
  change (if (service.IntervalSeconds req <=? 0)%float then 10%float
          else service.IntervalSeconds req) with (locals.interval req).
  change (if String.eqb (service.VideoID req) ""
          then service.ExtractVideoId (service.VideoURL req)
          else service.VideoID req) with (locals.videoID req).
  set (interval := locals.interval req). set (videoID := locals.videoID req).
  destruct (String.eqb_spec (service.VideoURL req) "") as [Eurl|Eurl]; simpl.
  { do 2 eexists. split; [reflexivity|]. split; [assumption|].
    split; [apply extends_refl|]. split; [reflexivity|]. left. auto. }
  destruct (service.IsValidUrl (service.VideoURL req)) eqn:Evalid; simpl.
  2:{ do 2 eexists. split; [reflexivity|]. split; [assumption|].
      split; [apply extends_refl|]. split; [reflexivity|]. left. auto. }
  destruct (String.eqb_spec videoID "") as [Eid|Eid].
  { do 2 eexists. split; [reflexivity|]. split; [assumption|].
    split; [apply extends_refl|]. split; [reflexivity|]. left. auto. }
  destruct (Get_total videoID σ) as (cached & σa & Hget).
  { intros q Hq. destruct (Hcache _ _ Hq) as (p & v & _ & _ & [= <-] & Hp & _). eauto. }
  unfold bind at 1. rewrite Hget.
  destruct (Get_cases W _ _ _ _ Hget)
    as (Htra & Harra & Hnowa & Htracea & Hcachea & Hcase).
  destruct Hcase as [(e & -> & Hrespa & Hnexta & Hwhy)
                    | (-> & _ & Hctx & q & v & Hq & Hv & Hrespa & Hnexta)].
  - (* miss *)
    assert (Hmiss : ctx_done W (now σ) = true \/ cache σ !! videoID = None).
    { destruct Hwhy as [[_ E]|[[_ E]|[[_ E]|[_ E]]]]; auto; try now exfalso.
      destruct (Hcache _ _ E) as (p & _ & _ & _ & [=] & _). }
    assert (Hexta : wf.extends σ σa).
    { split; [rewrite Hnexta; lia|].
      split; intros p x; [rewrite Hrespa | rewrite Htra]; auto. }
    destruct (fetch_and_cache_cases W videoID σa)
      as (r & σb & Hrun & Hheapb & Htrb & Hextb & Harrb & (later & Htraceb) & Hnowb & Hcaseb).
    { intros p x. rewrite Hrespa, Hnexta. apply Hheap. }
    { intros p x. rewrite Htra, Hnexta. apply Htr. }
    unfold bind at 1. rewrite Hrun.
    destruct Hcaseb as [(e' & -> & He' & Hcacheb)
                       | (p & v & raw & t & -> & Hp & Hraw & Ht & Hne & Htexts & Hnow2 & Hsave)].
    + do 2 eexists. split; [reflexivity|].
      split; [split; [assumption | split; [assumption|]]|].
      { intros id entry. rewrite Hcacheb, Hcachea. intros Hc.
        eapply entry_ok_extends; [|apply (Hcache _ _ Hc)].
        eapply extends_trans; eassumption. }
      split; [eapply extends_trans; eassumption|].
      split; [congruence|]. right. do 3 (split; [assumption || reflexivity|]). right.
      split; [assumption|].
      split; [exists later; rewrite Htraceb, Htracea, <- app_assoc; reflexivity|].
      split; [lia|]. left. eexists. split; [reflexivity|].
      split; [assumption | congruence].
    + monad_unfold. rewrite Hp, Hraw. simpl. rewrite Ht.
      rewrite (FormatTranscript_fst (Some t) interval).
      do 2 eexists. split; [reflexivity|].
      split; [split; [assumption | split; [assumption|]]|].
      { intros id entry Hc.
        destruct Hsave as [[Hcacheb _] | (_ & _ & q & Hcacheb & Hq)].
        - rewrite Hcacheb, Hcachea in Hc.
          eapply entry_ok_extends; [|apply (Hcache _ _ Hc)].
          eapply extends_trans; eassumption.
        - rewrite Hcacheb, Hcachea in Hc.
          apply lookup_insert_Some in Hc as [[_ <-]|[_ Hc]].
          + exists q, v, raw, t. repeat split; assumption.
          + eapply entry_ok_extends; [|apply (Hcache _ _ Hc)].
            eapply extends_trans; eassumption. }
      split; [eapply extends_trans; eassumption|].
      split; [congruence|]. right. do 3 (split; [assumption || reflexivity|]). right.
      split; [assumption|].
      split; [exists later; rewrite Htraceb, Htracea, <- app_assoc; reflexivity|].
      split; [lia|]. right. exists (Title v), raw, t.
      split; [reflexivity|]. do 3 (split; [assumption|]). split; [lia|].
      destruct Hsave as [[Hcacheb [E|Hd]] | (_ & Hd & q & Hcacheb & Hq)].
      * contradiction.
      * left. split; [congruence | assumption].
      * right. split; [assumption|]. exists q, v.
        split; [congruence|]. auto.
  - (* hit *)
    destruct (Hcache _ _ Hq) as (q' & v' & raw & t & [= <-] & Hv' & Hraw & Ht & Hne & Htexts).
    rewrite Hv in Hv'. injection Hv' as <-.
    unfold ret at 1. monad_unfold. rewrite Hrespa, lookup_insert_eq, Hraw. simpl.
    rewrite Htra, Ht. rewrite (FormatTranscript_fst (Some t) interval).
    assert (Hext : wf.extends σ σa).
    { split; [rewrite Hnexta; lia|].
      split; intros p x Hp; [rewrite Hrespa | rewrite Htra]; auto.
      rewrite lookup_insert_ne; [assumption|]. pose proof (Hheap p x Hp). lia. }
    do 2 eexists. split; [reflexivity|].
    split; [split; [|split]|].
    { intros p x. rewrite Hrespa, Hnexta. intros Hp.
      apply lookup_insert_Some in Hp as [[<- _]|[_ Hp]]; [lia|].
      pose proof (Hheap p x Hp). lia. }
    { intros p x. rewrite Htra, Hnexta. intros Hp. pose proof (Htr p x Hp). lia. }
    { intros id entry. rewrite Hcachea. intros Hc.
      eapply entry_ok_extends; [eassumption | apply (Hcache _ _ Hc)]. }
    split; [assumption|]. split; [assumption|]. right.
    do 3 (split; [assumption || reflexivity|]). left.
    exists q, v, raw, t. repeat split; assumption.
Qed.

End ServiceCases.

Lemma FormatTranscript_nonempty (t : Transcript) (intervalSeconds : float64) :
  Segments t <> [] ->
  Forall (fun seg => Text seg <> EmptyString) (Segments t) ->
  fst (Client.FormatTranscript (Some t) intervalSeconds) <> [].
Proof.
  intros Hne Htexts. unfold Client.FormatTranscript.
  destruct (Segments t) as [|first rest] eqn:E; [contradiction|].
  set (g0 := {| Client.formatted := []; Client.currentStart := StartTime first;
                Client.groupText := "" |}).
  destruct (group_count_fold intervalSeconds (first :: rest) g0) as [_ He].
  change (Client.finish (fold_left (Client.group_step intervalSeconds) (first :: rest) g0)
          <> []).
  intros Hnil. rewrite Hnil in He. simpl in He.
  assert (1 <= 0)%nat; [|lia].
  apply He. left. now inversion Htexts.
Qed.

(** ** The service: cache hits, misses and failures *)

Section ServiceProperties.
Context `{GoLib}.
Variable W : World.

(** X10: the service keeps its heap in order.  From a state that the
    service left behind, a call of [GetTranscripts] returns (it does not
    panic on a nil or dangling pointer), leaves such a state again, every
    response and transcript that existed before is unchanged afterwards,
    and no slice array is touched. *)
Theorem GetTranscripts_keeps_served (req : service.TranscriptRequest) (σ : state) :
  wf.served σ ->
  exists r σ1,
    service.GetTranscripts W req σ = Some (r, σ1)
    /\ wf.served σ1 /\ wf.extends σ σ1 /\ arrays σ1 = arrays σ.
Proof.
  intros Hs. destruct (GetTranscripts_cases W req σ Hs) as (r & σ1 & Hrun & H1 & H2 & H3 & _).
  exists r, σ1. auto.
Qed.

Lemma GetTranscripts_Ok (req : service.TranscriptRequest) (σ σ1 : state)
    (resp : service.TranscriptResponse) :
  wf.served σ ->
  service.GetTranscripts W req σ = Some (Ok resp, σ1) ->
  exists raw t,
    service.Raw resp = Some raw /\ transcripts σ1 !! raw = Some t
    /\ Segments t <> [] /\ service.Formatted resp <> [].
Proof.
  intros Hs Hrun. pose proof Hs as (_ & _ & Hcache).
  destruct (GetTranscripts_cases W req σ Hs)
    as (r & σ1' & Hrun' & _ & (_ & _ & Hext) & _ & Hcase).
  rewrite Hrun in Hrun'. injection Hrun' as <- <-.
  destruct Hcase as [([=] & _) | (_ & _ & _ & [Hhit | (_ & _ & _ & [Herr | Hok])])].
  - destruct Hhit as (q & v & raw & t & _ & Hq & Hv & Hraw & Ht & [= ->] & _).
    destruct (Hcache _ _ Hq) as (q' & v' & raw' & t' & [= <-] & Hv' & Hraw' & Ht' & Hne & Htexts).
    rewrite Hv in Hv'. injection Hv' as <-.
    rewrite Hraw in Hraw'. injection Hraw' as <-.
    rewrite Ht in Ht'. injection Ht' as <-.
    exists raw, t. simpl. split; [reflexivity|]. split; [auto|]. split; [assumption|].
    now apply FormatTranscript_nonempty.
  - destruct Herr as (e & [=] & _).
  - destruct Hok as (title & raw & t & [= ->] & Ht & Hne & Htexts & _).
    exists raw, t. simpl. split; [reflexivity|]. split; [assumption|].
    split; [assumption|]. now apply FormatTranscript_nonempty.
Qed.

(** X11: a response of the service is never empty.  When [GetTranscripts]
    succeeds, [Raw] points to a transcript with at least one segment and
    [Formatted] has at least one group; the test [resp.Raw == nil &&
    resp.Formatted == nil] of the handler cannot hold for it. *)
Theorem GetTranscripts_never_empty (req : service.TranscriptRequest) (σ σ1 : state)
    (resp : service.TranscriptResponse) :
  wf.served σ ->
  service.GetTranscripts W req σ = Some (Ok resp, σ1) ->
  exists raw t,
    service.Raw resp = Some raw /\ transcripts σ1 !! raw = Some t
    /\ Segments t <> [] /\ service.Formatted resp <> [].
Proof. apply GetTranscripts_Ok. Qed.

(** X12: a cache hit asks nobody.  For an accepted request whose video is
    in the cache, with a live context, [GetTranscripts] answers with the
    title and the transcript of the cached response and with the groups
    of its segments; the only call it makes is the lookup in the cache: no
    request goes to the provider, the clock does not advance and the cache
    is left as it was. *)
Theorem GetTranscripts_cache_hit (req : service.TranscriptRequest) (σ : state) (q : loc) :
  wf.served σ ->
  service.VideoURL req <> EmptyString ->
  service.IsValidUrl (service.VideoURL req) = true ->
  locals.videoID req <> EmptyString ->
  ctx_done W (now σ) = false ->
  cache σ !! locals.videoID req = Some (Some q) ->
  exists v raw t σ1,
    responses σ !! q = Some v /\ Raw v = Some raw /\ transcripts σ !! raw = Some t
    /\ service.GetTranscripts W req σ
       = Some (Ok {| service.Title := Title v; service.Raw := Some raw;
                     service.Formatted :=
                       fst (Client.FormatTranscript (Some t) (locals.interval req)) |},
               σ1)
    /\ trace σ1 = trace σ ++ [EvCacheGet (locals.videoID req)]
    /\ now σ1 = now σ /\ cache σ1 = cache σ.
Proof.
  intros Hs Hurl Hvalid Hid Hctx Hq.
  destruct (GetTranscripts_cases W req σ Hs) as (r & σ1 & Hrun & _ & _ & _ & Hcase).
  destruct Hcase as [(_ & _ & [E | [E | E]])
                    | (_ & _ & _ & [Hhit | ([E | E] & _)])];
    try contradiction; try congruence.
  destruct Hhit as (q' & v & raw & t & _ & Hq' & Hv & Hraw & Ht & -> & Htrace & Hcache & Hnow).
  rewrite Hq in Hq'. injection Hq' as <-.
  exists v, raw, t, σ1. repeat split; assumption.
Qed.



(** X15: the second answer is the first.  When [GetTranscripts] has
    answered a request and the context is still live, the same request is
    answered from the cache: the response is equal to the first one, field
    by field (the same title, the same transcript pointer, the same
    groups), and the only call made is the lookup in the cache. *)
Theorem GetTranscripts_twice (req : service.TranscriptRequest) (σ σ1 : state)
    (resp : service.TranscriptResponse) :
  wf.served σ ->
  service.GetTranscripts W req σ = Some (Ok resp, σ1) ->
  ctx_done W (now σ1) = false ->
  exists σ2,
    service.GetTranscripts W req σ1 = Some (Ok resp, σ2)
    /\ trace σ2 = trace σ1 ++ [EvCacheGet (locals.videoID req)].
Proof.
  intros Hs Hrun Hctx.
  destruct (GetTranscripts_cases W req σ Hs)
    as (r & σ1' & Hrun' & Hs1 & (_ & Hextr & Hextt) & _ & Hcase).
  rewrite Hrun in Hrun'. injection Hrun' as <- <-.
  destruct (GetTranscripts_cases W req σ1 Hs1) as (r2 & σ2 & Hrun2 & _ & _ & _ & Hcase2).
  exists σ2.
  assert (Hstored : exists q v raw t,
             cache σ1 !! locals.videoID req = Some (Some q)
             /\ responses σ1 !! q = Some v /\ Raw v = Some raw
             /\ transcripts σ1 !! raw = Some t
             /\ resp = {| service.Title := Title v; service.Raw := Some raw;
                          service.Formatted :=
                            fst (Client.FormatTranscript (Some t) (locals.interval req)) |}).
  { destruct Hcase as [([=] & _) | (_ & _ & _ & [Hhit | (_ & _ & _ & [Herr | Hok])])].
    - destruct Hhit as (q & v & raw & t & _ & Hq & Hv & Hraw & Ht & [= ->] & _ & Hc & _).
      exists q, v, raw, t. rewrite Hc. auto 10.
    - destruct Herr as (e & [=] & _).
    - destruct Hok as (title & raw & t & [= ->] & Ht & _ & _ & _ & Hsave).
      destruct Hsave as [[_ Hd] | (_ & q & v & Hc & Hv & Htitle & Hraw)]; [congruence|].
      exists q, v, raw, t. rewrite Hc, lookup_insert_eq, Htitle. auto 10. }
  destruct Hstored as (q & v & raw & t & Hq & Hv & Hraw & Ht & ->).
  destruct Hcase2 as [(_ & _ & Hrej) | (_ & _ & _ & [Hhit | ([E | E] & _)])];
    try congruence.
  - exfalso.
    destruct Hcase as [([=] & _) | (Hurl & Hvalid & Hid & _)].
    destruct Hrej as [E | [E | E]]; congruence.
  - destruct Hhit as (q' & v' & raw' & t' & _ & Hq' & Hv' & Hraw' & Ht' & -> & Htrace & _).
    rewrite Hq in Hq'. injection Hq' as <-.
    rewrite Hv in Hv'. injection Hv' as <-.
    rewrite Hraw in Hraw'. injection Hraw' as <-.
    rewrite Ht in Ht'. injection Ht' as <-.
    split; assumption.
Qed.

(** X16: an answer that is not stored.  For an accepted request whose
    video is not cached: when the context is live at the call, the player
    endpoint and the caption address answer 200, the caption document has
    at least one usable paragraph, and the context is done two instants
    later, when the save starts, then [GetTranscripts] still returns the
    response, with the title of the player reply and the groups of the
    parsed segments: the error of [Save] is dropped, the save was
    attempted, and the cache is left as it was. *)
Theorem GetTranscripts_unsaved (req : service.TranscriptRequest) (σ : state)
    (playerResp : playerResponse) (body : string) (ttml : ttmlTranscript) :
  service.VideoURL req <> EmptyString ->
  service.IsValidUrl (service.VideoURL req) = true ->
  locals.videoID req <> EmptyString ->
  cache σ !! locals.videoID req = None ->
  ctx_done W (now σ) = false ->
  player W (now σ) (locals.videoID req) = Reply 200 (Some playerResp) ->
  CaptionTracks playerResp <> [] ->
  fetch W (S (now σ))
    (Client.select_caption_url (CaptionTracks playerResp) +:+ "&fmt=ttml")
  = Reply 200 (Some body) ->
  xml_Decode body = Some ttml ->
  reference.parse (Paragraphs ttml) <> [] ->
  ctx_done W (S (S (now σ))) = true ->
  exists σ1,
    service.GetTranscripts W req σ
    = Some (Ok {| service.Title := VideoDetails_Title playerResp;
                  service.Raw := Some (next σ);
                  service.Formatted :=
                    fst (Client.FormatTranscript
                           (Some {| Segments := reference.parse (Paragraphs ttml) |})
                           (locals.interval req)) |}, σ1)
    /\ transcripts σ1 !! next σ = Some {| Segments := reference.parse (Paragraphs ttml) |}
    /\ cache σ1 = cache σ
    /\ now σ1 = S (S (now σ))
    /\ trace σ1
       = trace σ ++ [EvCacheGet (locals.videoID req); EvPost (locals.videoID req);
                     EvGet (Client.select_caption_url (CaptionTracks playerResp)
                            +:+ "&fmt=ttml");
                     EvCacheSave (locals.videoID req)].
Proof.
  intros Hurl Hvalid Hid Hnone Hctx Hplayer Htracks Hfetch Hdecode Hsegs Hdone.
  assert (Hfst : forall raw, Client.FormatTranscript raw (locals.interval req)
                 = (fst (Client.FormatTranscript raw (locals.interval req)), None))
    by (intros raw; apply FormatTranscript_fst).
  assert (Hsprintf : fmt.Sprintf "%s&fmt=ttml"
                       [fmt.S (Client.select_caption_url (CaptionTracks playerResp))]
                     = Client.select_caption_url (CaptionTracks playerResp) +:+ "&fmt=ttml").
  { generalize (Client.select_caption_url (CaptionTracks playerResp)). intros u.
    lazy -[String.append]. reflexivity. }
  unfold service.GetTranscripts.
  change (if (service.IntervalSeconds req <=? 0)%float then 10%float
          else service.IntervalSeconds req) with (locals.interval req).
  change (if String.eqb (service.VideoID req) ""
          then service.ExtractVideoId (service.VideoURL req)
          else service.VideoID req) with (locals.videoID req).
  remember Client.FormatTranscript as format eqn:Hformat. clear Hformat.
  destruct (String.eqb_spec (service.VideoURL req) ""); [contradiction|].
  rewrite Hvalid. simpl.
  destruct (String.eqb_spec (locals.videoID req) ""); [contradiction|].
  unfold repository.Get, service.fetch_and_cache, Client.GetTranscript,
    Client.getPlayerResponse, Client.parseTTMLTranscript, repository.Save.
  monad_unfold. simpl.
  destruct (String.eqb_spec (locals.videoID req) ""); [contradiction|]. simpl.
  rewrite Hctx. simpl. rewrite Hnone. simpl. rewrite Hctx. simpl.
  rewrite Hplayer. simpl. rewrite Hsprintf.
  destruct (List.length (CaptionTracks playerResp) =? 0)%nat eqn:El.
  { apply Nat.eqb_eq, length_zero_iff_nil in El. contradiction. }
  simpl. rewrite Hfetch. simpl. rewrite Hdecode. simpl.
  rewrite lookup_insert_eq. simpl. rewrite lookup_insert_eq. simpl.
  rewrite fold_paragraph_step. simpl.
  destruct (reference.parse (Paragraphs ttml)) as [|seg segs] eqn:Eparse; [contradiction|].
  simpl. rewrite Hdone. simpl. rewrite lookup_insert_eq. simpl.
  rewrite lookup_insert_eq. rewrite (Hfst (Some {| Segments := seg :: segs |})).
  eexists. split; [reflexivity|]. simpl.
  split; [apply lookup_insert_eq|]. split; [reflexivity|]. split; [reflexivity|].
  rewrite <- !app_assoc. reflexivity.
Qed.

(** X17: a context that is done.  For an accepted request, when the
    context is done the lookup in the cache fails, the service goes on as
    for a miss, and the post of stage 1 fails on the context: the result is
    the wrapped context error, also when the video is in the cache. *)
Theorem GetTranscripts_context_done (req : service.TranscriptRequest) (σ : state) :
  service.VideoURL req <> EmptyString ->
  service.IsValidUrl (service.VideoURL req) = true ->
  locals.videoID req <> EmptyString ->
  ctx_done W (now σ) = true ->
  exists σ1,
    service.GetTranscripts W req σ
    = Some (Err (ErrorfW ErrFailedToGet
                   (ErrWrap (ErrWrap ErrContext "failed to perform request")
                            "failed to get player response")), σ1)
    /\ trace σ1 = trace σ ++ [EvCacheGet (locals.videoID req); EvPost (locals.videoID req)]
    /\ cache σ1 = cache σ /\ responses σ1 = responses σ.
Proof.
  intros Hurl Hvalid Hid Hctx. unfold service.GetTranscripts.
  change (if String.eqb (service.VideoID req) ""
          then service.ExtractVideoId (service.VideoURL req)
          else service.VideoID req) with (locals.videoID req).
  destruct (String.eqb_spec (service.VideoURL req) ""); [contradiction|].
  rewrite Hvalid. simpl.
  destruct (String.eqb_spec (locals.videoID req) ""); [contradiction|].
  unfold repository.Get, service.fetch_and_cache, Client.GetTranscript,
    Client.getPlayerResponse. monad_unfold. simpl.
  destruct (String.eqb_spec (locals.videoID req) ""); [contradiction|]. simpl.
  rewrite Hctx. simpl. rewrite Hctx. simpl.
  eexists. split; [reflexivity|]. simpl. rewrite <- app_assoc. auto.
Qed.

(** X18: the default interval.  A request to the handler whose interval
    parameter is missing or is not a number, or is zero or negative, is
    passed to the service with the interval as it was read (0 when it was
    not a number), and the service serves it as the same request with
    interval 10. *)
Theorem interval_defaults_to_ten (req : router.Request) :
  match ParseFloat (router.interval req) with
  | Some v => (v <=? 0)%float = true
  | None => True
  end ->
  service.GetTranscripts W (router.service_request req)
  = service.GetTranscripts W {| service.VideoURL := router.videoUrl req;
                                service.VideoID := "";
                                service.IntervalSeconds := 10 |}.
Proof.
  intros Hle. unfold service.GetTranscripts, router.service_request. simpl.
  destruct (ParseFloat (router.interval req)) as [v|].
  - rewrite Hle. change (10 <=? 0)%float with false. reflexivity.
  - change (0 <=? 0)%float with true. change (10 <=? 0)%float with false. reflexivity.
Qed.

End ServiceProperties.

Lemma warm_served : wf.served sample.warm.
Proof.
  destruct (@GetTranscripts_cases plain.lib sample.live sample.request initial
              initial_served) as (r & σ1 & Hrun & Hs & _).
  unfold sample.warm. now rewrite Hrun.
Qed.

(** A run of [GetTranscripts_keeps_served] from the state after a first answer. *)
Lemma GetTranscripts_keeps_served_witness :
  exists r σ1,
    @service.GetTranscripts plain.lib sample.live sample.request sample.warm = Some (r, σ1)
    /\ wf.served σ1 /\ wf.extends sample.warm σ1 /\ arrays σ1 = arrays sample.warm.
Proof.
  exact (@GetTranscripts_keeps_served plain.lib sample.live sample.request sample.warm
           warm_served).
Defined.

(** A run of [GetTranscripts_never_empty] on the first answer of the sample world. *)
Lemma GetTranscripts_never_empty_witness :
  exists raw t,
    Some 1%positive = Some raw /\ transcripts sample.warm !! raw = Some t
    /\ Segments t <> [] /\ ["(00:01) first third"] <> @nil string.
Proof.
  apply (@GetTranscripts_never_empty plain.lib sample.live sample.request initial
           sample.warm
           {| service.Title := "T"; service.Raw := Some 1%positive;
              service.Formatted := ["(00:01) first third"] |}
           initial_served).
  vm_compute. reflexivity.
Defined.

(** A run of [GetTranscripts_cache_hit]: the sample video is cached at location 3. *)
Lemma GetTranscripts_cache_hit_witness :
  exists v raw t σ1,
    responses sample.warm !! 3%positive = Some v /\ Raw v = Some raw
    /\ transcripts sample.warm !! raw = Some t
    /\ @service.GetTranscripts plain.lib sample.live sample.request sample.warm
       = Some (Ok {| service.Title := Title v; service.Raw := Some raw;
                     service.Formatted :=
                       fst (Client.FormatTranscript (Some t)
                              (locals.interval sample.request)) |},
               σ1)
    /\ trace σ1 = trace sample.warm ++ [EvCacheGet (locals.videoID sample.request)]
    /\ now σ1 = now sample.warm /\ cache σ1 = cache sample.warm.
Proof.
  apply (@GetTranscripts_cache_hit plain.lib sample.live sample.request sample.warm
           3%positive warm_served).
  - discriminate.
  - vm_compute. reflexivity.
  - vm_compute. discriminate.
  - reflexivity.
  - vm_compute. reflexivity.
Defined.



(** A run of [GetTranscripts_twice]: the sample request, asked a second time. *)
Lemma GetTranscripts_twice_witness :
  exists σ2,
    @service.GetTranscripts plain.lib sample.live sample.request sample.warm
    = Some (Ok {| service.Title := "T"; service.Raw := Some 1%positive;
                  service.Formatted := ["(00:01) first third"] |}, σ2)
    /\ trace σ2 = trace sample.warm ++ [EvCacheGet (locals.videoID sample.request)].
Proof.
  apply (@GetTranscripts_twice plain.lib sample.live sample.request initial sample.warm
           _ initial_served).
  - vm_compute. reflexivity.
  - reflexivity.
Defined.

(** A run of [GetTranscripts_unsaved]: the context is done from instant 2
    on, when the save starts. *)
Lemma GetTranscripts_unsaved_witness :
  exists σ1,
    @service.GetTranscripts plain.lib sample.cancelled_before_save sample.request initial
    = Some (Ok {| service.Title := "T";
                  service.Raw := Some 1%positive;
                  service.Formatted :=
                    fst (Client.FormatTranscript
                           (Some {| Segments := @reference.parse plain.lib sample.paragraphs |})
                           (locals.interval sample.request)) |}, σ1)
    /\ transcripts σ1 !! 1%positive
       = Some {| Segments := @reference.parse plain.lib sample.paragraphs |}
    /\ cache σ1 = cache initial
    /\ now σ1 = 2%nat
    /\ trace σ1
       = [EvCacheGet "dQw4w9WgXcQ"; EvPost "dQw4w9WgXcQ"; EvGet "https://c/en&fmt=ttml";
          EvCacheSave "dQw4w9WgXcQ"].
Proof.
  apply (@GetTranscripts_unsaved plain.lib sample.cancelled_before_save sample.request
           initial
           {| VideoDetails_Title := "T";
              CaptionTracks := [sample.es_track; sample.en_track] |}
           sample.doc {| Paragraphs := sample.paragraphs |}).
  - discriminate.
  - vm_compute. reflexivity.
  - vm_compute. discriminate.
  - vm_compute. reflexivity.
  - reflexivity.
  - reflexivity.
  - discriminate.
  - reflexivity.
  - vm_compute. reflexivity.
  - vm_compute. discriminate.
  - reflexivity.
Defined.

(** A run of [GetTranscripts_context_done] on a cached video. *)
Lemma GetTranscripts_context_done_witness :
  cache sample.warm !! locals.videoID sample.request = Some (Some 3%positive)
  /\ exists σ1,
       @service.GetTranscripts plain.lib sample.cancelled_after_stage1 sample.request
         sample.warm
       = Some (Err (ErrorfW ErrFailedToGet
                      (ErrWrap (ErrWrap ErrContext "failed to perform request")
                               "failed to get player response")), σ1)
       /\ trace σ1 = trace sample.warm ++ [EvCacheGet (locals.videoID sample.request);
                                           EvPost (locals.videoID sample.request)]
       /\ cache σ1 = cache sample.warm /\ responses σ1 = responses sample.warm.
Proof.
  split; [vm_compute; reflexivity|].
  apply (@GetTranscripts_context_done plain.lib sample.cancelled_after_stage1
           sample.request sample.warm).
  - discriminate.
  - vm_compute. reflexivity.
  - vm_compute. discriminate.
  - vm_compute. reflexivity.
Defined.

(** A run of [interval_defaults_to_ten]: the sample request has no interval parameter. *)
Lemma interval_defaults_to_ten_witness :
  @service.GetTranscripts plain.lib sample.live
    (@router.service_request plain.lib sample.get_request)
  = @service.GetTranscripts plain.lib sample.live
      {| service.VideoURL := router.videoUrl sample.get_request;
         service.VideoID := "";
         service.IntervalSeconds := 10 |}.
Proof.
  apply (@interval_defaults_to_ten plain.lib sample.live sample.get_request).
  exact I.
Defined.

(** ** The handler and the middleware *)

Section HandlerProperties.
Context `{GoLib}.
Variable W : World.

(** X19: the handler always answers, and never with 404.  From a state
    that the service left behind, [handleGetTranscripts] returns for every
    request, writes exactly one body, and its status is 200, 400, 405 or
    500: the branch for "no transcript available" is never taken. *)
Theorem handleGetTranscripts_answers (req : router.Request) (σ : state) :
  wf.served σ ->
  exists w σ1,
    router.handleGetTranscripts W router.fresh_writer req σ = Some (w, σ1)
    /\ wf.served σ1
    /\ List.length (router.written w) = 1%nat
    /\ In (router.status w) [Some 200; Some 400; Some 405; Some 500].
Proof.
  intros Hs. unfold router.handleGetTranscripts.
  destruct (negb (String.eqb (router.Method req) "GET")).
  { do 2 eexists. split; [reflexivity|]. split; [assumption|]. simpl. auto. }
  destruct (String.eqb (router.videoUrl req) "").
  { do 2 eexists. split; [reflexivity|]. split; [assumption|]. simpl. auto. }
  destruct (GetTranscripts_cases W (router.service_request req) σ Hs)
    as (r & σ1 & Hrun & Hs1 & _).
  unfold bind at 1. rewrite Hrun. destruct r as [resp|e].
  - destruct (GetTranscripts_Ok W _ _ _ _ Hs Hrun) as (raw & t & Hraw & Ht & _ & Hf).
    rewrite Hraw. monad_unfold. rewrite Ht. simpl.
    destruct (router.encodable (Segments t)); do 2 eexists;
      (split; [reflexivity|]); (split; [assumption|]); simpl; auto.
  - destruct e; do 2 eexists; (split; [reflexivity|]); (split; [assumption|]);
      simpl; auto 6.
Qed.

(** X20: a transcript that cannot be encoded.  When the service answers
    with a transcript that has a time that is not finite, the status line
    200 is already written when the encoding fails: the response has
    status 200 and the body of an internal server error. *)
Theorem handleGetTranscripts_encode_failure (req : router.Request) (σ σ1 : state)
    (resp : service.TranscriptResponse) (p : loc) (t : Transcript) :
  router.Method req = "GET"%string ->
  router.videoUrl req <> EmptyString ->
  service.GetTranscripts W (router.service_request req) σ = Some (Ok resp, σ1) ->
  service.Raw resp = Some p ->
  transcripts σ1 !! p = Some t ->
  router.encodable (Segments t) = false ->
  router.handleGetTranscripts W router.fresh_writer req σ
  = Some ({| router.status := Some 200;
             router.written :=
               [router.ErrorResponse "Internal Server Error" "Failed to encode response"] |},
          σ1).
Proof.
  intros Hm Hurl Hrun Hraw Ht Henc. unfold router.handleGetTranscripts.
  rewrite Hm. simpl.
  destruct (String.eqb_spec (router.videoUrl req) ""); [contradiction|].
  unfold bind at 1. rewrite Hrun, Hraw. monad_unfold. rewrite Ht. simpl.
  rewrite Henc. reflexivity.
Qed.

Variable Getenv : string -> string.

(** X21: the preflight request.  An OPTIONS request is answered by the
    CORS wrapper itself: the wrapped handler is not called, whatever it
    is, nothing is written to the body and the state is left as it is;
    the status is 200 on a fresh response. *)
Theorem cors_preflight (next : middleware.Handler) (w : middleware.Response)
    (r : router.Request) (σ : state) :
  router.Method r = "OPTIONS"%string ->
  exists w1,
    middleware.cors Getenv next w r σ = Some (w1, σ)
    /\ middleware.cors Getenv (fun _ _ _ => None) w r σ = Some (w1, σ)
    /\ router.written (middleware.rw w1) = router.written (middleware.rw w)
    /\ (router.status (middleware.rw w) = None ->
        router.status (middleware.rw w1) = Some 200).
Proof.
  intros Hm. unfold middleware.cors. rewrite Hm. simpl.
  eexists. split; [reflexivity|]. split; [reflexivity|].
  unfold middleware.WriteHeader, router.WriteHeader.
  destruct (String.eqb (Getenv "DISABLE_CORS") "true"); simpl;
    destruct (router.status (middleware.rw w)); simpl; split; auto; discriminate.
Qed.

(** The handler with its header map writes what the handler on the bare
    writer writes, and sets the content type on every path. *)
Lemma handleGetTranscripts_headers (w : middleware.Response) (r : router.Request)
    (σ : state) :
  middleware.handleGetTranscripts W w r σ
  = match router.handleGetTranscripts W (middleware.rw w) r σ with
    | Some (out, σ1) =>
        Some ({| middleware.header :=
                   <["Content-Type" := "application/json"]> (middleware.header w);
                 middleware.rw := out |}, σ1)
    | None => None
    end.
Proof.
  unfold middleware.handleGetTranscripts, router.handleGetTranscripts.
  destruct (negb (String.eqb (router.Method r) "GET")); [reflexivity|].
  destruct (String.eqb (router.videoUrl r) ""); [reflexivity|].
  monad_unfold.
  destruct (service.GetTranscripts W (router.service_request r) σ) as [[res σ1]|];
    [|reflexivity].
  destruct res as [resp|e]; [|destruct e; reflexivity].
  destruct (service.Raw resp) as [p|].
  - destruct (transcripts σ1 !! p) as [t|]; [|reflexivity]. simpl.
    destruct (router.encodable (Segments t)); [reflexivity|].
    unfold middleware.writeJSONError, middleware.Header_Set. simpl.
    now rewrite insert_insert_eq.
  - destruct (service.Formatted resp); reflexivity.
Qed.

(** X22: the headers of the transcript endpoint behind the CORS wrapper.
    For a request that is not OPTIONS, the handler with its header map
    behind the wrapper leaves the writer that [handleGetTranscripts]
    leaves, every path of the handler has set the content type to JSON,
    and the three CORS headers are set exactly when the variable
    DISABLE_CORS is ["true"]. *)
Theorem cors_transcripts (r : router.Request) (σ σ1 : state) (w1 : middleware.Response) :
  router.Method r <> "OPTIONS"%string ->
  middleware.cors Getenv (middleware.handleGetTranscripts W) middleware.fresh_response r σ
  = Some (w1, σ1) ->
  router.handleGetTranscripts W router.fresh_writer r σ = Some (middleware.rw w1, σ1)
  /\ middleware.header w1 !! "Content-Type"%string = Some "application/json"%string
  /\ (Getenv "DISABLE_CORS" = "true"%string ->
      middleware.header w1 !! "Access-Control-Allow-Origin"%string = Some "*"%string
      /\ middleware.header w1 !! "Access-Control-Allow-Methods"%string
         = Some "GET, POST, OPTIONS"%string
      /\ middleware.header w1 !! "Access-Control-Allow-Headers"%string
         = Some "Content-Type"%string)
  /\ (Getenv "DISABLE_CORS" <> "true"%string ->
      middleware.header w1 = {[ "Content-Type"%string := "application/json"%string ]}).
Proof.
  intros Hm. unfold middleware.cors.
  destruct (String.eqb_spec (router.Method r) "OPTIONS"); [contradiction|].
  rewrite handleGetTranscripts_headers.
  destruct (String.eqb_spec (Getenv "DISABLE_CORS") "true") as [E|E]; simpl;
    destruct (router.handleGetTranscripts W router.fresh_writer r σ) as [[out σ']|];
    try discriminate; intros [= <- <-]; simpl.
  - split; [reflexivity|]. split; [apply lookup_insert_eq|].
    split; [|contradiction]. intros _.
    repeat split; vm_compute; reflexivity.
  - split; [reflexivity|]. split; [apply lookup_insert_eq|].
    split; [contradiction|]. intros _. reflexivity.
Qed.

End HandlerProperties.

(** ** The fetcher *)

Section FetcherProperties.
Context `{GoLib}.
Variable W : World.


(** X24: the address of stage 2.  When the player endpoint offers caption
    tracks, the GET of stage 2 goes to the base URL of one of the offered
    tracks followed by ["&fmt=ttml"], whatever the tracks are. *)
Theorem GetTranscript_caption_url (videoID : string) (σ : state)
    (playerResp : playerResponse) :
  ctx_done W (now σ) = false ->
  player W (now σ) videoID = Reply 200 (Some playerResp) ->
  CaptionTracks playerResp <> [] ->
  exists r σ1 track,
    Client.GetTranscript W videoID σ = Some (r, σ1)
    /\ In track (CaptionTracks playerResp)
    /\ trace σ1 = trace σ ++ [EvPost videoID; EvGet (BaseURL track +:+ "&fmt=ttml")].
Proof.
  intros Hctx Hplayer Htracks.
  assert (Hin : exists track, In track (CaptionTracks playerResp)
                              /\ Client.select_caption_url (CaptionTracks playerResp)
                                 = BaseURL track).
  { unfold Client.select_caption_url. rewrite english_url_find.
    destruct (List.find reference.is_english (CaptionTracks playerResp)) as [track|] eqn:E.
    - destruct (String.eqb (BaseURL track) "").
      + destruct (CaptionTracks playerResp) as [|first rest]; [contradiction|].
        exists first. split; [now left | reflexivity].
      + exists track. split; [|reflexivity]. now apply find_some in E.
    - simpl. destruct (CaptionTracks playerResp) as [|first rest]; [contradiction|].
      exists first. split; [now left | reflexivity]. }
  destruct Hin as (track & Hin & Hsel).
  assert (Hurl : fmt.Sprintf "%s&fmt=ttml"
                   [fmt.S (Client.select_caption_url (CaptionTracks playerResp))]
                 = BaseURL track +:+ "&fmt=ttml").
  { rewrite Hsel. generalize (BaseURL track). intros u.
    lazy -[String.append]. reflexivity. }
  unfold Client.GetTranscript, Client.getPlayerResponse. monad_unfold.
  simpl. rewrite Hctx. simpl. rewrite Hplayer. simpl. rewrite Hurl.
  destruct (List.length (CaptionTracks playerResp) =? 0)%nat eqn:El.
  { apply Nat.eqb_eq, length_zero_iff_nil in El. contradiction. }
  simpl.
  match goal with
  | |- context [fetch W ?t ?u] => destruct (fetch W t u) as [msg | status2 body2]
  end; simpl.
  { do 3 eexists. split; [reflexivity|]. split; [eassumption|]. simpl.
    now rewrite <- app_assoc. }
  destruct (negb (status2 =? 200)); simpl.
  { do 3 eexists. split; [reflexivity|]. split; [eassumption|]. simpl.
    now rewrite <- app_assoc. }
  destruct body2 as [bodyBytes|]; simpl.
  2:{ do 3 eexists. split; [reflexivity|]. split; [eassumption|]. simpl.
      now rewrite <- app_assoc. }
  destruct (Client.parseTTMLTranscript bodyBytes); simpl.
  - do 3 eexists. split; [reflexivity|]. split; [eassumption|]. simpl.
    now rewrite <- app_assoc.
  - do 3 eexists. split; [reflexivity|]. split; [eassumption|]. simpl.
    now rewrite <- app_assoc.
Qed.

End FetcherProperties.

(** ** GetFormattedTranscript *)

Section FormattedProperties.
Context `{GoLib}.
Variable W : World.

(** X25: [GetFormattedTranscript] is [GetTranscript] followed by
    [FormatTranscript].  It always returns and never touches the cache.
    It fails exactly when [GetTranscript] fails, with the same error and
    the same state.  Otherwise it returns the pointer of [GetTranscript],
    and what a reader sees through it is the title and the segments that
    [GetTranscript] left, with the groups of these segments for the given
    interval as [Formatted] (nil when there is no group). *)
Theorem GetFormattedTranscript_groups (videoID : string) (intervalSeconds : float64)
    (σ : state) :
  exists r σ1,
    Client.GetFormattedTranscript W videoID intervalSeconds σ = Some (r, σ1)
    /\ cache σ1 = cache σ
    /\ ((exists e, Client.GetTranscript W videoID σ = Some (Err e, σ1) /\ r = Err e)
        \/ (exists p σa title t,
              Client.GetTranscript W videoID σ = Some (Ok p, σa) /\ r = Ok p
              /\ caller.view p σa
                 = Some ({| caller.title := title;
                            caller.segments := Some (Segments t);
                            caller.formatted := None |}, σa)
              /\ caller.view p σ1
                 = Some ({| caller.title := title;
                            caller.segments := Some (Segments t);
                            caller.formatted :=
                              match fst (Client.FormatTranscript (Some t) intervalSeconds) with
                              | [] => None
                              | groups => Some groups
                              end |}, σ1))).
Proof.
  destruct (GetTranscript_cases W videoID σ)
    as (r0 & σa & Hrun & Hcache & _ & _ & _ & Hcase).
  unfold Client.GetFormattedTranscript. unfold bind at 1. rewrite Hrun.
  assert (Hfst : forall raw, Client.FormatTranscript raw intervalSeconds
                 = (fst (Client.FormatTranscript raw intervalSeconds), None))
    by (intros raw; apply FormatTranscript_fst).
  remember Client.FormatTranscript as format eqn:Hformat. clear Hformat.
  destruct Hcase as [(e & -> & _) | (title & segs & -> & _ & _ & Hresp & Htrans & _)].
  - do 2 eexists. split; [reflexivity|]. split; [assumption|]. left. eauto.
  - destruct σa as [resps trs arrs nxt cch nw trc]. simpl in *. subst.
    monad_unfold. simpl. rewrite lookup_insert_eq. simpl. rewrite lookup_insert_eq.
    rewrite (Hfst (Some {| Segments := segs |})).
    destruct (fst (format (Some {| Segments := segs |}) intervalSeconds))
      as [|g groups] eqn:Eg.
    + simpl. rewrite lookup_insert_eq.
      do 2 eexists. split; [reflexivity|]. split; [reflexivity|]. right.
      exists (Pos.succ (next σ)). eexists. exists title, {| Segments := segs |}.
      rewrite Eg. split; [reflexivity|]. split; [reflexivity|].
      unfold caller.view. monad_unfold. simpl. rewrite !lookup_insert_eq. simpl.
      rewrite !lookup_insert_eq. split; reflexivity.
    + simpl. rewrite lookup_insert_eq.
      do 2 eexists. split; [reflexivity|]. split; [reflexivity|]. right.
      exists (Pos.succ (next σ)). eexists. exists title, {| Segments := segs |}.
      rewrite Eg. split; [reflexivity|]. split; [reflexivity|].
      unfold caller.view. monad_unfold. simpl. rewrite !lookup_insert_eq. simpl.
      rewrite !lookup_insert_eq. unfold load_array. simpl.
      rewrite !lookup_insert_eq. simpl. rewrite firstn_all.
      split; reflexivity.
Qed.

End FormattedProperties.

(** ** The grouper *)

Lemma group_partition (intervalSeconds : float64) (segs : list TranscriptSegment) :
  forall (anchor : float64) (pending : list string),
  exists parts : list (float64 * list string),
    reference.group intervalSeconds anchor pending segs
    = map (fun part => Client.formatTimeText (fst part) (String.concat " " (snd part))) parts
    /\ List.concat (map snd parts) = pending ++ map Text segs
    /\ Forall (fun part => snd part <> [] /\ In (fst part) (anchor :: map StartTime segs))
         parts.
Proof.
  induction segs as [|seg rest IH]; intros anchor pending.
  - destruct pending as [|x pending].
    + exists []. repeat split. constructor.
    + exists [(anchor, x :: pending)]. split; [reflexivity|].
      split; [simpl; now rewrite !app_nil_r|].
      constructor; [|constructor]. split; [discriminate | now left].
  - assert (Hmono : forall a (parts : list (float64 * list string)),
               Forall (fun part => snd part <> [] /\ In (fst part) (a :: map StartTime rest))
                 parts ->
               (a = anchor \/ a = StartTime seg) ->
               Forall (fun part => snd part <> []
                                   /\ In (fst part) (anchor :: map StartTime (seg :: rest)))
                 parts).
    { intros a parts Hall Ha. eapply Forall_impl; [exact Hall|].
      intros part [Hne [<- | Hin]].
      - split; [assumption|]. destruct Ha as [-> | ->]; simpl; auto.
      - split; [assumption|]. simpl. auto. }
    destruct pending as [|x pending].
    + destruct (IH anchor [Text seg]) as (parts & Hg & Hc & Ha).
      exists parts. split; [exact Hg|]. split; [exact Hc|]. apply (Hmono anchor); auto.
    + simpl reference.group.
      destruct (intervalSeconds <=? StartTime seg - anchor)%float.
      * destruct (IH (StartTime seg) [Text seg]) as (parts & Hg & Hc & Ha).
        exists ((anchor, x :: pending) :: parts). split; [simpl; now rewrite Hg|].
        split; [simpl; rewrite Hc; reflexivity|].
        constructor; [split; [discriminate | now left]|].
        apply (Hmono (StartTime seg)); auto.
      * destruct (IH anchor ((x :: pending) ++ [Text seg])) as (parts & Hg & Hc & Ha).
        exists parts. split; [exact Hg|].
        split; [rewrite Hc, <- app_assoc; reflexivity|].
        apply (Hmono anchor); auto.
Qed.

Lemma group_single (intervalSeconds anchor : float64) (segs : list TranscriptSegment) :
  Forall (fun seg => (intervalSeconds <=? StartTime seg - anchor)%float = false) segs ->
  forall x pending,
    reference.group intervalSeconds anchor (x :: pending) segs
    = [Client.formatTimeText anchor (String.concat " " ((x :: pending) ++ map Text segs))].
Proof.
  induction 1 as [|seg rest Hseg _ IH]; intros x pending.
  - simpl. now rewrite app_nil_r.
  - simpl reference.group. rewrite Hseg.
    change ((x :: pending) ++ [Text seg]) with (x :: (pending ++ [Text seg])).
    rewrite IH. simpl. now rewrite <- app_assoc.
Qed.

(** X26: the groups are a partition of the segments, in order.  On
    segments that all have a text, the result of [FormatTranscript] is a
    list of groups, each the marker of an anchor followed by texts joined
    with single spaces, such that the texts of the groups, one group after
    the other, are the texts of the segments in their order, no group is
    empty, and every anchor is the start time of one of the segments. *)
Theorem FormatTranscript_partition (segments : list TranscriptSegment)
    (intervalSeconds : float64) :
  Forall (fun seg => Text seg <> EmptyString) segments ->
  exists parts : list (float64 * list string),
    fst (Client.FormatTranscript (Some {| Segments := segments |}) intervalSeconds)
    = map (fun part => Client.formatTimeText (fst part) (String.concat " " (snd part))) parts
    /\ List.concat (map snd parts) = map Text segments
    /\ Forall (fun part => snd part <> [] /\ In (fst part) (map StartTime segments)) parts.
Proof.
  intros Htexts. destruct segments as [|first rest].
  - exists []. repeat split. constructor.
  - change (fst (Client.FormatTranscript (Some {| Segments := first :: rest |})
                   intervalSeconds))
      with (Client.finish
              (fold_left (Client.group_step intervalSeconds) (first :: rest)
                 {| Client.formatted := []; Client.currentStart := StartTime first;
                    Client.groupText := "" |})).
    rewrite (fold_group_step intervalSeconds (first :: rest) Htexts
               {| Client.formatted := []; Client.currentStart := StartTime first;
                  Client.groupText := "" |} []); [| reflexivity | constructor].
    simpl Client.formatted. simpl Client.currentStart. rewrite app_nil_l.
    destruct (group_partition intervalSeconds (first :: rest) (StartTime first) [])
      as (parts & Hg & Hc & Ha).
    exists parts. split; [exact Hg|]. split; [exact Hc|].
    eapply Forall_impl; [exact Ha|]. intros part [Hne Hin]. split; [assumption|].
    destruct Hin as [<- | Hin]; [now left | assumption].
Qed.

(** X27: one group.  On segments that all have a text, when no segment
    after the first starts an interval or more after the first one (the
    comparison [segment.StartTime-currentStart >= intervalSeconds] fails),
    [FormatTranscript] returns a single group: the marker of the first
    start time and all texts joined with single spaces. *)
Theorem FormatTranscript_single_group (first : TranscriptSegment)
    (rest : list TranscriptSegment) (intervalSeconds : float64) :
  Forall (fun seg => Text seg <> EmptyString) (first :: rest) ->
  Forall (fun seg => (intervalSeconds <=? StartTime seg - StartTime first)%float = false)
    rest ->
  fst (Client.FormatTranscript (Some {| Segments := first :: rest |}) intervalSeconds)
  = [Client.formatTimeText (StartTime first)
       (String.concat " " (map Text (first :: rest)))].
Proof.
  intros Htexts Hnear.
  change (fst (Client.FormatTranscript (Some {| Segments := first :: rest |})
                 intervalSeconds))
    with (Client.finish
            (fold_left (Client.group_step intervalSeconds) (first :: rest)
               {| Client.formatted := []; Client.currentStart := StartTime first;
                  Client.groupText := "" |})).
  rewrite (fold_group_step intervalSeconds (first :: rest) Htexts
             {| Client.formatted := []; Client.currentStart := StartTime first;
                Client.groupText := "" |} []); [| reflexivity | constructor].
  simpl Client.formatted. simpl Client.currentStart. rewrite app_nil_l.
  simpl reference.group. now rewrite (group_single _ _ _ Hnear).
Qed.

(** A run of [FormatTranscript_partition] on the sample segments. *)
Lemma FormatTranscript_partition_witness :
  exists parts : list (float64 * list string),
    fst (Client.FormatTranscript (Some {| Segments := sample.segments |}) 10)
    = map (fun part => Client.formatTimeText (fst part) (String.concat " " (snd part))) parts
    /\ List.concat (map snd parts) = map Text sample.segments
    /\ Forall (fun part => snd part <> [] /\ In (fst part) (map StartTime sample.segments))
         parts.
Proof.
  apply (FormatTranscript_partition sample.segments 10%float).
  repeat constructor; discriminate.
Defined.

(** A run of [FormatTranscript_single_group]: the sample segments lie within one minute. *)
Lemma FormatTranscript_single_group_witness :
  fst (Client.FormatTranscript (Some {| Segments := sample.segments |}) 60)
  = [Client.formatTimeText 0 "a b c d"].
Proof.
  apply (FormatTranscript_single_group
           {| Text := "a"; StartTime := 0; Duration := 4 |}
           [ {| Text := "b"; StartTime := 4; Duration := 5 |};
             {| Text := "c"; StartTime := 9; Duration := 6 |};
             {| Text := "d"; StartTime := 15; Duration := 2 |} ] 60%float).
  - repeat constructor; discriminate.
  - repeat constructor.
Defined.

(** ** Identifiers and hosts *)

Lemma Find_skip (c : ascii) (s : string) :
  service.matches service.pattern (String c s) None reference.group1 = None ->
  service.FindStringSubmatch service.pattern (String c s)
  = service.FindStringSubmatch service.pattern s.
Proof. intros Hn. rewrite Find_unfold, Hn. reflexivity. Qed.

Lemma Find_here (marker id rest : string) :
  In marker reference.markers ->
  reference.is_video_id id = true ->
  rest = EmptyString
  \/ (exists c rest', rest = String c rest' /\ service.stop_byte c = true) ->
  service.FindStringSubmatch service.pattern (marker +:+ id +:+ rest) = Some (Some id).
Proof.
  intros Hm [Hn Hid]%andb_prop Hstop. apply Nat.eqb_eq in Hn.
  rewrite forallb_id_byte in Hid. apply stop_or_end in Hstop.
  rewrite Find_unfold, (pattern_complete _ id); [reflexivity|].
  exists marker, rest. auto 6.
Qed.

(** The bytes of a concrete prefix at which the pattern does not match. *)
Ltac skip_prefix :=
  repeat (rewrite Find_skip by reflexivity).

(** X28: the usual addresses.  For every identifier of 11 identifier
    bytes, followed by nothing or by something that starts with one of
    [%#?&/], [ExtractVideoId] finds the identifier in the short address,
    in the watch address and in the embed address. *)
Theorem ExtractVideoId_urls (id rest : string) :
  reference.is_video_id id = true ->
  rest = EmptyString
  \/ (exists c rest', rest = String c rest' /\ service.stop_byte c = true) ->
  service.ExtractVideoId ("https://youtu.be/" +:+ id +:+ rest) = id
  /\ service.ExtractVideoId ("https://www.youtube.com/watch?v=" +:+ id +:+ rest) = id
  /\ service.ExtractVideoId ("https://www.youtube.com/embed/" +:+ id +:+ rest) = id.
Proof.
  intros Hid Hstop.
  assert (Hlen : String.length id = 11%nat)
    by (apply andb_prop in Hid as [Hn _]; now apply Nat.eqb_eq in Hn).
  split; [|split].
  - rewrite ExtractVideoId_Find by (rewrite length_append; simpl; lia).
    change ("https://youtu.be/" +:+ id +:+ rest)
      with ("https://youtu.be" +:+ ("/" +:+ id +:+ rest)).
    simpl String.append at 1. skip_prefix.
    change (String "/" (id +:+ rest)) with ("/" +:+ id +:+ rest).
    now rewrite (Find_here "/" id rest) by (simpl; auto).
  - rewrite ExtractVideoId_Find by (rewrite length_append; simpl; lia).
    change ("https://www.youtube.com/watch?v=" +:+ id +:+ rest)
      with ("https://www.youtube.com/watch?" +:+ ("v=" +:+ id +:+ rest)).
    simpl String.append at 1. skip_prefix.
    change (String "v" (String "=" (id +:+ rest))) with ("v=" +:+ id +:+ rest).
    now rewrite (Find_here "v=" id rest) by (simpl; auto).
  - rewrite ExtractVideoId_Find by (rewrite length_append; simpl; lia).
    change ("https://www.youtube.com/embed/" +:+ id +:+ rest)
      with ("https://www.youtube.com/embed" +:+ ("/" +:+ id +:+ rest)).
    simpl String.append at 1. skip_prefix.
    change (String "/" (id +:+ rest)) with ("/" +:+ id +:+ rest).
    now rewrite (Find_here "/" id rest) by (simpl; auto).
Qed.

(** A run of [ExtractVideoId_urls] with a query after the identifier. *)
Lemma ExtractVideoId_urls_witness :
  service.ExtractVideoId ("https://youtu.be/" +:+ "dQw4w9WgXcQ" +:+ "?t=42") = "dQw4w9WgXcQ"
  /\ service.ExtractVideoId ("https://www.youtube.com/watch?v=" +:+ "dQw4w9WgXcQ" +:+ "?t=42")
     = "dQw4w9WgXcQ"
  /\ service.ExtractVideoId ("https://www.youtube.com/embed/" +:+ "dQw4w9WgXcQ" +:+ "?t=42")
     = "dQw4w9WgXcQ".
Proof.
  apply (ExtractVideoId_urls "dQw4w9WgXcQ" "?t=42").
  - reflexivity.
  - right. exists "?"%char, "t=42"%string. split; reflexivity.
Defined.

(** X29: the result of [ExtractVideoId] is an identifier or nothing.  The
    result is empty or has exactly 11 bytes, and extracting from the
    result gives the result again. *)
Theorem ExtractVideoId_idempotent (s : string) :
  (service.ExtractVideoId s = EmptyString
   \/ String.length (service.ExtractVideoId s) = 11%nat)
  /\ service.ExtractVideoId (service.ExtractVideoId s) = service.ExtractVideoId s.
Proof.
  assert (Hshape : service.ExtractVideoId s = EmptyString
                   \/ String.length (service.ExtractVideoId s) = 11%nat).
  { unfold service.ExtractVideoId.
    destruct (Nat.eqb_spec (String.length s) 11) as [E|E]; [now right|].
    destruct (service.FindStringSubmatch service.pattern s) as [[id|]|] eqn:Hf; auto.
    apply Find_Some in Hf as (before & t & id0 & [= <-] & _ & Hh & _).
    destruct Hh as (marker & rest & _ & _ & Hn & _). now right. }
  split; [exact Hshape|].
  destruct Hshape as [-> | Hn]; [reflexivity|].
  unfold service.ExtractVideoId at 1. now rewrite Hn.
Qed.

Lemma valid_host (host : string) :
  existsb (fun domain => String.eqb (strings.TrimPrefix host "www.") domain)
    service.validDomains = true
  <-> In host ["youtube.com"; "youtu.be"; "m.youtube.com";
               "www.youtube.com"; "www.youtu.be"; "www.m.youtube.com"]%string.
Proof.
  split.
  - intros Hex. apply existsb_exists in Hex as (domain & Hd & Heq).
    apply String.eqb_eq in Heq. unfold strings.TrimPrefix in Heq.
    destruct (strings.HasPrefix host "www.") eqn:Hp.
    + destruct host as [|c1 [|c2 [|c3 [|c4 r]]]]; simpl in Hp; try discriminate;
        rewrite ?andb_false_r in Hp; try discriminate.
      apply andb_prop in Hp as [H1 Hp]. apply andb_prop in Hp as [H2 Hp].
      apply andb_prop in Hp as [H3 Hp]. apply andb_prop in Hp as [H4 _].
      apply Ascii.eqb_eq in H1, H2, H3, H4. subst c1 c2 c3 c4.
      simpl in Heq. rewrite Nat.sub_0_r in Heq.
      assert (Hr : substring 0 (String.length r) r = r).
      { clear. induction r as [|c r IH]; simpl; [reflexivity | now rewrite IH]. }
      rewrite Hr in Heq. subst r.
      destruct Hd as [<- | [<- | [<- | []]]]; simpl; auto 10.
    + subst host. destruct Hd as [<- | [<- | [<- | []]]]; simpl; auto 10.
  - intros [<- | [<- | [<- | [<- | [<- | [<- | []]]]]]]; reflexivity.
Qed.

Section Hosts.
Context `{GoLib}.

(** X30: the hosts that pass.  [IsValidUrl] accepts an address exactly
    when [url.Parse] succeeds and the host of the result, in lower case,
    is one of six names: the three domains, or one of them after ["www."].
    Nothing else may stand in the host: a port or a trailing dot makes
    the address invalid. *)
Theorem IsValidUrl_hosts (urlStr : string) :
  service.IsValidUrl urlStr = true
  <-> exists parsedURL,
        url_Parse urlStr = Some parsedURL
        /\ In (strings.ToLower (Host parsedURL))
             ["youtube.com"; "youtu.be"; "m.youtube.com";
              "www.youtube.com"; "www.youtu.be"; "www.m.youtube.com"]%string.
Proof.
  unfold service.IsValidUrl. destruct (url_Parse urlStr) as [parsedURL|].
  - rewrite valid_host. split.
    + intros Hin. exists parsedURL. auto.
    + intros (u & [= <-] & Hin). exact Hin.
  - split; [discriminate | intros (u & [=] & _)].
Qed.

End Hosts.

(** ** Runs on the sample states *)

Lemma stored_ok : wf.ok sample.stored.
Proof.
  split.
  - intros p v Hp. simpl in Hp. apply lookup_singleton_Some in Hp as [<- _]. simpl. lia.
  - intros id e Hc. simpl in Hc. now rewrite lookup_empty in Hc.
Qed.

(** A run of [Save_then_Get] on the state with one response. *)
Lemma Save_then_Get_witness :
  exists σ1 σ2 p,
    repository.Save sample.live "v" (Some 1%positive) sample.stored = Some (None, σ1)
    /\ repository.Get sample.live "v" σ1 = Some (Ok p, σ2)
    /\ p <> 1%positive
    /\ responses σ2 !! p = Some sample.response
    /\ responses σ2 !! 1%positive = Some sample.response.
Proof.
  apply (Save_then_Get sample.live sample.stored "v" 1%positive sample.response).
  - exact (proj1 stored_ok).
  - discriminate.
  - reflexivity.
  - reflexivity.
Defined.


(** A run of [Get_read_only] on the cached sample video. *)
Lemma Get_read_only_witness :
  exists r σ1,
    repository.Get sample.live "dQw4w9WgXcQ" sample.warm = Some (r, σ1)
    /\ cache σ1 = cache sample.warm /\ transcripts σ1 = transcripts sample.warm
    /\ arrays σ1 = arrays sample.warm
    /\ (forall p v, responses sample.warm !! p = Some v -> responses σ1 !! p = Some v)
    /\ (forall p, r = Ok p ->
          responses sample.warm !! p = None /\ is_Some (responses σ1 !! p)).
Proof.
  eexists _, _. split; [vm_compute; reflexivity|].
  eapply (Get_read_only sample.live "dQw4w9WgXcQ" sample.warm).
  - vm_compute. reflexivity.
  - exact (proj1 warm_served).
Defined.

(** A run of [repository_refusals] with a context that is done. *)
Lemma repository_refusals_witness :
  (exists σ1, repository.Get sample.cancelled_after_stage1 "" sample.warm
              = Some (Err (ErrNew "video ID cannot be empty"), σ1)
              /\ cache σ1 = cache sample.warm /\ responses σ1 = responses sample.warm)
  /\ (exists σ1, repository.Save sample.cancelled_after_stage1 "" (Some 3%positive) sample.warm
                 = Some (Some (ErrNew "video ID cannot be empty"), σ1)
                 /\ cache σ1 = cache sample.warm /\ responses σ1 = responses sample.warm)
  /\ (exists σ1, repository.Save sample.cancelled_after_stage1 "v" None sample.warm
                 = Some (Some ErrInvalidTranscript, σ1)
                 /\ cache σ1 = cache sample.warm /\ responses σ1 = responses sample.warm)
  /\ (exists σ1, repository.Get sample.cancelled_after_stage1 "v" sample.warm
                 = Some (Err ErrContext, σ1)
                 /\ cache σ1 = cache sample.warm /\ responses σ1 = responses sample.warm)
  /\ (exists σ1, repository.Save sample.cancelled_after_stage1 "v" (Some 3%positive)
                   sample.warm
                 = Some (Some ErrContext, σ1)
                 /\ cache σ1 = cache sample.warm /\ responses σ1 = responses sample.warm)
  /\ repository.Clear sample.cancelled_after_stage1 sample.warm
     = Some (Some ErrContext, sample.warm).
Proof.
  destruct (repository_refusals sample.cancelled_after_stage1 sample.warm
              (Some 3%positive) "v" 3%positive ltac:(discriminate))
    as (H1 & H2 & H3 & H4).
  split; [exact H1|]. split; [exact H2|]. split; [exact H3|].
  apply H4. vm_compute. reflexivity.
Defined.

(** A run of [Clear_empties] on a cache with one video. *)
Lemma Clear_empties_witness :
  exists σ1 σ2,
    repository.Clear sample.live sample.warm = Some (None, σ1)
    /\ repository.Size σ1 = Some (0%nat, σ1)
    /\ repository.Get sample.live "dQw4w9WgXcQ" σ1 = Some (Err ErrTranscriptNotFound, σ2).
Proof.
  apply (Clear_empties sample.live sample.warm "dQw4w9WgXcQ").
  - reflexivity.
  - discriminate.
Defined.

(** A run of [Save_Size]: the first save makes the size 1. *)
Lemma Save_Size_witness :
  exists σ1,
    repository.Save sample.live "v" (Some 1%positive) sample.stored = Some (None, σ1)
    /\ size (cache σ1) = S (size (cache sample.stored)).
Proof.
  eexists. split; [vm_compute; reflexivity|].
  apply (Save_Size sample.live "v" (Some 1%positive) sample.stored _ None).
  vm_compute. reflexivity.
Defined.

(** A run of [repository_keeps_ok] on the state with one response. *)
Lemma repository_keeps_ok_witness :
  (forall videoID tr r σ1,
     repository.Save sample.live videoID tr sample.stored = Some (r, σ1) -> wf.ok σ1)
  /\ (forall videoID r σ1,
        repository.Get sample.live videoID sample.stored = Some (r, σ1) -> wf.ok σ1)
  /\ (forall r σ1, repository.Clear sample.live sample.stored = Some (r, σ1) -> wf.ok σ1)
  /\ (forall videoID, exists r σ1,
        repository.Get sample.live videoID sample.stored = Some (r, σ1)
        /\ r <> Err ErrInvalidTranscript).
Proof. exact (repository_keeps_ok sample.live sample.stored stored_ok). Defined.

Lemma stored_two_ok : wf.heap_ok sample.stored_two.
Proof.
  intros p v Hp. simpl in Hp |- *.
  apply lookup_insert_Some in Hp as [[<- _] | [_ Hp]]; [lia|].
  apply lookup_singleton_Some in Hp as [<- _]. lia.
Qed.

(** A run of [Save_overwrites]: a response titled ["T"] and then one
    titled ["U"] are saved under the same identifier; [Get] gives the
    second. *)
Lemma Save_overwrites_witness :
  sample.response <> sample.response2
  /\ exists σ1 σ2 σ3 p,
       repository.Save sample.live "v" (Some 1%positive) sample.stored_two = Some (None, σ1)
       /\ repository.Save sample.live "v" (Some 2%positive) σ1 = Some (None, σ2)
       /\ repository.Get sample.live "v" σ2 = Some (Ok p, σ3)
       /\ responses σ3 !! p = Some sample.response2
       /\ size (cache σ2) = size (cache σ1).
Proof.
  split; [discriminate|].
  apply (Save_overwrites sample.live sample.stored_two "v" 1%positive 2%positive
           sample.response sample.response2).
  - exact stored_two_ok.
  - discriminate.
  - reflexivity.
  - reflexivity.
  - reflexivity.
Defined.

(** A run of [handleGetTranscripts_answers] from the state after a first answer. *)
Lemma handleGetTranscripts_answers_witness :
  exists w σ1,
    @router.handleGetTranscripts plain.lib sample.live router.fresh_writer
      sample.get_request sample.warm = Some (w, σ1)
    /\ wf.served σ1
    /\ List.length (router.written w) = 1%nat
    /\ In (router.status w) [Some 200; Some 400; Some 405; Some 500].
Proof.
  exact (@handleGetTranscripts_answers plain.lib sample.live sample.get_request
           sample.warm warm_served).
Defined.

(** A run of [handleGetTranscripts_encode_failure]: the caption document has an infinite begin time. *)
Lemma handleGetTranscripts_encode_failure_witness :
  exists σ1,
    @router.handleGetTranscripts sample.lib sample.endless router.fresh_writer
      sample.get_request initial
    = Some ({| router.status := Some 200;
               router.written :=
                 [router.ErrorResponse "Internal Server Error"
                    "Failed to encode response"] |},
            σ1).
Proof.
  eexists.
  eapply (@handleGetTranscripts_encode_failure sample.lib sample.endless
            sample.get_request initial).
  - reflexivity.
  - discriminate.
  - vm_compute. reflexivity.
  - reflexivity.
  - vm_compute. reflexivity.
  - vm_compute. reflexivity.
Defined.

(** A run of [cors_preflight] in front of the transcript handler. *)
Lemma cors_preflight_witness :
  exists w1,
    middleware.cors sample.env_cors (@middleware.handleGetTranscripts plain.lib sample.live)
      middleware.fresh_response sample.options_request initial = Some (w1, initial)
    /\ middleware.cors sample.env_cors (fun _ _ _ => None)
         middleware.fresh_response sample.options_request initial = Some (w1, initial)
    /\ router.written (middleware.rw w1) = router.written (middleware.rw middleware.fresh_response)
    /\ (router.status (middleware.rw middleware.fresh_response) = None ->
        router.status (middleware.rw w1) = Some 200).
Proof.
  apply (cors_preflight sample.env_cors (@middleware.handleGetTranscripts plain.lib sample.live)
           middleware.fresh_response sample.options_request initial).
  reflexivity.
Defined.

(** A run of [cors_transcripts] with [DISABLE_CORS=true]. *)
Lemma cors_transcripts_witness :
  @router.handleGetTranscripts plain.lib sample.live router.fresh_writer
    sample.get_request initial
  = Some (middleware.rw sample.cors_answer, sample.warm)
  /\ middleware.header sample.cors_answer !! "Content-Type"%string
     = Some "application/json"%string
  /\ middleware.header sample.cors_answer !! "Access-Control-Allow-Origin"%string
     = Some "*"%string.
Proof.
  destruct (@cors_transcripts plain.lib sample.live sample.env_cors sample.get_request
              initial sample.warm sample.cors_answer)
    as (H1 & H2 & H3 & _).
  - discriminate.
  - vm_compute. reflexivity.
  - split; [exact H1|]. split; [exact H2|]. exact (proj1 (H3 eq_refl)).
Defined.


(** A run of [GetTranscript_caption_url] on the sample world. *)
Lemma GetTranscript_caption_url_witness :
  exists r σ1 track,
    @Client.GetTranscript plain.lib sample.live "dQw4w9WgXcQ" initial = Some (r, σ1)
    /\ In track [sample.es_track; sample.en_track]
    /\ trace σ1 = trace initial ++ [EvPost "dQw4w9WgXcQ";
                                    EvGet (BaseURL track +:+ "&fmt=ttml")].
Proof.
  apply (@GetTranscript_caption_url plain.lib sample.live "dQw4w9WgXcQ" initial
           {| VideoDetails_Title := "T";
              CaptionTracks := [sample.es_track; sample.en_track] |}).
  - reflexivity.
  - reflexivity.
  - discriminate.
Defined.

(** A run of [IsValidUrl_hosts] on an address in upper case. *)
Lemma IsValidUrl_hosts_witness :
  exists parsedURL,
    @url_Parse plain.lib "https://WWW.YouTube.com/watch?v=x" = Some parsedURL
    /\ In (strings.ToLower (Host parsedURL))
         ["youtube.com"; "youtu.be"; "m.youtube.com";
          "www.youtube.com"; "www.youtu.be"; "www.m.youtube.com"]%string.
Proof.
  apply (proj1 (@IsValidUrl_hosts plain.lib "https://WWW.YouTube.com/watch?v=x")).
  vm_compute. reflexivity.
Defined.
